(** * WebWarden crawler engine: a shallow embedding of [CrawlerEngine]

    The engine is a JavaScript class whose methods mutate the fields of
    [this] and suspend on [fetch] and on timers.  The embedding threads the
    fields as an explicit record, lets the network and the clock be an
    oracle consulted at every suspension point, and keeps a log of the
    outbound requests so that statements about "which fetches happened and
    when" can be written down. *)

From Stdlib Require Import ZArith Ascii String List Bool Lia.
From stdpp Require Import base decidable option gmap strings list pretty.
Import ListNotations.
Local Open Scope string_scope.

(** ** JavaScript string primitives (ASCII strings)

    [String.prototype] methods used by the engine, on Rocq strings. *)
Module JsString.

Definition newline : ascii := Ascii.ascii_of_nat 10.

(** White space stripped by [trim]: TAB, LF, VT, FF, CR and SPACE, which
    is all of it in ASCII text; the white space of Unicode beyond ASCII
    (U+00A0, U+FEFF and the like) does not occur in the strings modelled
    here. *)
Definition isSpace (c : ascii) : bool :=
  let n := Ascii.nat_of_ascii c in
  ((9 <=? n)%nat && (n <=? 13)%nat) || (n =? 32)%nat.

Definition lowerChar (c : ascii) : ascii :=
  let n := Ascii.nat_of_ascii c in
  if ((65 <=? n)%nat && (n <=? 90)%nat) then Ascii.ascii_of_nat (n + 32) else c.

Fixpoint toLowerCase (s : string) : string :=
  match s with
  | EmptyString => EmptyString
  | String c r => String (lowerChar c) (toLowerCase r)
  end.

Fixpoint startsWith (s p : string) : bool :=
  match p, s with
  | EmptyString, _ => true
  | String _ _, EmptyString => false
  | String a p', String b s' => Ascii.eqb a b && startsWith s' p'
  end.

(** [s.substring(n)]: the suffix from index [n] on. *)
Fixpoint substring (n : nat) (s : string) : string :=
  match n, s with
  | O, _ => s
  | S _, EmptyString => EmptyString
  | S k, String _ r => substring k r
  end.

Fixpoint includes (s p : string) : bool :=
  startsWith s p ||
  match s with
  | EmptyString => false
  | String _ r => includes r p
  end.

Fixpoint trimStart (s : string) : string :=
  match s with
  | EmptyString => EmptyString
  | String c r => if isSpace c then trimStart r else s
  end.

(** Drops trailing white space: a character is kept when something
    non-blank follows it or it is itself non-blank. *)
Fixpoint trimEnd (s : string) : string :=
  match s with
  | EmptyString => EmptyString
  | String c r =>
      match trimEnd r with
      | EmptyString => if isSpace c then EmptyString else String c EmptyString
      | t => String c t
      end
  end.

Definition trim (s : string) : string := trimEnd (trimStart s).

(** [s.split(sep)] for a one-character separator: always at least one
    piece. *)
Fixpoint split (sep : ascii) (s : string) : list string :=
  match s with
  | EmptyString => [EmptyString]
  | String c r =>
      if Ascii.eqb c sep then EmptyString :: split sep r
      else match split sep r with
           | [] => [String c EmptyString]
           | h :: t => String c h :: t
           end
  end.

(** Truthiness of a string: [''] is falsy. *)
Definition truthy (s : string) : bool :=
  match s with EmptyString => false | _ => true end.

(** Joins lines with LF, used to write multi-line literals. *)
Fixpoint unlines (l : list string) : string :=
  match l with
  | [] => EmptyString
  | [x] => x
  | x :: r => x ++ String newline (unlines r)
  end.

End JsString.

(** ** robots.txt evaluation ([parseRobotsTxt]) *)
Module Robots.
Import JsString.

(** Loop state of [parseRobotsTxt]: [userAgentMatch] and [allowed]. *)
Record scan := { userAgentMatch : bool; allowed : bool }.

(** One pass of the [for (const line of lines)] body. *)
Definition scanLine (userAgent pathname : string) (st : scan) (line : string) : scan :=
  if startsWith (toLowerCase line) "user-agent:" then
    let agent := trim (substring 11 line) in
    {| userAgentMatch := String.eqb agent "*" || includes userAgent agent;
       allowed := allowed st |}
  else if userAgentMatch st && startsWith (toLowerCase line) "disallow:" then
    let disallowPath := trim (substring 9 line) in
    if truthy disallowPath && startsWith pathname disallowPath
    then {| userAgentMatch := userAgentMatch st; allowed := false |}
    else st
  else if userAgentMatch st && startsWith (toLowerCase line) "allow:" then
    let allowPath := trim (substring 6 line) in
    if truthy allowPath && startsWith pathname allowPath
    then {| userAgentMatch := userAgentMatch st; allowed := true |}
    else st
  else st.

Definition robotsLines (robotsText : string) : list string :=
  map trim (split newline robotsText).

Definition parseRobotsTxt (userAgent robotsText pathname : string) : bool :=
  allowed (fold_left (scanLine userAgent pathname) (robotsLines robotsText)
             {| userAgentMatch := false; allowed := true |}).

(** *** The rule of section 4.3 in the specification's own words

    A rule is a verdict and a path prefix.  [blockRules] keeps the rules
    that sit in a user-agent block addressed to this crawler, in file
    order; [lastMatchWins] lets the last rule whose prefix matches the
    request path decide, and allows when none does. *)
Definition rule : Type := bool * string.

Fixpoint blockRules (userAgent : string) (active : bool) (lines : list string) : list rule :=
  match lines with
  | [] => []
  | line :: rest =>
      if startsWith (toLowerCase line) "user-agent:" then
        let agent := trim (substring 11 line) in
        blockRules userAgent (String.eqb agent "*" || includes userAgent agent) rest
      else if startsWith (toLowerCase line) "disallow:" then
        (if active then [(false, trim (substring 9 line))] else [])
          ++ blockRules userAgent active rest
      else if startsWith (toLowerCase line) "allow:" then
        (if active then [(true, trim (substring 6 line))] else [])
          ++ blockRules userAgent active rest
      else blockRules userAgent active rest
  end.

Definition ruleMatches (pathname : string) (r : rule) : bool :=
  truthy (snd r) && startsWith pathname (snd r).

Definition lastMatchWins (rules : list rule) (pathname : string) : bool :=
  match last (List.filter (ruleMatches pathname) rules) with
  | Some r => fst r
  | None => true
  end.

(** Longest-prefix evaluation, the other reading the specification rules
    out: the matching rule with the longest prefix decides. *)
Definition longestPrefixWins (rules : list rule) (pathname : string) : bool :=
  fst (fold_left
         (fun best r =>
            if ruleMatches pathname r && (String.length (snd best) <? String.length (snd r))%nat
            then r else best)
         rules (true, EmptyString)).

Definition exampleRobots : string :=
  unlines ["User-agent: *"; "Disallow: /admin"; "Allow: /public"].

Definition overlapRobots : string :=
  unlines ["User-agent: *"; "Allow: /docs/public"; "Disallow: /docs"].

End Robots.

(** ** Data model *)

(** [{ url, depth, referrer }] as pushed on [this.queue]; items produced by
    [extractLinks] also carry the anchor text. *)
Record WorkItem := {
  wi_url : string;
  wi_depth : nat;
  wi_referrer : option string;
  wi_anchorText : option string
}.

(** What the DOM queries of [parsePageData] read off the document. *)
Record PageMeta := {
  pm_title : string;
  pm_description : string;
  pm_keywords : string;
  pm_headings : list (string * list string);
  pm_linkCount : nat;
  pm_imageCount : nat;
  pm_wordCount : nat
}.

Record PageRecord := {
  pr_url : string;
  pr_meta : PageMeta;
  pr_depth : nat;
  pr_referrer : option string;
  pr_crawledAt : Z;
  pr_contentLength : nat;
  pr_loadTime : Z
}.

(** [{ url, error: error.message, timestamp }]. *)
Record CrawlError := {
  ce_url : string;
  ce_error : string;
  ce_timestamp : Z
}.

Record Config := {
  maxConcurrency : nat;
  requestDelay : Z;
  timeout : Z;
  maxRetries : nat;
  respectRobots : bool;
  userAgent : string;
  maxPages : nat;
  maxDepth : nat
}.

(** A thrown JavaScript error: the engine looks at [name] and [message]. *)
Record JsError := { err_name : string; err_message : string }.

Definition abortError : JsError :=
  {| err_name := "AbortError"; err_message := "The operation was aborted." |}.

Definition isAbort (e : JsError) : bool := String.eqb (err_name e) "AbortError".

(** ** The platform: URL and DOM APIs, and the network *)

(** A parsed [URL] object. *)
Record Url := {
  u_protocol : string;
  u_host : string;
  u_hostname : string;
  u_pathname : string;
  u_href : string
}.

(** Browser APIs the engine calls.  [newURL u] is [new URL(u)] ([None] when
    it throws), [resolveHref href base] is [new URL(href, base).href],
    [anchors html] lists, in document order, the [href] attribute and the
    trimmed text of every [a[href]] element of the parsed document, and
    [pageMeta url html] is what [parsePageData] extracts from it. *)
Record Platform := {
  newURL : string -> option Url;
  resolveHref : string -> string -> option string;
  anchors : string -> list (string * string);
  pageMeta : string -> string -> PageMeta
}.

(** A [Response]: [ok] is derived from the status as the Fetch API does. *)
Record Response := {
  r_status : nat;
  r_statusText : string;
  r_contentType : option string;
  r_body : string
}.

Definition r_ok (r : Response) : bool :=
  (200 <=? r_status r)%nat && (r_status r <=? 299)%nat.

Inductive FetchResult :=
| Responds (r : Response)
| NetworkError (message : string).

(** What the outside world does while the engine is suspended on a fetch or
    a timer: whether the user pressed stop ([stopCrawl] ran), how many
    milliseconds went by beyond the minimum, and, for a fetch, how it
    settles. *)
Record Reply := {
  stopNow : bool;
  elapsed : N;
  settles : FetchResult
}.

(** Which call site issued a request (bookkeeping for the request log). *)
Inductive Origin := PageFetch | LinkFetch | RobotsFetch.

Inductive Event :=
| Fetch (o : Origin) (url : string) (at_ms : Z)
| Dispatch (at_ms : Z).

(** ** Engine state: the fields of [this], the clock and the request log *)
Record Engine := {
  visited : gset string;
  queue : list WorkItem;
  index : list PageRecord;
  errors : list CrawlError;
  robotsCache : gmap string bool;
  activeRequests : Z;
  stopFlag : bool;
  aborted : bool;               (* this.controller.signal.aborted *)
  startTime : option Z;
  processed : nat;
  failed : nat;
  skipped : nat;
  lastRequestTime : Z;
  processingQueue : bool;
  clock : Z;                    (* Date.now() *)
  ticks : nat;                  (* suspension points passed so far *)
  log : list Event              (* requests and gate passes, oldest first *)
}.

Definition with_visited v (s : Engine) : Engine :=
  {| visited := v; queue := queue s; index := index s; errors := errors s;
     robotsCache := robotsCache s; activeRequests := activeRequests s;
     stopFlag := stopFlag s; aborted := aborted s; startTime := startTime s;
     processed := processed s; failed := failed s; skipped := skipped s;
     lastRequestTime := lastRequestTime s; processingQueue := processingQueue s;
     clock := clock s; ticks := ticks s; log := log s |}.

Definition with_queue q (s : Engine) : Engine :=
  {| visited := visited s; queue := q; index := index s; errors := errors s;
     robotsCache := robotsCache s; activeRequests := activeRequests s;
     stopFlag := stopFlag s; aborted := aborted s; startTime := startTime s;
     processed := processed s; failed := failed s; skipped := skipped s;
     lastRequestTime := lastRequestTime s; processingQueue := processingQueue s;
     clock := clock s; ticks := ticks s; log := log s |}.

Definition with_index i (s : Engine) : Engine :=
  {| visited := visited s; queue := queue s; index := i; errors := errors s;
     robotsCache := robotsCache s; activeRequests := activeRequests s;
     stopFlag := stopFlag s; aborted := aborted s; startTime := startTime s;
     processed := processed s; failed := failed s; skipped := skipped s;
     lastRequestTime := lastRequestTime s; processingQueue := processingQueue s;
     clock := clock s; ticks := ticks s; log := log s |}.

Definition with_errors e (s : Engine) : Engine :=
  {| visited := visited s; queue := queue s; index := index s; errors := e;
     robotsCache := robotsCache s; activeRequests := activeRequests s;
     stopFlag := stopFlag s; aborted := aborted s; startTime := startTime s;
     processed := processed s; failed := failed s; skipped := skipped s;
     lastRequestTime := lastRequestTime s; processingQueue := processingQueue s;
     clock := clock s; ticks := ticks s; log := log s |}.

Definition with_robotsCache c (s : Engine) : Engine :=
  {| visited := visited s; queue := queue s; index := index s; errors := errors s;
     robotsCache := c; activeRequests := activeRequests s;
     stopFlag := stopFlag s; aborted := aborted s; startTime := startTime s;
     processed := processed s; failed := failed s; skipped := skipped s;
     lastRequestTime := lastRequestTime s; processingQueue := processingQueue s;
     clock := clock s; ticks := ticks s; log := log s |}.

Definition with_activeRequests a (s : Engine) : Engine :=
  {| visited := visited s; queue := queue s; index := index s; errors := errors s;
     robotsCache := robotsCache s; activeRequests := a;
     stopFlag := stopFlag s; aborted := aborted s; startTime := startTime s;
     processed := processed s; failed := failed s; skipped := skipped s;
     lastRequestTime := lastRequestTime s; processingQueue := processingQueue s;
     clock := clock s; ticks := ticks s; log := log s |}.

(** [stopFlag] and the abort signal of [this.controller]. *)
Definition with_signals stop ab (s : Engine) : Engine :=
  {| visited := visited s; queue := queue s; index := index s; errors := errors s;
     robotsCache := robotsCache s; activeRequests := activeRequests s;
     stopFlag := stop; aborted := ab; startTime := startTime s;
     processed := processed s; failed := failed s; skipped := skipped s;
     lastRequestTime := lastRequestTime s; processingQueue := processingQueue s;
     clock := clock s; ticks := ticks s; log := log s |}.

(** [this.stats]: [startTime], [processed], [failed], [skipped]. *)
Definition with_stats t p f k (s : Engine) : Engine :=
  {| visited := visited s; queue := queue s; index := index s; errors := errors s;
     robotsCache := robotsCache s; activeRequests := activeRequests s;
     stopFlag := stopFlag s; aborted := aborted s; startTime := t;
     processed := p; failed := f; skipped := k;
     lastRequestTime := lastRequestTime s; processingQueue := processingQueue s;
     clock := clock s; ticks := ticks s; log := log s |}.

(** The rate limiter's fields. *)
Definition with_gate last busy (s : Engine) : Engine :=
  {| visited := visited s; queue := queue s; index := index s; errors := errors s;
     robotsCache := robotsCache s; activeRequests := activeRequests s;
     stopFlag := stopFlag s; aborted := aborted s; startTime := startTime s;
     processed := processed s; failed := failed s; skipped := skipped s;
     lastRequestTime := last; processingQueue := busy;
     clock := clock s; ticks := ticks s; log := log s |}.

(** The world outside [this]: time, suspension count, request log. *)
Definition with_world c t l (s : Engine) : Engine :=
  {| visited := visited s; queue := queue s; index := index s; errors := errors s;
     robotsCache := robotsCache s; activeRequests := activeRequests s;
     stopFlag := stopFlag s; aborted := aborted s; startTime := startTime s;
     processed := processed s; failed := failed s; skipped := skipped s;
     lastRequestTime := lastRequestTime s; processingQueue := processingQueue s;
     clock := c; ticks := t; log := l |}.

(** ** Asynchronous computations over the engine

    A method call either returns, throws, never settles (a promise nobody
    resolves) or, for the recursive and looping methods, runs out of the
    unrolling budget of the embedding.  The state reached is always
    reported. *)
Inductive outcome (A : Type) :=
| Ret (a : A)
| Throw (e : JsError)
| Pending
| OutOfFuel.
Arguments Ret {A} a.
Arguments Throw {A} e.
Arguments Pending {A}.
Arguments OutOfFuel {A}.

Definition M (A : Type) : Type := Engine -> outcome A * Engine.

Definition ret {A} (a : A) : M A := fun s => (Ret a, s).
Definition throw {A} (e : JsError) : M A := fun s => (Throw e, s).

Definition bind {A B} (m : M A) (k : A -> M B) : M B :=
  fun s =>
    match m s with
    | (Ret a, s') => k a s'
    | (Throw e, s') => (Throw e, s')
    | (Pending, s') => (Pending, s')
    | (OutOfFuel, s') => (OutOfFuel, s')
    end.

(** [try { m } catch (error) { h error }]. *)
Definition tryCatch {A} (m : M A) (h : JsError -> M A) : M A :=
  fun s =>
    match m s with
    | (Throw e, s') => h e s'
    | r => r
    end.

(** [... finally { f }]: [f] runs when the block returns or throws. *)
Definition finally {A} (m : M A) (f : Engine -> Engine) : M A :=
  fun s =>
    match m s with
    | (Ret a, s') => (Ret a, f s')
    | (Throw e, s') => (Throw e, f s')
    | r => r
    end.

Definition modify (f : Engine -> Engine) : M unit := fun s => (Ret tt, f s).
Definition gets {A} (f : Engine -> A) : M A := fun s => (Ret (f s), s).

Declare Scope engine_scope.
Delimit Scope engine_scope with engine.
Notation "'let*' x ':=' m 'in' k" := (bind m (fun x => k))
  (at level 10, x name, m at level 100, k at level 200) : engine_scope.
Notation "m '>>>' k" := (bind m (fun _ => k))
  (at level 90, right associativity) : engine_scope.

(** ** The engine's methods *)
Section Engine.

Variable cfg : Config.
Variable P : Platform.
(** The outside world: reply number [n] answers the [n]-th suspension. *)
Variable net : nat -> Reply.

Local Open Scope engine_scope.

(** [stopCrawl()]: raise the flag and abort the shared controller. *)
Definition stopCrawl (s : Engine) : Engine := with_signals true true s.

(** A timer handler of [fetchWithTimeout] firing: it aborts the one
    controller of the crawl. *)
Definition abortController (s : Engine) : Engine := with_signals (stopFlag s) true s.

(** The engine yields to the event loop for at least [atLeast] ms: the
    next reply of the outside world is consumed, time moves on, and a
    stop pressed meanwhile has run [stopCrawl]. *)
Definition yield (atLeast : Z) (s : Engine) : Reply * Engine :=
  let r := net (ticks s) in
  let s1 := with_world (clock s + Z.max 0 atLeast + Z.of_N (elapsed r))
              (S (ticks s)) (log s) s in
  (r, if stopNow r then stopCrawl s1 else s1).

(** [delay(ms)]: a promise resolved by [setTimeout]. *)
Definition delay (ms : Z) : M unit := fun s => (Ret tt, snd (yield ms s)).

(** [fetch(url, { signal: this.controller.signal, ... })], with [timer]
    the abort timer the caller has armed, if any.  An already aborted
    signal rejects at once and nothing is sent; otherwise the request goes
    out (and is logged) and settles after [elapsed] ms, unless stop is
    pressed or the timer fires first.  Reading the body
    ([response.text()]) is part of the same suspension. *)
Definition jsFetch (o : Origin) (url : string) (timer : option Z) : M Response :=
  fun s =>
    if aborted s then (Throw abortError, s)
    else
      let s0 := with_world (clock s) (ticks s) (log s ++ [Fetch o url (clock s)]) s in
      let r := fst (yield 0 s0) in
      let s1 := snd (yield 0 s0) in
      if stopNow r then (Throw abortError, s1)
      else if match timer with
              | Some t => (t <=? Z.of_N (elapsed r))%Z
              | None => false
              end
      then (Throw abortError, abortController s1)
      else match settles r with
           | Responds resp => (Ret resp, s1)
           | NetworkError msg =>
               (Throw {| err_name := "TypeError"; err_message := msg |}, s1)
           end.

(** [fetchWithTimeout(url)]: the timer calls [this.controller.abort()]
    after [config.timeout] ms and is cleared when the fetch settles. *)
Definition fetchWithTimeout (o : Origin) (url : string) : M Response :=
  jsFetch o url (Some (timeout cfg)).

Definition isValidUrl (url : string) : bool :=
  match newURL P url with
  | Some urlObj =>
      String.eqb (u_protocol urlObj) "http:" || String.eqb (u_protocol urlObj) "https:"
  | None => false
  end.

Definition isSameDomain (url1 url2 : string) : bool :=
  match newURL P url1, newURL P url2 with
  | Some a, Some b => String.eqb (u_hostname a) (u_hostname b)
  | _, _ => false
  end.

Definition robotsUrlOf (urlObj : Url) : string :=
  u_protocol urlObj ++ "//" ++ u_host urlObj ++ "/robots.txt".

Definition typeError (msg : string) : JsError :=
  {| err_name := "TypeError"; err_message := msg |}.

Definition plainError (msg : string) : JsError :=
  {| err_name := "Error"; err_message := msg |}.

(** [isAllowedByRobots(url)]: the whole body sits in [try { } catch
    { return true }]. *)
Definition isAllowedByRobots (url : string) : M bool :=
  tryCatch
    (match newURL P url with
     | None => throw (typeError "Invalid URL")
     | Some urlObj =>
         let robotsUrl := robotsUrlOf urlObj in
         let* cache := gets robotsCache in
         match cache !! robotsUrl with
         | Some decision => ret decision
         | None =>
             let* response := jsFetch RobotsFetch robotsUrl None in
             if negb (r_ok response) then
               modify (fun s => with_robotsCache (<[robotsUrl := true]> (robotsCache s)) s)
               >>> ret true
             else
               let robotsText := r_body response in
               let isAllowed :=
                 Robots.parseRobotsTxt (userAgent cfg) robotsText (u_pathname urlObj) in
               modify (fun s => with_robotsCache (<[robotsUrl := isAllowed]> (robotsCache s)) s)
               >>> ret isAllowed
         end
     end)
    (fun _ => ret true).

(** [parsePageData(url, html, depth, referrer)]. *)
Definition parsePageData (url html : string) (depth : nat) (referrer : option string)
  : M PageRecord :=
  gets (fun s =>
    {| pr_url := url;
       pr_meta := pageMeta P url html;
       pr_depth := depth;
       pr_referrer := referrer;
       pr_crawledAt := clock s;
       pr_contentLength := String.length html;
       pr_loadTime := clock s - default 0%Z (startTime s) |}).

Definition httpError (response : Response) : JsError :=
  plainError ("HTTP " ++ pretty (r_status response) ++ ": " ++ r_statusText response).

Definition contentTypeOf (response : Response) : string :=
  default "" (r_contentType response).

Definition contentTypeError (response : Response) : JsError :=
  plainError ("Unsupported content type: " ++ contentTypeOf response).

(** [crawlPage(url, depth, referrer, retryCount)].  The method calls
    itself from its [catch] block; [fuel] bounds the nesting.  The
    [finally] block of a retrying call runs as soon as the nested call has
    been started; as it only decrements a counter that the nested call
    increments and decrements in turn, running it after the nested call
    gives the same state. *)
Fixpoint crawlPage (fuel : nat) (url : string) (depth : nat) (referrer : option string)
  (retryCount : nat) : M (option PageRecord) :=
  match fuel with
  | O => fun s => (OutOfFuel, s)
  | S fuel' =>
      let* seen := gets (fun s => bool_decide (url ∈ visited s)) in
      if seen then ret None
      else
        let* allowed :=
          (if respectRobots cfg then isAllowedByRobots url else ret true) in
        if respectRobots cfg && negb allowed then
          modify (fun s => with_stats (startTime s) (processed s) (failed s) (S (skipped s)) s)
          >>> ret None
        else
          modify (fun s => with_visited ({[url]} ∪ visited s) s) >>>
          modify (fun s => with_activeRequests (activeRequests s + 1) s) >>>
          finally
            (tryCatch
               (let* response := fetchWithTimeout PageFetch url in
                if negb (r_ok response) then throw (httpError response)
                else if negb (JsString.includes (contentTypeOf response) "text/html")
                then throw (contentTypeError response)
                else
                  let html := r_body response in
                  let* pageData := parsePageData url html depth referrer in
                  ret (Some pageData))
               (fun error =>
                  if (retryCount <? maxRetries cfg)%nat && negb (isAbort error) then
                    delay (1000 * (Z.of_nat retryCount + 1)) >>>
                    crawlPage fuel' url depth referrer (S retryCount)
                  else throw error))
            (fun s => with_activeRequests (activeRequests s - 1) s)
  end.

(** The [.map] callback of [extractLinks]: [None] is the [null] it
    returns for an empty or unresolvable [href]. *)
Definition toLink (url : string) (nextDepth : nat) (a : string * string) : option WorkItem :=
  if JsString.truthy (fst a) then
    match resolveHref P (fst a) url with
    | Some absoluteUrl =>
        Some {| wi_url := absoluteUrl; wi_depth := nextDepth;
                wi_referrer := Some url; wi_anchorText := Some (snd a) |}
    | None => None
    end
  else None.

(** The [.filter] callback of [extractLinks]. *)
Definition keepLink (seen : gset string) (baseHref : string) (link : WorkItem) : bool :=
  isValidUrl (wi_url link)
  && negb (bool_decide (wi_url link ∈ seen))
  && isSameDomain (wi_url link) baseHref.

Definition linksOf (url html : string) (nextDepth : nat) (seen : gset string)
  (baseUrl : Url) : list WorkItem :=
  take 20 (List.filter (keepLink seen (u_href baseUrl))
             (omap (toLink url nextDepth) (anchors P html))).

(** [extractLinks(url, nextDepth)]: fetches the page again; any failure
    yields the empty list. *)
Definition extractLinks (url : string) (nextDepth : nat) : M (list WorkItem) :=
  tryCatch
    (let* response := fetchWithTimeout LinkFetch url in
     let html := r_body response in
     match newURL P url with
     | None => throw (typeError "Invalid URL")
     | Some baseUrl =>
         let* seen := gets visited in
         ret (linksOf url html nextDepth seen baseUrl)
     end)
    (fun _ => ret []).

(** [handleCrawlError(url, error)]. *)
Definition handleCrawlError (url : string) (error : JsError) : M unit :=
  modify (fun s => with_stats (startTime s) (processed s) (S (failed s)) (skipped s) s) >>>
  modify (fun s =>
    with_errors (errors s ++ [{| ce_url := url; ce_error := err_message error;
                                 ce_timestamp := clock s |}]) s).

(** The arrow function a worker hands to the rate limiter. *)
Definition requestFn (item : WorkItem) : M unit :=
  let* pageData :=
    crawlPage (S (maxRetries cfg)) (wi_url item) (wi_depth item) (wi_referrer item) 0 in
  match pageData with
  | Some pd =>
      modify (fun s => with_index (index s ++ [pd]) s) >>>
      modify (fun s => with_stats (startTime s) (S (processed s)) (failed s) (skipped s) s) >>>
      if (wi_depth item <? maxDepth cfg)%nat then
        let* newLinks := extractLinks (wi_url item) (wi_depth item + 1) in
        modify (fun s => with_queue (queue s ++ newLinks) s)
      else ret tt
  | None => ret tt
  end.

(** [rateLimitedRequest(requestFn)] with [processRequestQueue()] for the
    request it has just queued.  When another pass over the request queue
    is marked as running, or the stop flag is up, nobody takes the
    request and its promise never settles.  Otherwise the pass waits out
    the remainder of [requestDelay], stamps [lastRequestTime] (logged as a
    [Dispatch]), awaits the request, hands its result or its exception to
    the caller, finds the queue empty and clears [processingQueue]. *)
Definition rateLimitedRequest {A} (request : M A) : M A :=
  fun s =>
    if processingQueue s then (Pending, s)
    else if stopFlag s then (Pending, s)
    else
      let s1 := with_gate (lastRequestTime s) true s in
      let timeSinceLastRequest := (clock s1 - lastRequestTime s1)%Z in
      (finally
         ((if (timeSinceLastRequest <? requestDelay cfg)%Z
           then delay (requestDelay cfg - timeSinceLastRequest)
           else ret tt) >>>
          modify (fun s => with_gate (clock s) (processingQueue s)
                             (with_world (clock s) (ticks s) (log s ++ [Dispatch (clock s)]) s)) >>>
          request)
         (fun s => with_gate (lastRequestTime s) false s)) s1.

(** The [while] condition of [crawlWorker]. *)
Definition workerCondition (s : Engine) : bool :=
  negb (stopFlag s) && (0 <? length (queue s))%nat
  && (length (index s) <? maxPages cfg)%nat.

(** The body of the worker loop after the duplicate check: the guarded
    request, the progress callback (which does not touch the engine) and
    the 100 ms pause. *)
Definition processItem (item : WorkItem) : M unit :=
  tryCatch (rateLimitedRequest (requestFn item))
           (fun error => handleCrawlError (wi_url item) error) >>>
  delay 100.

(** [crawlWorker()], at most [fuel] passes through the loop. *)
Fixpoint crawlWorker (fuel : nat) : M unit :=
  match fuel with
  | O => fun s => (OutOfFuel, s)
  | S fuel' =>
      fun s =>
        if workerCondition s then
          match queue s with
          | [] => (Ret tt, s)
          | item :: rest =>
              let s1 := with_queue rest s in
              if bool_decide (wi_url item ∈ visited s1) then crawlWorker fuel' s1
              else (processItem item >>> crawlWorker fuel') s1
          end
        else (Ret tt, s)
  end.

(** [processCrawlQueue()].  The workers are started one after the other
    in a synchronous loop, and each runs up to its first [await] before
    the next is started.  [startCrawl] has queued the seed only, the
    first worker shifts it off before it suspends, so every further worker
    finds [queue.length === 0], leaves its loop at once and never comes
    back: the crawl is carried by the first worker. *)
Definition processCrawlQueue (fuel : nat) : M unit :=
  match maxConcurrency cfg with
  | O => ret tt
  | S _ => crawlWorker fuel
  end.

(** [reset()]. *)
Definition reset (s : Engine) : Engine :=
  with_activeRequests 0
    (with_stats None 0 0 0
       (with_signals false (aborted s)
          (with_errors []
             (with_index []
                (with_queue []
                   (with_visited ∅ s)))))).

(** [startCrawl(startUrl, onProgress, onComplete)]. *)
Definition startCrawl (fuel : nat) (startUrl : string) : M unit :=
  modify reset >>>
  modify (fun s => with_signals (stopFlag s) false s) >>>
  modify (fun s => with_stats (Some (clock s)) (processed s) (failed s) (skipped s) s) >>>
  if negb (isValidUrl startUrl) then throw (plainError "Invalid start URL provided")
  else
    modify (fun s =>
      with_queue (queue s ++ [{| wi_url := startUrl; wi_depth := 0;
                                 wi_referrer := None; wi_anchorText := None |}]) s) >>>
    tryCatch (processCrawlQueue fuel)
             (fun error => if negb (isAbort error) then throw error else ret tt).

End Engine.

(** An engine between crawls: what the constructor builds, with whatever an
    earlier crawl left in the fields that [reset] does not clear. *)
Definition idleEngine (cache : gmap string bool) (last now : Z) : Engine :=
  {| visited := ∅; queue := []; index := []; errors := [];
     robotsCache := cache; activeRequests := 0;
     stopFlag := false; aborted := false; startTime := None;
     processed := 0; failed := 0; skipped := 0;
     lastRequestTime := last; processingQueue := false;
     clock := now; ticks := 0; log := [] |}.

(** [new CrawlerEngine(config)] at time [now]. *)
Definition newEngine (now : Z) : Engine := idleEngine ∅ 0 now.

(** ** A small concrete world for worked examples

    One site, [site.test], and a foreign host, with the [URL] and DOM
    answers a browser gives for the handful of strings the examples use. *)
Module Demo.

Definition mkUrl (proto host path : string) : Url :=
  {| u_protocol := proto; u_host := host; u_hostname := host;
     u_pathname := path; u_href := proto ++ "//" ++ host ++ path |}.

Definition urlTable : list (string * Url) :=
  [ ("https://site.test/", mkUrl "https:" "site.test" "/");
    ("https://site.test", mkUrl "https:" "site.test" "/");
    ("https://site.test/a", mkUrl "https:" "site.test" "/a");
    ("https://site.test/b", mkUrl "https:" "site.test" "/b");
    ("https://site.test/admin/x", mkUrl "https:" "site.test" "/admin/x");
    ("https://other.test/", mkUrl "https:" "other.test" "/");
    ("ftp://site.test/f", mkUrl "ftp:" "site.test" "/f") ].

Fixpoint assoc {A} (k : string) (l : list (string * A)) : option A :=
  match l with
  | [] => None
  | (k', v) :: r => if String.eqb k k' then Some v else assoc k r
  end.

Definition homeHtml : string :=
  "<a href=/a>A</a><a href=https://other.test/>B</a><a href=/b>B</a><a href=ftp://site.test/f>F</a>".

Definition platform : Platform :=
  {| newURL := fun u => assoc u urlTable;
     resolveHref := fun href base =>
       match assoc base urlTable with
       | None => None
       | Some _ =>
           if JsString.startsWith href "/" then Some ("https://site.test" ++ href)
           else match assoc href urlTable with
                | Some u => Some (u_href u)
                | None => None
                end
       end;
     anchors := fun html =>
       if String.eqb html homeHtml
       then [("/a", "A"); ("https://other.test/", "B"); ("/b", "B"); ("ftp://site.test/f", "F")]
       else if String.eqb html "<a href=/a>A</a>" then [("/a", "A")]
       else [];
     pageMeta := fun url html =>
       {| pm_title := url; pm_description := ""; pm_keywords := "";
          pm_headings := [("h1", []); ("h2", []); ("h3", [])];
          pm_linkCount := 0; pm_imageCount := 0; pm_wordCount := 0 |} |}.

(** The defaults of the constructor. *)
Definition defaults : Config :=
  {| maxConcurrency := 3; requestDelay := 1000; timeout := 10000;
     maxRetries := 2; respectRobots := true;
     userAgent := "WebWarden Crawler 2.0"; maxPages := 100; maxDepth := 3 |}.

Definition withoutRobots (c : Config) : Config :=
  {| maxConcurrency := maxConcurrency c; requestDelay := requestDelay c;
     timeout := timeout c; maxRetries := maxRetries c; respectRobots := false;
     userAgent := userAgent c; maxPages := maxPages c; maxDepth := maxDepth c |}.

Definition withRetries (n : nat) (c : Config) : Config :=
  {| maxConcurrency := maxConcurrency c; requestDelay := requestDelay c;
     timeout := timeout c; maxRetries := n; respectRobots := respectRobots c;
     userAgent := userAgent c; maxPages := maxPages c; maxDepth := maxDepth c |}.

Definition html (body : string) : Response :=
  {| r_status := 200; r_statusText := "OK";
     r_contentType := Some "text/html; charset=utf-8"; r_body := body |}.

Definition notFound : Response :=
  {| r_status := 404; r_statusText := "Not Found";
     r_contentType := Some "text/html"; r_body := "" |}.

Definition after (ms : N) (res : FetchResult) : Reply :=
  {| stopNow := false; elapsed := ms; settles := res |}.

(** The user presses stop while the engine is suspended. *)
Definition stopPressed (ms : N) : Reply :=
  {| stopNow := true; elapsed := ms; settles := NetworkError "aborted" |}.

Definition seed : string := "https://site.test/".

(** A wall-clock reading, in ms since the epoch. *)
Definition t0 : Z := 1700000000000.

Definition siteRobots : string := "https://site.test/robots.txt".

(** An idle engine that has allow-all cached for [site.test]. *)
Definition allowAllCached : Engine := idleEngine {[siteRobots := true]} 0 t0.

(** The record of the home page when it is fetched at [t0] and answered 5 ms
    later on an engine whose [startTime] is not set. *)
Definition homeRecord : PageRecord :=
  {| pr_url := seed;
     pr_meta := pageMeta platform seed homeHtml;
     pr_depth := 0;
     pr_referrer := None;
     pr_crawledAt := t0 + 5;
     pr_contentLength := String.length homeHtml;
     pr_loadTime := t0 + 5 |}.

(** A robots.txt that closes the whole site to every crawler. *)
Definition robotsDenyAll : Response :=
  {| r_status := 200; r_statusText := "OK"; r_contentType := Some "text/plain";
     r_body := JsString.unlines ["User-agent: *"; "Disallow: /"] |}.

(** Replies read off a script, then [d] for ever. *)
Definition scripted (l : list Reply) (d : Reply) : nat -> Reply := fun n => nth n l d.

(** Every request is answered with the home page after 5 ms. *)
Definition healthy : nat -> Reply := fun _ => after 5 (Responds (html homeHtml)).

(** The first request (robots.txt) gets [robotsDenyAll]. *)
Definition closedSite : nat -> Reply :=
  scripted [after 5 (Responds robotsDenyAll)] (after 5 (Responds (html homeHtml))).

(** Every request is answered with a page without links after 5 ms. *)
Definition singlePage : nat -> Reply := fun _ => after 5 (Responds (html "")).

(** A home page with one link, to [/a]. *)
Definition linkHtml : string := "<a href=/a>A</a>".

(** robots.txt cannot be reached (network error) while pages are served:
    the replies to the robots.txt, page and link requests for the seed, to
    the pause and the rate-limiter wait, and to the same three requests for
    [/a]. *)
Definition robotsUnreachable : nat -> Reply :=
  scripted [ after 5 (NetworkError "Failed to fetch");
             after 5 (Responds (html linkHtml));
             after 5 (Responds (html linkHtml));
             after 0 (Responds (html ""));
             after 0 (Responds (html ""));
             after 5 (NetworkError "Failed to fetch");
             after 5 (Responds (html ""));
             after 5 (Responds (html "")) ]
           (after 5 (Responds (html ""))).

(** The user presses stop 5 ms into the first suspension; later requests
    would be answered with a page without links. *)
Definition stopDuringFirst : nat -> Reply :=
  scripted [stopPressed 5] (after 5 (Responds (html ""))).

(** Every request takes 10 s, the default [timeout], to be answered. *)
Definition slowSite : nat -> Reply := fun _ => after 10000 (Responds (html "")).

(** Every request fails in the network layer after 5 ms. *)
Definition offline : nat -> Reply := fun _ => after 5 (NetworkError "Failed to fetch").

(** Every request is answered 404 after 5 ms. *)
Definition allNotFound : nat -> Reply := fun _ => after 5 (Responds notFound).

End Demo.


(** ** Vocabulary of the statements *)

Local Open Scope list_scope.

Definition fetchesOf (o : Origin) (l : list Event) : list string :=
  omap (fun e =>
          match e, o with
          | Fetch PageFetch u _, PageFetch
          | Fetch LinkFetch u _, LinkFetch
          | Fetch RobotsFetch u _, RobotsFetch => Some u
          | _, _ => None
          end) l.

(** Start times of all outbound requests, in the order they were sent. *)
Definition fetchTimes (l : list Event) : list Z :=
  omap (fun e => match e with Fetch _ _ t => Some t | Dispatch _ => None end) l.

(** Times at which the rate limiter let a request through. *)
Definition dispatches (l : list Event) : list Z :=
  omap (fun e => match e with Dispatch t => Some t | Fetch _ _ _ => None end) l.

(** Consecutive time stamps are at least [d] apart. *)
Fixpoint spaced (d : Z) (ts : list Z) : Prop :=
  match ts with
  | t1 :: ((t2 :: _) as rest) => (t1 + d <= t2)%Z /\ spaced d rest
  | _ => True
  end.

(** Both strings parse as URLs and have the same [hostname]. *)
Definition sameHost (P : Platform) (u v : string) : Prop :=
  exists a b, newURL P u = Some a /\ newURL P v = Some b /\ u_hostname a = u_hostname b.

(** A response [crawlPage] rejects: non-2xx, or no [text/html] in the
    content type. *)
Definition rejectedResponse (r : Response) : bool :=
  negb (r_ok r) || negb (JsString.includes (contentTypeOf r) "text/html").

(** The error [crawlPage] throws for a rejected response. *)
Definition rejectionOf (r : Response) : JsError :=
  if negb (r_ok r) then httpError r else contentTypeError r.

(** The robots check as [crawlPage] performs it. *)
Definition robotsGate (cfg : Config) (P : Platform) (net : nat -> Reply) (url : string)
  : M bool :=
  if respectRobots cfg then isAllowedByRobots cfg P net url else ret true.

(** The state changes of [crawlPage] around its [try] block. *)
Definition claim (url : string) (s : Engine) : Engine :=
  with_activeRequests (activeRequests s + 1) (with_visited ({[url]} ∪ visited s) s).

Definition release (s : Engine) : Engine :=
  with_activeRequests (activeRequests s - 1) s.

Definition countSkip (s : Engine) : Engine :=
  with_stats (startTime s) (processed s) (failed s) (S (skipped s)) s.

(** The record [parsePageData] builds in state [s]. *)
Definition recordAt (P : Platform) (url html : string) (depth : nat)
  (referrer : option string) (s : Engine) : PageRecord :=
  {| pr_url := url;
     pr_meta := pageMeta P url html;
     pr_depth := depth;
     pr_referrer := referrer;
     pr_crawledAt := clock s;
     pr_contentLength := String.length html;
     pr_loadTime := clock s - default 0%Z (startTime s) |}.

(** What the [catch] block of [crawlPage] comes to once the nested call has
    been resolved: with retries left and no abort it waits and then gives up
    without a result; otherwise it rethrows. *)
Definition onFailure (cfg : Config) (net : nat -> Reply) (fuel retryCount : nat)
  (e : JsError) (s : Engine) : outcome (option PageRecord) * Engine :=
  if (retryCount <? maxRetries cfg)%nat && negb (isAbort e) then
    match fuel with
    | O => (OutOfFuel, snd (delay net (1000 * (Z.of_nat retryCount + 1)) s))
    | S _ => (Ret None, release (snd (delay net (1000 * (Z.of_nat retryCount + 1)) s)))
    end
  else (Throw e, release s).

(** The rate limiter letting a request through: it marks the queue pass
    as running, waits out what is left of [requestDelay], stamps
    [lastRequestTime] and logs the pass. *)
Definition gateOpen (cfg : Config) (net : nat -> Reply) (s : Engine) : Engine :=
  let s1 := with_gate (lastRequestTime s) true s in
  let waited :=
    if (clock s1 - lastRequestTime s1 <? requestDelay cfg)%Z
    then snd (delay net (requestDelay cfg - (clock s1 - lastRequestTime s1)) s1)
    else s1 in
  with_gate (clock waited) (processingQueue waited)
    (with_world (clock waited) (ticks waited) (log waited ++ [Dispatch (clock waited)]) waited).

(** The queue pass ending. *)
Definition gateClose (s : Engine) : Engine := with_gate (lastRequestTime s) false s.

(** [this.index.push(pageData); this.stats.processed++]. *)
Definition recordPage (pd : PageRecord) (s : Engine) : Engine :=
  with_stats (startTime (with_index (index s ++ [pd]) s))
    (S (processed (with_index (index s ++ [pd]) s)))
    (failed (with_index (index s ++ [pd]) s))
    (skipped (with_index (index s ++ [pd]) s))
    (with_index (index s ++ [pd]) s).

(** [handleCrawlError] as a state change. *)
Definition recordError (url : string) (e : JsError) (s : Engine) : Engine :=
  snd (handleCrawlError url e s).

(** The seed as a work item. *)
Definition seedItem (startUrl : string) : WorkItem :=
  {| wi_url := startUrl; wi_depth := 0; wi_referrer := None; wi_anchorText := None |}.

(** The engine as [startCrawl] has prepared it before the URL check, and
    after queueing the seed. *)
Definition started (s : Engine) : Engine :=
  with_stats (Some (clock (with_signals (stopFlag (reset s)) false (reset s))))
    (processed (with_signals (stopFlag (reset s)) false (reset s)))
    (failed (with_signals (stopFlag (reset s)) false (reset s)))
    (skipped (with_signals (stopFlag (reset s)) false (reset s)))
    (with_signals (stopFlag (reset s)) false (reset s)).

Definition seeded (startUrl : string) (s : Engine) : Engine :=
  with_queue (queue (started s) ++ [seedItem startUrl]) (started s).

(** Serialising a parsed URL and parsing it again keeps the host name. *)
Definition hostnameStable (P : Platform) : Prop :=
  forall u a, newURL P u = Some a ->
    exists b, newURL P (u_href a) = Some b /\ u_hostname b = u_hostname a.

(** What section 4.6 asks of a work item [l] queued for the links of
    [page], whose document was [html], with [seen] the visited set at that
    moment. *)
Definition discoveredFrom (P : Platform) (page : WorkItem) (html : string)
  (seen : gset string) (l : WorkItem) : Prop :=
  (exists href text, (href, text) ∈ anchors P html /\
                     resolveHref P href (wi_url page) = Some (wi_url l)) /\
  isValidUrl P (wi_url l) = true /\
  sameHost P (wi_url l) (wi_url page) /\
  (wi_url l ∉ seen) /\
  wi_depth l = wi_depth page + 1 /\
  wi_referrer l = Some (wi_url page).

(** Every queued item and every page record is on the host of [seed]. *)
Definition confined (P : Platform) (seed : string) (s : Engine) : Prop :=
  Forall (fun wi => sameHost P (wi_url wi) seed) (queue s) /\
  Forall (fun pd => sameHost P (pr_url pd) seed) (index s).

(** The URLs [crawlPage] has fetched so far are pairwise distinct and all
    in the visited set. *)
Definition fetchedOnce (s : Engine) : Prop :=
  NoDup (fetchesOf PageFetch (log s)) /\
  forall u, u ∈ fetchesOf PageFetch (log s) -> u ∈ visited s.

(** A step that page-fetches only URLs it newly marks as visited, each
    once. *)
Definition pageStep (s s' : Engine) : Prop :=
  visited s ⊆ visited s' /\
  exists new, fetchesOf PageFetch (log s') = fetchesOf PageFetch (log s) ++ new /\
              NoDup new /\
              forall u, u ∈ new -> (u ∉ visited s) /\ u ∈ visited s'.

(** Log entries of the robots gate: robots.txt requests only. *)
Definition robotsOnly (evs : list Event) : Prop :=
  Forall (fun e => exists u t, e = Fetch RobotsFetch u t) evs.

(** The gate passes logged so far are [requestDelay] apart and the last of
    them is the value of [lastRequestTime]. *)
Definition paced (cfg : Config) (s : Engine) : Prop :=
  spaced (requestDelay cfg) (dispatches (log s)) /\
  forall t, last (dispatches (log s)) = Some t -> lastRequestTime s = t.

(** A step that neither passes the gate nor touches its time stamp. *)
Definition ungated (s s' : Engine) : Prop :=
  lastRequestTime s' = lastRequestTime s /\ dispatches (log s') = dispatches (log s).

(** The engine after a request for [url], sent in state [s], has settled
    [ms] ms later with no stop pressed and no timer fired. *)
Definition answered (o : Origin) (url : string) (ms : N) (s : Engine) : Engine :=
  with_world (clock s + Z.max 0 0 + Z.of_N ms) (S (ticks s))
    (log s ++ [Fetch o url (clock s)]) s.

(** The outside world answers the next suspension after [ms] ms. *)
Definition replies (net : nat -> Reply) (s : Engine) (ms : N) (res : FetchResult) : Prop :=
  net (ticks s) = {| stopNow := false; elapsed := ms; settles := res |}.

(** The robots check of [crawlPage] does not stop [url] in state [s]. *)
Definition letsThrough (cfg : Config) (P : Platform) (net : nat -> Reply) (url : string)
  (s : Engine) : Prop :=
  exists allowed, fst (robotsGate cfg P net url s) = Ret allowed /\
                  respectRobots cfg && negb allowed = false.

(** The state in which [crawlPage], entered for the item of a loop pass
    that starts in [s], sends its page request. *)
Definition atPageFetch (cfg : Config) (P : Platform) (net : nat -> Reply) (url : string)
  (s : Engine) : Engine :=
  claim url (snd (robotsGate cfg P net url (gateOpen cfg net s))).

(** [m] relates every state to the state it leaves behind. *)
Definition preserves {A} (R : Engine -> Engine -> Prop) (m : M A) : Prop :=
  forall s, R s (snd (m s)).

(** What any method may do to the fields it does not own: the clock only
    moves forward, the visited set and the robots cache only grow. *)
Record frame (s s' : Engine) : Prop := {
  frame_clock : (clock s <= clock s')%Z;
  frame_visited : visited s ⊆ visited s';
  frame_cache : forall k b, robotsCache s !! k = Some b -> robotsCache s' !! k = Some b
}.

(** What everything that runs inside one rate-limiter slot leaves alone:
    the frontier, the results, the error list, the rate limiter and the
    gate passes already logged. *)
Record slot (s s' : Engine) : Prop := {
  slot_frame : frame s s';
  slot_queue : queue s' = queue s;
  slot_index : index s' = index s;
  slot_errors : errors s' = errors s;
  slot_last : lastRequestTime s' = lastRequestTime s;
  slot_busy : processingQueue s' = processingQueue s;
  slot_dispatches : dispatches (log s') = dispatches (log s)
}.

(** The methods other than the page fetch of [crawlPage] moreover leave
    the visited set and the logged page fetches alone. *)
Record inner (s s' : Engine) : Prop := {
  inner_slot : slot s s';
  inner_visited : visited s' = visited s;
  inner_pages : fetchesOf PageFetch (log s') = fetchesOf PageFetch (log s)
}.

(** Reduces field reads of updated engine states. *)
Ltac fields :=
  cbn [visited queue index errors robotsCache activeRequests stopFlag aborted
       startTime processed failed skipped lastRequestTime processingQueue
       clock ticks log
       with_visited with_queue with_index with_errors with_robotsCache
       with_activeRequests with_signals with_stats with_gate with_world
       stopCrawl abortController fst snd] in *.

(** Builds a [slot] or [inner] step from its fields. *)
Ltac step_fields := repeat (split; [try split; try split|..]); fields; auto; try lia.

(** A call that settles: it returns or throws. *)
Definition settled {A} (o : outcome A) : Prop :=
  match o with
  | Ret _ | Throw _ => True
  | Pending | OutOfFuel => False
  end.

(** ** Statistics and results *)

(** The object [getStats()] returns. *)
Record Stats := {
  st_crawled : nat;
  st_queued : nat;
  st_errors : nat;
  st_skipped : nat;
  st_elapsed : Z;
  st_activeRequests : Z;
  st_visited : nat
}.

(** [getStats()]: a [startTime] of [null] or [0] is falsy and gives an
    elapsed time of 0; [Math.floor] of the seconds otherwise. *)
Definition getStats (s : Engine) : Stats :=
  let elapsed :=
    match startTime s with
    | Some t => if (t =? 0)%Z then 0%Z else (clock s - t)%Z
    | None => 0%Z
    end in
  {| st_crawled := length (index s);
     st_queued := length (queue s);
     st_errors := failed s;
     st_skipped := skipped s;
     st_elapsed := (elapsed / 1000)%Z;
     st_activeRequests := activeRequests s;
     st_visited := size (visited s) |}.

(** The object [getResults()] returns. *)
Record Results := {
  res_pages : list PageRecord;
  res_errors : list CrawlError;
  res_stats : Stats
}.

Definition getResults (s : Engine) : Results :=
  {| res_pages := index s; res_errors := errors s; res_stats := getStats s |}.

(** ** Further vocabulary *)

(** A step that leaves the counters of [this.stats] for pages and failures,
    the count of active requests and the start time as they were. *)
Definition tally (s s' : Engine) : Prop :=
  processed s' = processed s /\ failed s' = failed s /\
  activeRequests s' = activeRequests s /\ startTime s' = startTime s.

(** A step that only appends log entries of the kind [ok]. *)
Definition logged (ok : Event -> Prop) (s s' : Engine) : Prop :=
  exists new, log s' = log s ++ new /\ Forall ok new.

(** Log entries other than robots.txt requests. *)
Definition notRobots (e : Event) : Prop :=
  match e with
  | Fetch RobotsFetch _ _ => False
  | _ => True
  end.

(** Log entries whose page and link requests, if any, go to the host of
    [seed]. *)
Definition onHost (P : Platform) (seed : string) (e : Event) : Prop :=
  match e with
  | Fetch PageFetch u _ | Fetch LinkFetch u _ => sameHost P u seed
  | _ => True
  end.

(** Log entries other than link requests. *)
Definition notLinks (e : Event) : Prop :=
  match e with
  | Fetch LinkFetch _ _ => False
  | _ => True
  end.

(** A step that, once the controller is aborted, keeps it aborted and
    sends nothing. *)
Definition silent (s s' : Engine) : Prop :=
  aborted s = true -> aborted s' = true /\ fetchTimes (log s') = fetchTimes (log s).

(** No queued item and no page record lies deeper than [maxDepth]. *)
Definition withinDepth (cfg : Config) (s : Engine) : Prop :=
  Forall (fun wi => wi_depth wi <= maxDepth cfg) (queue s) /\
  Forall (fun pd => pr_depth pd <= maxDepth cfg) (index s).

(** The URLs that ended in a page record or in an error entry. *)
Definition settledUrls (s : Engine) : list string :=
  map pr_url (index s) ++ map ce_url (errors s).

(** Each URL has ended at most once, as a page or as an error, and every
    such URL is marked as visited. *)
Definition settledOnce (s : Engine) : Prop :=
  NoDup (settledUrls s) /\ forall u, u ∈ settledUrls s -> u ∈ visited s.

(** The page records are in the order they were made, between the start
    [t0] of the crawl and now, and each [loadTime] is the time since the
    start. *)
Definition chronological (t0 : Z) (s : Engine) : Prop :=
  startTime s = Some t0 /\ (t0 <= clock s)%Z /\
  spaced 0 (map pr_crawledAt (index s)) /\
  Forall (fun pd => (t0 <= pr_crawledAt pd <= clock s)%Z /\
                    pr_loadTime pd = (pr_crawledAt pd - t0)%Z) (index s).

(** The counters agree with the lists they count. *)
Definition counted (s : Engine) : Prop :=
  processed s = length (index s) /\ failed s = length (errors s).

(** Every page whose links were requested has a page record, and was asked
    for its links once. *)
Definition linksOfRecorded (s : Engine) : Prop :=
  NoDup (fetchesOf LinkFetch (log s)) /\
  forall u, u ∈ fetchesOf LinkFetch (log s) -> u ∈ map pr_url (index s).


(** A step that keeps the frontier, the results, the counters and the
    visited set, and sends no link request. *)
Record neutral (s s' : Engine) : Prop := {
  neutral_clock : (clock s <= clock s')%Z;
  neutral_visited : visited s' = visited s;
  neutral_queue : queue s' = queue s;
  neutral_index : index s' = index s;
  neutral_errors : errors s' = errors s;
  neutral_tally : tally s s';
  neutral_links : fetchesOf LinkFetch (log s') = fetchesOf LinkFetch (log s)
}.

(** The three ways a pass of the worker loop for [item] can end: nothing
    is recorded; a page record is appended, after which the links of the
    page may have been requested and queued; an error entry is appended. *)
Definition quietPass (s s' : Engine) : Prop :=
  index s' = index s /\ errors s' = errors s /\
  processed s' = processed s /\ failed s' = failed s /\
  queue s' = queue s /\
  fetchesOf LinkFetch (log s') = fetchesOf LinkFetch (log s).

Definition pagePass (cfg : Config) (item : WorkItem) (s s' : Engine) : Prop :=
  (wi_url item ∉ visited s) /\ wi_url item ∈ visited s' /\
  errors s' = errors s /\ failed s' = failed s /\ processed s' = S (processed s) /\
  (exists pd,
      index s' = index s ++ [pd] /\
      pr_url pd = wi_url item /\ pr_depth pd = wi_depth item /\
      pr_referrer pd = wi_referrer item /\
      (clock s <= pr_crawledAt pd <= clock s')%Z /\
      pr_loadTime pd = (pr_crawledAt pd - default 0 (startTime s))%Z) /\
  ((queue s' = queue s /\
    fetchesOf LinkFetch (log s') = fetchesOf LinkFetch (log s)) \/
   (wi_depth item < maxDepth cfg /\
    fetchesOf LinkFetch (log s') = fetchesOf LinkFetch (log s) ++ [wi_url item] /\
    exists links,
      queue s' = queue s ++ links /\
      Forall (fun l => wi_depth l = wi_depth item + 1) links)).

Definition errorPass (item : WorkItem) (s s' : Engine) : Prop :=
  (wi_url item ∉ visited s) /\ wi_url item ∈ visited s' /\
  index s' = index s /\ processed s' = processed s /\ failed s' = S (failed s) /\
  queue s' = queue s /\
  fetchesOf LinkFetch (log s') = fetchesOf LinkFetch (log s) /\
  exists ce,
    errors s' = errors s ++ [ce] /\ ce_url ce = wi_url item /\
    (clock s <= ce_timestamp ce <= clock s')%Z.

Record pass (cfg : Config) (item : WorkItem) (s s' : Engine) : Prop := {
  pass_clock : (clock s <= clock s')%Z;
  pass_visited : visited s ⊆ visited s';
  pass_active : activeRequests s' = activeRequests s;
  pass_start : startTime s' = startTime s;
  pass_outcome : quietPass s s' \/ pagePass cfg item s s' \/ errorPass item s s'
}.

(** A step that sends no more link requests than page requests, and no
    more page requests than it passes the rate limiter. *)
Definition metered (s s' : Engine) : Prop :=
  exists passes pages links,
    dispatches (log s') = dispatches (log s) ++ passes /\
    fetchesOf PageFetch (log s') = fetchesOf PageFetch (log s) ++ pages /\
    fetchesOf LinkFetch (log s') = fetchesOf LinkFetch (log s) ++ links /\
    length links <= length pages /\ length pages <= length passes.

(** The engine when [crawlPage] has returned the record of the home page,
    at the start of a crawl of the healthy site without robots.txt. *)
Definition homeFetched : Engine :=
  snd (crawlPage (Demo.withoutRobots Demo.defaults) Demo.platform Demo.healthy 3
         Demo.seed 0 None 0 (newEngine Demo.t0)).

(** The two links of the home page that stay on the site. *)
Definition homeLinks : list WorkItem :=
  [ {| wi_url := "https://site.test/a"; wi_depth := 1;
       wi_referrer := Some Demo.seed; wi_anchorText := Some "A" |};
    {| wi_url := "https://site.test/b"; wi_depth := 1;
       wi_referrer := Some Demo.seed; wi_anchorText := Some "B" |} ].

(** A site whose robots.txt closes [/admin] and opens [/public] to every
    crawler. *)
Definition guardedRobots : Response :=
  {| r_status := 200; r_statusText := "OK"; r_contentType := Some "text/plain";
     r_body := Robots.exampleRobots |}.

Definition guardedSite : nat -> Reply := fun _ => Demo.after 5 (Responds guardedRobots).

(** A line of robots.txt that opens a group addressed to the crawler. *)
Definition namesCrawler (userAgent line : string) : bool :=
  JsString.startsWith (JsString.toLowerCase line) "user-agent:" &&
  (String.eqb (JsString.trim (JsString.substring 11 line)) "*" ||
   JsString.includes userAgent (JsString.trim (JsString.substring 11 line))).

(** * ExportManager: escaping

    [escapeCsvField] and [escapeXml] on strings; both return any other
    value as it is. *)
Module ExportManager.

(** The double quote. *)
Definition dquote : ascii := Ascii.ascii_of_nat 34.

(** [s.replace(/c/g, repl)] for a one-character pattern and a replacement
    text without [$] patterns. *)
Fixpoint replaceAll (c : ascii) (repl : string) (s : string) : string :=
  match s with
  | EmptyString => EmptyString
  | String a r =>
      if Ascii.eqb a c then (repl ++ replaceAll c repl r)%string
      else String a (replaceAll c repl r)
  end.

Definition escapeCsvField (field : string) : string :=
  String dquote
    (replaceAll dquote (String dquote (String dquote EmptyString)) field
     ++ String dquote EmptyString)%string.

Definition escapeXml (text : string) : string :=
  replaceAll "'" "&#39;"
    (replaceAll dquote "&quot;"
       (replaceAll ">" "&gt;"
          (replaceAll "<" "&lt;"
             (replaceAll "&" "&amp;" text)))).

(** The entity that stands for a character in XML text, or the character
    itself. *)
Definition xmlEntity (c : ascii) : string :=
  if Ascii.eqb c "&" then "&amp;"
  else if Ascii.eqb c "<" then "&lt;"
  else if Ascii.eqb c ">" then "&gt;"
  else if Ascii.eqb c dquote then "&quot;"
  else if Ascii.eqb c "'" then "&#39;"
  else String c EmptyString.

(** Number of occurrences of a character. *)
Fixpoint countChar (c : ascii) (s : string) : nat :=
  match s with
  | EmptyString => 0
  | String a r => (if Ascii.eqb a c then 1 else 0) + countChar c r
  end.

End ExportManager.

(** * Numbers and arrays of the other modules *)

(** What [parseInt] returns: an integer or [NaN]. *)
Inductive JsInt :=
| NaN
| Int (n : Z).

(** [isNaN(v) || v < lo || v > hi]. *)
Definition outside (lo hi : Z) (v : JsInt) : bool :=
  match v with
  | NaN => true
  | Int n => (n <? lo)%Z || (hi <? n)%Z
  end.

Module JsArray.

(** The index an argument of [slice] stands for in an array of [len]
    elements: negative arguments count from the end. *)
Definition relIndex (k : Z) (len : nat) : nat :=
  if (k <? 0)%Z then Z.to_nat (Z.max (Z.of_nat len + k) 0)
  else Nat.min (Z.to_nat k) len.

(** [l.slice(start)] and [l.slice(start, stop)]. *)
Definition sliceFrom {A} (start : Z) (l : list A) : list A :=
  drop (relIndex start (length l)) l.

Definition slice {A} (start stop : Z) (l : list A) : list A :=
  take (relIndex stop (length l) - relIndex start (length l))
       (drop (relIndex start (length l)) l).

End JsArray.

(** * UIController: input validation and the start button *)
Module UIController.

(** What [validateInputs] returns, with the status line it leaves when it
    returns [false]. *)
Inductive Verdict :=
| Accepted
| Refused (message : string).

Definition validateInputs (P : Platform) (startUrl : string) (depth maxPages : JsInt)
  : Verdict :=
  if negb (JsString.truthy startUrl) then Refused "Please enter a start URL"
  else if negb (isValidUrl P startUrl)
  then Refused "Please enter a valid URL (e.g., https://example.com)"
  else if outside 1 10 depth then Refused "Depth must be between 1 and 10"
  else if outside 1 1000 maxPages then Refused "Max pages must be between 1 and 1000"
  else Accepted.

(** How a click on the start button ends: nothing is started, the crawl
    runs to its end, the [catch] block reports a failure, or the call
    never settles. *)
Inductive Clicked :=
| NotStarted (message : string)
| Finished (s : Engine)
| Failed (status : string) (s : Engine)
| Unsettled (s : Engine).

(** [startCrawl()] of the controller; [urlField] is the text of the URL
    field, [depth] and [maxPages] are what [parseInt] makes of the two
    number fields.  The callbacks handed to the engine update the page and
    the search index; as in the embedding of the engine they are taken to
    return. *)
Definition startCrawl (cfg : Config) (P : Platform) (net : nat -> Reply) (fuel : nat)
  (urlField : string) (depth maxPages : JsInt) (s : Engine) : Clicked :=
  let startUrl := JsString.trim urlField in
  match validateInputs P startUrl depth maxPages with
  | Refused message => NotStarted message
  | Accepted =>
      match startCrawl cfg P net fuel startUrl s with
      | (Ret _, s') => Finished s'
      | (Throw error, s') => Failed ("Crawl failed: " ++ err_message error)%string s'
      | (_, s') => Unsettled s'
      end
  end.

(** The first [n] characters of a string. *)
Fixpoint prefix (n : nat) (s : string) : string :=
  match n, s with
  | S k, String c r => String c (prefix k r)
  | _, _ => EmptyString
  end.

(** [truncateUrl(url, maxLength)]; [substring(0, maxLength)] takes a
    negative length as 0. *)
Definition truncateUrl (url : string) (maxLength : Z) : string :=
  if (maxLength <? Z.of_nat (String.length url))%Z
  then (prefix (Z.to_nat maxLength) url ++ "...")%string
  else url.

End UIController.

(** * Logger *)
Module Logger.

Record LogEntry := {
  le_timestamp : Z;
  le_level : string;
  le_message : string;
  le_data : option string
}.

(** The fields of a logger. *)
Record Logger := {
  level : string;
  logs : list LogEntry;
  maxLogs : Z
}.

(** [new Logger(level)]. *)
Definition create (level : string) : Logger :=
  {| level := level; logs := []; maxLogs := 1000 |}.

(** [this.levels[name]]: [None] is [undefined]. *)
Definition levels (name : string) : option nat :=
  if String.eqb name "DEBUG" then Some 0
  else if String.eqb name "INFO" then Some 1
  else if String.eqb name "WARN" then Some 2
  else if String.eqb name "ERROR" then Some 3
  else None.

(** [a < b] on numbers that may be [undefined]: false when either is. *)
Definition lessThan (a b : option nat) : bool :=
  match a, b with
  | Some x, Some y => (x <? y)%nat
  | _, _ => false
  end.

(** [log(level, message, data)] at time [now]; the console output is left
    out. *)
Definition log (now : Z) (lv message : string) (data : option string) (st : Logger) : Logger :=
  if lessThan (levels lv) (levels (level st)) then st
  else
    let pushed := logs st ++ [{| le_timestamp := now; le_level := lv;
                                 le_message := message; le_data := data |}] in
    {| level := level st;
       logs := if (maxLogs st <? Z.of_nat (length pushed))%Z
               then JsArray.sliceFrom (- maxLogs st) pushed
               else pushed;
       maxLogs := maxLogs st |}.

(** A call of [log]: its time and its arguments. *)
Record Call := {
  c_now : Z;
  c_level : string;
  c_message : string;
  c_data : option string
}.

Definition logAll (calls : list Call) (st : Logger) : Logger :=
  fold_left (fun st c => log (c_now c) (c_level c) (c_message c) (c_data c) st) calls st.

(** [getLogs(level, limit)]: [None], like the empty string, is a falsy
    [level]. *)
Definition getLogs (lv : option string) (limit : Z) (st : Logger) : list LogEntry :=
  let filteredLogs :=
    match lv with
    | Some l =>
        if JsString.truthy l
        then List.filter (fun entry => String.eqb (le_level entry) l) (logs st)
        else logs st
    | None => logs st
    end in
  JsArray.sliceFrom (- limit) filteredLogs.

End Logger.

(** * ConfigManager: validation *)
Module ConfigManager.

(** [Math.max(a, v)] and [Math.min(a, v)] for a number [a]: [NaN] stays
    [NaN]. *)
Definition jsMax (a : Z) (v : JsInt) : JsInt :=
  match v with
  | NaN => NaN
  | Int n => Int (Z.max a n)
  end.

Definition jsMin (a : Z) (v : JsInt) : JsInt :=
  match v with
  | NaN => NaN
  | Int n => Int (Z.min a n)
  end.

(** The object [validateConfig] builds: a field is [None] when it is not
    set. *)
Record Validated := {
  out_maxConcurrency : option JsInt;
  out_requestDelay : option JsInt;
  out_timeout : option JsInt;
  out_maxRetries : option JsInt;
  out_maxPages : option JsInt;
  out_maxDepth : option JsInt;
  out_respectRobots : option bool;
  out_followRedirects : option bool;
  out_userAgent : option string
}.

Section Validate.

(** The values of the object handed to [validateConfig], whatever
    [JSON.parse] or a caller put there, and the conversions applied to
    them: [parseInt(v)], [Boolean(v)], and the string [v] is when
    [typeof v === 'string']. *)
Variable Value : Type.
Variable parseInt : Value -> JsInt.
Variable toBoolean : Value -> bool.
Variable asString : Value -> option string.

(** The fields [validateConfig] reads; [None] is [undefined]. *)
Record Updates := {
  in_maxConcurrency : option Value;
  in_requestDelay : option Value;
  in_timeout : option Value;
  in_maxRetries : option Value;
  in_maxPages : option Value;
  in_maxDepth : option Value;
  in_respectRobots : option Value;
  in_followRedirects : option Value;
  in_userAgent : option Value
}.

Definition validateConfig (config : Updates) : Validated :=
  {| out_maxConcurrency :=
       option_map (fun v => jsMax 1 (jsMin 10 (parseInt v))) (in_maxConcurrency config);
     out_requestDelay :=
       option_map (fun v => jsMax 100 (parseInt v)) (in_requestDelay config);
     out_timeout :=
       option_map (fun v => jsMax 1000 (jsMin 60000 (parseInt v))) (in_timeout config);
     out_maxRetries :=
       option_map (fun v => jsMax 0 (jsMin 5 (parseInt v))) (in_maxRetries config);
     out_maxPages :=
       option_map (fun v => jsMax 1 (jsMin 1000 (parseInt v))) (in_maxPages config);
     out_maxDepth :=
       option_map (fun v => jsMax 1 (jsMin 10 (parseInt v))) (in_maxDepth config);
     out_respectRobots := option_map toBoolean (in_respectRobots config);
     out_followRedirects := option_map toBoolean (in_followRedirects config);
     out_userAgent :=
       match in_userAgent config with
       | Some v => option_map JsString.trim (asString v)
       | None => None
       end |}.

End Validate.

(** A field that is not set, is [NaN], or lies between [lo] and [hi]. *)
Definition within (lo hi : Z) (field : option JsInt) : Prop :=
  match field with
  | Some (Int n) => (lo <= n <= hi)%Z
  | _ => True
  end.

Definition atLeast (lo : Z) (field : option JsInt) : Prop :=
  match field with
  | Some (Int n) => (lo <= n)%Z
  | _ => True
  end.

(** A field given a value that [parseInt] does not read as a number is
    set to [NaN]. *)
Definition nanKept {Value} (parseInt : Value -> JsInt) (given : option Value)
  (field : option JsInt) : Prop :=
  forall v, given = Some v -> parseInt v = NaN -> field = Some NaN.

End ConfigManager.

(** * SearchEngine: filters, suggestions and the inverted index *)
Module SearchEngine.

(** The [filters] object: [None] is a field that is not set. *)
Record Filters := {
  f_minWordCount : option Z;
  f_maxDepth : option Z;
  f_hasImages : bool;
  f_dateRange : option (Z * Z)
}.

Definition filterResults (results : list PageRecord) (filters : Filters) : list PageRecord :=
  let filtered := results in
  let filtered :=
    match f_minWordCount filters with
    | Some n =>
        if (n =? 0)%Z then filtered
        else List.filter (fun page => (n <=? Z.of_nat (pm_wordCount (pr_meta page)))%Z) filtered
    | None => filtered
    end in
  let filtered :=
    match f_maxDepth filters with
    | Some d => List.filter (fun page => (Z.of_nat (pr_depth page) <=? d)%Z) filtered
    | None => filtered
    end in
  let filtered :=
    if f_hasImages filters
    then List.filter (fun page => (0 <? pm_imageCount (pr_meta page))%nat) filtered
    else filtered in
  match f_dateRange filters with
  | Some (start, stop) =>
      List.filter (fun page => (start <=? pr_crawledAt page)%Z && (pr_crawledAt page <=? stop)%Z)
        filtered
  | None => filtered
  end.

(** A page that passes every filter that is set. *)
Definition meets (filters : Filters) (page : PageRecord) : bool :=
  match f_minWordCount filters with
  | Some n => (n =? 0)%Z || (n <=? Z.of_nat (pm_wordCount (pr_meta page)))%Z
  | None => true
  end &&
  match f_maxDepth filters with
  | Some d => (Z.of_nat (pr_depth page) <=? d)%Z
  | None => true
  end &&
  (negb (f_hasImages filters) || (0 <? pm_imageCount (pr_meta page))%nat) &&
  match f_dateRange filters with
  | Some (start, stop) => (start <=? pr_crawledAt page)%Z && (pr_crawledAt page <=? stop)%Z
  | None => true
  end.

(** Only a depth limit. *)
Definition upToDepth (d : nat) : Filters :=
  {| f_minWordCount := None; f_maxDepth := Some (Z.of_nat d);
     f_hasImages := false; f_dateRange := None |}.

(** [\w]: a letter, a digit or the underscore. *)
Definition isWordChar (c : ascii) : bool :=
  let n := Ascii.nat_of_ascii c in
  ((48 <=? n)%nat && (n <=? 57)%nat) || ((65 <=? n)%nat && (n <=? 90)%nat)
  || ((97 <=? n)%nat && (n <=? 122)%nat) || (n =? 95)%nat.

Definition startsWord (s : string) : bool :=
  match s with
  | String c _ => isWordChar c
  | EmptyString => false
  end.

(** [text.match(/\b\w+\b/g) || []]: the maximal runs of word characters,
    from left to right. *)
Fixpoint wordsOf (text : string) : list string :=
  match text with
  | EmptyString => []
  | String c r =>
      if isWordChar c then
        if startsWord r then
          match wordsOf r with
          | w :: ws => String c w :: ws
          | [] => [String c EmptyString]
          end
        else String c EmptyString :: wordsOf r
      else wordsOf r
  end.

(** [set.add(x)] on a [Set] kept as the list of its elements in insertion
    order. *)
Definition setAdd (x : string) (elements : list string) : list string :=
  if existsb (String.eqb x) elements then elements else elements ++ [x].

(** The text of a page that suggestions are drawn from. *)
Definition titleAndKeywords (page : PageRecord) : string :=
  JsString.toLowerCase
    (pm_title (pr_meta page) ++ " " ++ pm_keywords (pr_meta page))%string.

(** The body of [this.index.forEach] in [getSuggestions]. *)
Definition suggestFrom (queryLower : string) (suggestions : list string) (page : PageRecord)
  : list string :=
  fold_left
    (fun suggestions word =>
       if JsString.startsWith word queryLower && negb (String.eqb word queryLower)
       then setAdd word suggestions
       else suggestions)
    (wordsOf (titleAndKeywords page)) suggestions.

Definition getSuggestions (index : list PageRecord) (query : string) (limit : Z)
  : list string :=
  if negb (JsString.truthy (JsString.trim query)) || (String.length query <? 2)%nat then []
  else JsArray.slice 0 limit (fold_left (suggestFrom (JsString.toLowerCase query)) index []).

(** Every character of the string is a word character. *)
Fixpoint allWordChars (s : string) : bool :=
  match s with
  | EmptyString => true
  | String c r => isWordChar c && allWordChars r
  end.

(** The text of a page that is indexed. *)
Definition indexedText (page : PageRecord) : string :=
  JsString.toLowerCase
    (pm_title (pr_meta page) ++ " " ++ pm_description (pr_meta page) ++ " "
     ++ pm_keywords (pr_meta page))%string.

(** The body of [words.forEach] in [buildSearchIndex]. *)
Definition addWord (pageIndex : nat) (invertedIndex : gmap string (gset nat)) (word : string)
  : gmap string (gset nat) :=
  if (2 <? String.length word)%nat
  then <[word := {[pageIndex]} ∪ default ∅ (invertedIndex !! word)]> invertedIndex
  else invertedIndex.

Definition addPage (invertedIndex : gmap string (gset nat)) (entry : nat * PageRecord)
  : gmap string (gset nat) :=
  fold_left (addWord (fst entry)) (wordsOf (indexedText (snd entry))) invertedIndex.

(** [buildSearchIndex()] for [this.index = pages]. *)
Definition buildSearchIndex (pages : list PageRecord) : gmap string (gset nat) :=
  fold_left addPage (zip (seq 0 (length pages)) pages) ∅.

End SearchEngine.
(** * Properties *)

(** ** robots.txt *)
Section RobotsFacts.
Import Robots JsString.

Variable ua pathname : string.

Lemma last_cons_verdict (x : rule) (l : list rule) (d : bool) :
  match last (x :: l) with Some r => fst r | None => d end =
  match last l with Some r => fst r | None => fst x end.
Proof.
  revert x d. induction l as [|y l IH]; intros x d; [reflexivity|].
  change (last (x :: y :: l)) with (last (y :: l)).
  rewrite (IH y d). symmetry. apply (IH y (fst x)).
Qed.

Lemma blockRule_step (verdict : bool) (prefix : string) (rest : list rule) (st : scan) :
  match last (List.filter (ruleMatches pathname) rest) with
  | Some r => fst r
  | None =>
      allowed (if truthy prefix && startsWith pathname prefix
               then {| userAgentMatch := userAgentMatch st; allowed := verdict |}
               else st)
  end =
  match last (List.filter (ruleMatches pathname) ((verdict, prefix) :: rest)) with
  | Some r => fst r
  | None => allowed st
  end.
Proof.
  cbn [List.filter]. unfold ruleMatches at 2. cbn [snd].
  destruct (truthy prefix && startsWith pathname prefix); [|reflexivity].
  rewrite last_cons_verdict. reflexivity.
Qed.

Lemma scanLine_fold (lines : list string) (st : scan) :
  allowed (fold_left (scanLine ua pathname) lines st) =
  match last (List.filter (ruleMatches pathname)
                (blockRules ua (userAgentMatch st) lines)) with
  | Some r => fst r
  | None => allowed st
  end.
Proof.
  revert st. induction lines as [|line rest IH]; intros st; [reflexivity|].
  cbn [fold_left blockRules]. rewrite IH. unfold scanLine.
  destruct (startsWith (toLowerCase line) "user-agent:"); [reflexivity|].
  destruct st as [m a]. cbn [userAgentMatch allowed]. destruct m; cbn [andb app].
  - destruct (startsWith (toLowerCase line) "disallow:").
    { rewrite <- (blockRule_step _ _ _ {| userAgentMatch := true; allowed := a |}).
      destruct (_ && _); reflexivity. }
    destruct (startsWith (toLowerCase line) "allow:"); [|reflexivity].
    rewrite <- (blockRule_step _ _ _ {| userAgentMatch := true; allowed := a |}).
    destruct (_ && _); reflexivity.
  - destruct (startsWith (toLowerCase line) "disallow:"); [reflexivity|].
    destruct (startsWith (toLowerCase line) "allow:"); reflexivity.
Qed.

End RobotsFacts.

(** C7.  For the body [User-agent: * / Disallow: /admin / Allow: /public]
    the decision function denies [/admin/x], allows [/public/x] and allows
    [/other]; in general the decision of [parseRobotsTxt] is that of the
    last rule, among those in a block addressed to the crawler, whose
    prefix matches the path (allow when none matches), and this differs from
    longest-prefix evaluation. *)
Theorem C7_robots_last_match_wins :
  (forall ua,
      Robots.parseRobotsTxt ua Robots.exampleRobots "/admin/x" = false /\
      Robots.parseRobotsTxt ua Robots.exampleRobots "/public/x" = true /\
      Robots.parseRobotsTxt ua Robots.exampleRobots "/other" = true) /\
  (forall ua robotsText pathname,
      Robots.parseRobotsTxt ua robotsText pathname =
      Robots.lastMatchWins
        (Robots.blockRules ua false (Robots.robotsLines robotsText)) pathname) /\
  (forall ua,
      Robots.parseRobotsTxt ua Robots.overlapRobots "/docs/public/a" = false /\
      Robots.longestPrefixWins
        (Robots.blockRules ua false (Robots.robotsLines Robots.overlapRobots))
        "/docs/public/a" = true).
Proof.
  split; [|split].
  - intros ua. repeat split; reflexivity.
  - intros ua robotsText pathname. unfold Robots.parseRobotsTxt, Robots.lastMatchWins.
    rewrite scanLine_fold. reflexivity.
  - intros ua. split; reflexivity.
Qed.

(** ** Reasoning about engine computations *)

Section Preserves.
Context (R : Engine -> Engine -> Prop) `{!PreOrder R}.

Lemma preserves_ret {A} (a : A) : preserves R (ret a).
Proof. intros s. reflexivity. Qed.

Lemma preserves_throw {A} (e : JsError) : preserves R (@throw A e).
Proof. intros s. reflexivity. Qed.

Lemma preserves_gets {A} (f : Engine -> A) : preserves R (gets f).
Proof. intros s. reflexivity. Qed.

Lemma preserves_modify (f : Engine -> Engine) :
  (forall s, R s (f s)) -> preserves R (modify f).
Proof. intros H s. apply H. Qed.

Lemma preserves_bind {A B} (m : M A) (k : A -> M B) :
  preserves R m -> (forall a, preserves R (k a)) -> preserves R (bind m k).
Proof.
  intros Hm Hk s. unfold bind. specialize (Hm s).
  destruct (m s) as [[a|e| |] s1]; cbn [snd] in *; try assumption.
  transitivity s1; [assumption|apply Hk].
Qed.

Lemma preserves_tryCatch {A} (m : M A) (h : JsError -> M A) :
  preserves R m -> (forall e, preserves R (h e)) -> preserves R (tryCatch m h).
Proof.
  intros Hm Hh s. unfold tryCatch. specialize (Hm s).
  destruct (m s) as [[a|e| |] s1]; cbn [snd] in *; try assumption.
  transitivity s1; [assumption|apply Hh].
Qed.

Lemma preserves_finally {A} (m : M A) (f : Engine -> Engine) :
  preserves R m -> (forall s, R s (f s)) -> preserves R (finally m f).
Proof.
  intros Hm Hf s. unfold finally. specialize (Hm s).
  destruct (m s) as [[a|e| |] s1]; cbn [snd] in *; try assumption;
    (transitivity s1; [assumption|apply Hf]).
Qed.

End Preserves.

#[local] Instance frame_preorder : PreOrder frame.
Proof.
  split.
  - intros s. split; [lia|set_solver|auto].
  - intros a b c [] []. split; [lia|set_solver|auto].
Qed.

#[local] Instance slot_preorder : PreOrder slot.
Proof.
  split.
  - intros s. split; reflexivity.
  - intros a b c [] []. split; try congruence. etransitivity; eassumption.
Qed.

#[local] Instance inner_preorder : PreOrder inner.
Proof.
  split.
  - intros s. split; reflexivity.
  - intros a b c [] []. split; try congruence. etransitivity; eassumption.
Qed.

#[local] Instance pageStep_preorder : PreOrder pageStep.
Proof.
  split.
  - intros s. split; [reflexivity|]. exists []. rewrite app_nil_r.
    split; [reflexivity|]. split; [constructor|]. intros u Hu. inversion Hu.
  - intros a b c [Hab (n1 & H1 & Hd1 & Hn1)] [Hbc (n2 & H2 & Hd2 & Hn2)].
    split; [etransitivity; eassumption|]. exists (n1 ++ n2). rewrite H2, H1, app_assoc.
    split; [reflexivity|]. split.
    + apply NoDup_app. split; [assumption|]. split; [|assumption].
      intros u Hu1 Hu2. pose proof (Hn1 u Hu1) as [_ Hin]. pose proof (Hn2 u Hu2) as [Hnot _].
      contradiction.
    + intros u Hu. apply elem_of_app in Hu as [Hu|Hu].
      * pose proof (Hn1 u Hu) as [Hnot Hin]. split; [assumption|apply Hbc, Hin].
      * pose proof (Hn2 u Hu) as [Hnot Hin]. split; [|assumption].
        intros Hua. apply Hnot, Hab, Hua.
Qed.

Lemma pageStep_same s s' :
  visited s ⊆ visited s' ->
  fetchesOf PageFetch (log s') = fetchesOf PageFetch (log s) ->
  pageStep s s'.
Proof.
  intros Hv Hp. split; [assumption|]. exists []. rewrite app_nil_r.
  split; [assumption|]. split; [constructor|]. intros u Hu. inversion Hu.
Qed.

Lemma inner_pageStep s s' : inner s s' -> pageStep s s'.
Proof. intros [_ Hv Hp]. apply pageStep_same; [rewrite Hv; reflexivity|assumption]. Qed.

Lemma fetchedOnce_step s s' : pageStep s s' -> fetchedOnce s -> fetchedOnce s'.
Proof.
  intros [Hv (new & Hp & Hd & Hn)] [Hnd Hin]. split.
  - rewrite Hp. apply NoDup_app. split; [assumption|]. split; [|assumption].
    intros u Hu Hu'. pose proof (Hn u Hu') as [Hnot _]. apply Hnot, Hin, Hu.
  - intros u. rewrite Hp. intros Hu. apply elem_of_app in Hu as [Hu|Hu].
    + apply Hv, Hin, Hu.
    + apply (Hn u Hu).
Qed.

#[local] Instance ungated_preorder : PreOrder ungated.
Proof.
  split.
  - intros s. split; reflexivity.
  - intros a b c [] []. split; congruence.
Qed.

Lemma slot_ungated s s' : slot s s' -> ungated s s'.
Proof. intros []. split; assumption. Qed.

Lemma paced_ungated cfg s s' : ungated s s' -> paced cfg s -> paced cfg s'.
Proof. intros [Hl Hd] [Hs Ht]. unfold paced. rewrite Hl, Hd. split; assumption. Qed.

Lemma spaced_snoc d l c :
  spaced d l -> (forall t, last l = Some t -> (t + d <= c)%Z) -> spaced d (l ++ [c]).
Proof.
  induction l as [|t1 l IH]; intros Hs Hl; [exact I|].
  destruct l as [|t2 l].
  - cbn. split; [apply Hl; reflexivity|exact I].
  - destruct Hs as [H12 Hs]. split; [assumption|].
    apply IH; [assumption|]. intros t Ht. apply Hl. exact Ht.
Qed.

Section EngineFacts.

Variable cfg : Config.
Variable P : Platform.
Variable net : nat -> Reply.

Lemma fetchesOf_app o l1 l2 : fetchesOf o (l1 ++ l2) = (fetchesOf o l1 ++ fetchesOf o l2)%list.
Proof. apply omap_app. Qed.

Lemma dispatches_app l1 l2 : dispatches (l1 ++ l2) = (dispatches l1 ++ dispatches l2)%list.
Proof. apply omap_app. Qed.

(** *** Suspensions and fetches *)

Lemma yield_inner ms s : inner s (snd (yield net ms s)).
Proof.
  unfold yield. cbn [snd].
  destruct (stopNow (net (ticks s))); step_fields.
Qed.

Lemma delay_inner ms : preserves inner (delay net ms).
Proof. intros s. apply yield_inner. Qed.

Lemma inner_is_slot s s' : inner s s' -> slot s s'.
Proof. intros []. assumption. Qed.

Lemma slot_is_frame s s' : slot s s' -> frame s s'.
Proof. intros []. assumption. Qed.

Lemma inner_weaken {A} (m : M A) : preserves inner m -> preserves slot m.
Proof. intros H s. apply inner_is_slot, H. Qed.

Lemma slot_weaken {A} (m : M A) : preserves slot m -> preserves frame m.
Proof. intros H s. apply slot_is_frame, H. Qed.

Lemma logged_slot s ev :
  dispatches [ev] = [] ->
  slot s (with_world (clock s) (ticks s) (log s ++ [ev]) s).
Proof.
  intros H. step_fields. rewrite dispatches_app, H. apply app_nil_r.
Qed.

Lemma abortController_slot s : slot s (abortController s).
Proof. step_fields. Qed.

Lemma abortController_inner s : inner s (abortController s).
Proof. step_fields. Qed.

Lemma jsFetch_slot o url timer : preserves slot (jsFetch net o url timer).
Proof.
  intros s. unfold jsFetch.
  destruct (aborted s); [reflexivity|].
  set (s0 := with_world _ _ _ s).
  assert (H1 : slot s (snd (yield net 0 s0))).
  { transitivity s0; [apply logged_slot; reflexivity|apply inner_is_slot, yield_inner]. }
  destruct (stopNow _); [exact H1|].
  destruct (match timer with Some _ => _ | None => _ end).
  { cbn [snd]. etransitivity; [exact H1|apply abortController_slot]. }
  destruct (settles _); exact H1.
Qed.

Lemma jsFetch_inner o url timer :
  o <> PageFetch -> preserves inner (jsFetch net o url timer).
Proof.
  intros Ho s. unfold jsFetch.
  destruct (aborted s); [reflexivity|].
  set (s0 := with_world _ _ _ s).
  assert (H0 : inner s s0).
  { subst s0. split; [apply logged_slot; reflexivity|reflexivity|]. fields.
    rewrite fetchesOf_app. cbn. destruct o; try congruence; apply app_nil_r. }
  assert (H1 : inner s (snd (yield net 0 s0))).
  { transitivity s0; [assumption|apply yield_inner]. }
  destruct (stopNow _); [exact H1|].
  destruct (match timer with Some _ => _ | None => _ end).
  { cbn [snd]. etransitivity; [exact H1|apply abortController_inner]. }
  destruct (settles _); exact H1.
Qed.

Lemma jsFetch_cache o url timer s :
  robotsCache (snd (jsFetch net o url timer s)) = robotsCache s.
Proof.
  unfold jsFetch, yield. destruct (aborted s); [reflexivity|]. cbn [fst snd].
  repeat (match goal with |- context [if ?b then _ else _] => destruct b end;
          try reflexivity).
  all: destruct (settles _); reflexivity.
Qed.

(** *** The robots gate *)

Lemma cache_insert_inner s s1 k v :
  inner s s1 -> robotsCache s1 = robotsCache s -> robotsCache s !! k = None ->
  inner s (with_robotsCache (<[k := v]> (robotsCache s1)) s1).
Proof.
  intros [[[] ? ? ? ? ? ?] ? ?] Hc Hk. step_fields.
  intros k' b Hb. rewrite Hc. rewrite lookup_insert_ne; [assumption|congruence].
Qed.

Lemma isAllowedByRobots_inner url : preserves inner (isAllowedByRobots cfg P net url).
Proof.
  intros s. unfold isAllowedByRobots, tryCatch, bind, gets, throw, ret, modify.
  destruct (newURL P url) as [urlObj|]; [|reflexivity].
  destruct (robotsCache s !! robotsUrlOf urlObj) eqn:Hk; [reflexivity|].
  pose proof (jsFetch_inner RobotsFetch (robotsUrlOf urlObj) None ltac:(discriminate) s) as Hf.
  pose proof (jsFetch_cache RobotsFetch (robotsUrlOf urlObj) None s) as Hc.
  destruct (jsFetch net RobotsFetch (robotsUrlOf urlObj) None s) as [[resp|e| |] s1];
    cbn [snd] in *; try assumption.
  destruct (negb (r_ok resp)); cbn [snd]; apply cache_insert_inner; assumption.
Qed.

(** *** Link extraction *)

Lemma extractLinks_inner url nextDepth : preserves inner (extractLinks cfg P net url nextDepth).
Proof.
  unfold extractLinks. apply preserves_tryCatch; [apply _| |intros; apply preserves_ret; apply _].
  apply preserves_bind; [apply _|apply jsFetch_inner; discriminate|]. intros response.
  destruct (newURL P url); [|apply preserves_throw; apply _].
  apply preserves_bind; [apply _|apply preserves_gets; apply _|].
  intros seen. apply preserves_ret; apply _.
Qed.

(** *** [crawlPage] *)

Lemma crawlPage_slot fuel url depth referrer retryCount :
  preserves slot (crawlPage cfg P net fuel url depth referrer retryCount).
Proof.
  revert retryCount. induction fuel as [|fuel IH]; intros retryCount; [intros s; reflexivity|].
  cbn [crawlPage].
  apply preserves_bind; [apply _|apply preserves_gets; apply _|]. intros seen.
  destruct seen; [apply preserves_ret; apply _|].
  apply preserves_bind; [apply _| |].
  { destruct (respectRobots cfg); [|apply preserves_ret; apply _].
    apply inner_weaken, isAllowedByRobots_inner. }
  intros allowed.
  destruct (respectRobots cfg && negb allowed).
  { apply preserves_bind; [apply _| |intros; apply preserves_ret; apply _].
    apply preserves_modify. intros s. step_fields. }
  apply preserves_bind; [apply _| |intros _].
  { apply preserves_modify. intros s. step_fields. set_solver. }
  apply preserves_bind; [apply _| |intros _].
  { apply preserves_modify. intros s. step_fields. }
  apply preserves_finally; [apply _| |intros s; step_fields].
  apply preserves_tryCatch; [apply _| |].
  - apply preserves_bind; [apply _|apply jsFetch_slot|]. intros response.
    destruct (negb (r_ok response)); [apply preserves_throw; apply _|].
    destruct (negb _); [apply preserves_throw; apply _|].
    apply preserves_bind; [apply _|apply preserves_gets; apply _|].
    intros pd. apply preserves_ret; apply _.
  - intros e. destruct (_ && _); [|apply preserves_throw; apply _].
    apply preserves_bind; [apply _|apply inner_weaken, delay_inner|]. intros _. apply IH.
Qed.

Lemma crawlPage_seen fuel url depth referrer retryCount s :
  url ∈ visited s ->
  crawlPage cfg P net (S fuel) url depth referrer retryCount s = (Ret None, s).
Proof.
  intros H. cbn [crawlPage]. unfold bind, gets.
  rewrite bool_decide_eq_true_2 by assumption. reflexivity.
Qed.

Lemma robotsGate_returns url s :
  exists b, robotsGate cfg P net url s = (Ret b, snd (robotsGate cfg P net url s)).
Proof.
  unfold robotsGate. destruct (respectRobots cfg); [|eexists; reflexivity].
  unfold isAllowedByRobots, tryCatch, bind, gets, throw, ret, modify.
  destruct (newURL P url) as [urlObj|]; [|eexists; reflexivity].
  destruct (robotsCache s !! robotsUrlOf urlObj); [eexists; reflexivity|].
  destruct (jsFetch net RobotsFetch (robotsUrlOf urlObj) None s) as [[resp|e| |] s1] eqn:Hf;
    try (eexists; reflexivity).
  - destruct (negb (r_ok resp)); eexists; reflexivity.
  - exfalso. unfold jsFetch in Hf.
    repeat (match type of Hf with context [if ?b then _ else _] => destruct b end;
            try discriminate).
    destruct (settles _); discriminate.
  - exfalso. unfold jsFetch in Hf.
    repeat (match type of Hf with context [if ?b then _ else _] => destruct b end;
            try discriminate).
    destruct (settles _); discriminate.
Qed.

Lemma robotsGate_inner url : preserves inner (robotsGate cfg P net url).
Proof.
  unfold robotsGate. destruct (respectRobots cfg);
    [apply isAllowedByRobots_inner|apply preserves_ret; apply _].
Qed.

Lemma claim_visited url s : url ∈ visited (claim url s).
Proof. unfold claim. fields. set_solver. Qed.

(** One call of [crawlPage], with the nested call resolved. *)
Lemma crawlPage_unroll fuel url depth referrer retryCount s :
  crawlPage cfg P net (S fuel) url depth referrer retryCount s =
  if bool_decide (url ∈ visited s) then (Ret None, s)
  else
    let s1 := snd (robotsGate cfg P net url s) in
    match fst (robotsGate cfg P net url s) with
    | Ret allowed =>
        if respectRobots cfg && negb allowed then (Ret None, countSkip s1)
        else
          match fetchWithTimeout cfg net PageFetch url (claim url s1) with
          | (Ret response, s3) =>
              if rejectedResponse response
              then onFailure cfg net fuel retryCount (rejectionOf response) s3
              else (Ret (Some (recordAt P url (r_body response) depth referrer s3)),
                    release s3)
          | (Throw e, s3) => onFailure cfg net fuel retryCount e s3
          | (Pending, s3) => (Pending, s3)
          | (OutOfFuel, s3) => (OutOfFuel, s3)
          end
    | Throw e => (Throw e, s1)
    | Pending => (Pending, s1)
    | OutOfFuel => (OutOfFuel, s1)
    end.
Proof.
  cbn [crawlPage]. unfold bind at 1. unfold gets at 1.
  destruct (bool_decide (url ∈ visited s)) eqn:Hseen; [reflexivity|].
  unfold bind at 1. fold (robotsGate cfg P net url).
  destruct (robotsGate cfg P net url s) as [[allowed|e| |] s1] eqn:Hg; cbn [fst snd];
    try reflexivity.
  destruct (respectRobots cfg && negb allowed); [reflexivity|].
  unfold bind at 1. unfold modify at 1. unfold bind at 1. unfold modify at 1.
  change (with_activeRequests _ (with_visited _ s1)) with (claim url s1).
  pose proof (jsFetch_slot PageFetch url (Some (timeout cfg)) (claim url s1)) as Hs.
  unfold finally, tryCatch. unfold bind at 1. fold (fetchWithTimeout cfg net PageFetch url) in *.
  destruct (fetchWithTimeout cfg net PageFetch url (claim url s1)) as [[response|e| |] s3];
    cbn [snd] in Hs; try reflexivity.
  - unfold rejectedResponse, rejectionOf.
    destruct (negb (r_ok response)); cbn [orb].
    + unfold throw, onFailure. destruct (_ && _); [|reflexivity].
      unfold bind. unfold delay at 1.
      destruct fuel as [|fuel]; [reflexivity|].
      rewrite crawlPage_seen; [reflexivity|].
      apply (frame_visited _ _ (slot_frame _ _ (inner_is_slot _ _ (yield_inner _ s3)))).
      apply (frame_visited _ _ (slot_frame _ _ Hs)). apply claim_visited.
    + destruct (negb (JsString.includes _ _)).
      * unfold throw, onFailure. destruct (_ && _); [|reflexivity].
        unfold bind. unfold delay at 1.
        destruct fuel as [|fuel]; [reflexivity|].
        rewrite crawlPage_seen; [reflexivity|].
        apply (frame_visited _ _ (slot_frame _ _ (inner_is_slot _ _ (yield_inner _ s3)))).
        apply (frame_visited _ _ (slot_frame _ _ Hs)). apply claim_visited.
      * reflexivity.
  - unfold onFailure. destruct (_ && _); [|reflexivity].
    unfold bind. unfold delay at 1.
    destruct fuel as [|fuel]; [reflexivity|].
    rewrite crawlPage_seen; [reflexivity|].
    apply (frame_visited _ _ (slot_frame _ _ (inner_is_slot _ _ (yield_inner _ s3)))).
    apply (frame_visited _ _ (slot_frame _ _ Hs)). apply claim_visited.
Qed.

Lemma crawlPage_result fuel url depth referrer retryCount s pd s' :
  crawlPage cfg P net (S fuel) url depth referrer retryCount s = (Ret (Some pd), s') ->
  pr_url pd = url /\ pr_depth pd = depth /\ pr_referrer pd = referrer.
Proof.
  rewrite crawlPage_unroll. destruct (bool_decide _); [discriminate|]. cbn zeta.
  destruct (fst (robotsGate cfg P net url s)); try discriminate.
  destruct (respectRobots cfg && negb a); [discriminate|].
  assert (Hno : forall e s3, onFailure cfg net fuel retryCount e s3 <> (Ret (Some pd), s')).
  { intros e s3. unfold onFailure. destruct (_ && _); [destruct fuel|]; discriminate. }
  destruct (fetchWithTimeout _ _ _ _ _) as [[response|e| |] s3]; try discriminate.
  - destruct (rejectedResponse response); [intros H; destruct (Hno _ _ H)|].
    intros [= <- <-]. repeat split.
  - intros H; destruct (Hno _ _ H).
Qed.

(** *** The rate limiter *)

Lemma rateLimitedRequest_unroll {A} (request : M A) s :
  rateLimitedRequest cfg net request s =
  if processingQueue s then (Pending, s)
  else if stopFlag s then (Pending, s)
  else match request (gateOpen cfg net s) with
       | (Ret a, s3) => (Ret a, gateClose s3)
       | (Throw e, s3) => (Throw e, gateClose s3)
       | r => r
       end.
Proof.
  unfold rateLimitedRequest. destruct (processingQueue s); [reflexivity|].
  destruct (stopFlag s); [reflexivity|].
  unfold finally, bind, modify, gateOpen. fields.
  destruct (clock s - lastRequestTime s <? requestDelay cfg)%Z; reflexivity.
Qed.

Lemma gateOpen_frame s : frame s (gateOpen cfg net s).
Proof.
  unfold gateOpen. fields.
  destruct (clock s - lastRequestTime s <? requestDelay cfg)%Z.
  - pose proof (yield_inner (requestDelay cfg - (clock s - lastRequestTime s))
                  (with_gate (lastRequestTime s) true s)) as [[[] _ _ _ _ _ _] _ _].
    unfold delay. fields. split; fields; assumption.
  - split; fields; auto; reflexivity.
Qed.

Lemma gateOpen_fields s :
  queue (gateOpen cfg net s) = queue s /\ index (gateOpen cfg net s) = index s /\
  errors (gateOpen cfg net s) = errors s /\ visited (gateOpen cfg net s) = visited s /\
  fetchesOf PageFetch (log (gateOpen cfg net s)) = fetchesOf PageFetch (log s).
Proof.
  unfold gateOpen. fields.
  destruct (clock s - lastRequestTime s <? requestDelay cfg)%Z.
  - pose proof (yield_inner (requestDelay cfg - (clock s - lastRequestTime s))
                  (with_gate (lastRequestTime s) true s)) as [[_ ? ? ? _ _ _] ? Hp].
    unfold delay. fields. rewrite fetchesOf_app, Hp. cbn. rewrite app_nil_r. auto.
  - rewrite fetchesOf_app. cbn. rewrite app_nil_r. auto.
Qed.

(** *** One work item *)

Lemma requestFn_unroll item s :
  requestFn cfg P net item s =
  match crawlPage cfg P net (S (maxRetries cfg)) (wi_url item) (wi_depth item)
          (wi_referrer item) 0 s with
  | (Ret (Some pd), s1) =>
      if (wi_depth item <? maxDepth cfg)%nat then
        match extractLinks cfg P net (wi_url item) (wi_depth item + 1) (recordPage pd s1) with
        | (Ret newLinks, s3) => (Ret tt, with_queue (queue s3 ++ newLinks) s3)
        | (Throw e, s3) => (Throw e, s3)
        | (Pending, s3) => (Pending, s3)
        | (OutOfFuel, s3) => (OutOfFuel, s3)
        end
      else (Ret tt, recordPage pd s1)
  | (Ret None, s1) => (Ret tt, s1)
  | (Throw e, s1) => (Throw e, s1)
  | (Pending, s1) => (Pending, s1)
  | (OutOfFuel, s1) => (OutOfFuel, s1)
  end.
Proof.
  unfold requestFn. unfold bind at 1.
  destruct (crawlPage _ _ _ _ _ _ _ _ s) as [[[pd|]|e| |] s1]; try reflexivity.
  unfold bind at 1. unfold modify at 1. unfold bind at 1. unfold modify at 1.
  change (with_stats _ _ _ _ (with_index _ s1)) with (recordPage pd s1).
  destruct (wi_depth item <? maxDepth cfg)%nat; [|reflexivity].
  unfold bind, modify.
  destruct (extractLinks _ _ _ _ _ _) as [[l|e| |] s3]; reflexivity.
Qed.

Lemma processItem_unroll item s :
  processItem cfg P net item s =
  match rateLimitedRequest cfg net (requestFn cfg P net item) s with
  | (Ret _, s1) => (Ret tt, snd (delay net 100 s1))
  | (Throw e, s1) => (Ret tt, snd (delay net 100 (recordError (wi_url item) e s1)))
  | (Pending, s1) => (Pending, s1)
  | (OutOfFuel, s1) => (OutOfFuel, s1)
  end.
Proof.
  unfold processItem, bind, tryCatch, recordError.
  destruct (rateLimitedRequest _ _ _ s) as [[[]|e| |] s1]; try reflexivity.
Qed.

(** The results grow by at most one record per request, and that record
    is for the item's URL. *)
Lemma requestFn_index item s :
  index (snd (requestFn cfg P net item s)) = index s \/
  exists pd, index (snd (requestFn cfg P net item s)) = index s ++ [pd] /\
             pr_url pd = wi_url item /\ pr_depth pd = wi_depth item.
Proof.
  rewrite requestFn_unroll.
  pose proof (crawlPage_slot (S (maxRetries cfg)) (wi_url item) (wi_depth item)
                (wi_referrer item) 0 s) as Hs.
  destruct (crawlPage _ _ _ _ _ _ _ _ s) as [[[pd|]|e| |] s1] eqn:Hc; cbn [snd] in *;
    try (left; apply (slot_index _ _ Hs)).
  right. exists pd. apply crawlPage_result in Hc as (Hu & Hd & _).
  split; [|split; assumption].
  destruct (wi_depth item <? maxDepth cfg)%nat.
  - pose proof (extractLinks_inner (wi_url item) (wi_depth item + 1) (recordPage pd s1)) as Hi.
    destruct (extractLinks _ _ _ _ _ _) as [[l|e| |] s3]; cbn [snd] in *; fields;
      rewrite (slot_index _ _ (inner_slot _ _ Hi)); unfold recordPage; fields;
      rewrite (slot_index _ _ Hs); reflexivity.
  - cbn [snd]. unfold recordPage; fields. rewrite (slot_index _ _ Hs); reflexivity.
Qed.

Lemma gated_index {A} (request : M A) s :
  index (snd (rateLimitedRequest cfg net request s)) = index s \/
  index (snd (rateLimitedRequest cfg net request s)) =
    index (snd (request (gateOpen cfg net s))).
Proof.
  rewrite rateLimitedRequest_unroll.
  destruct (processingQueue s); [left; reflexivity|].
  destruct (stopFlag s); [left; reflexivity|]. right.
  destruct (request (gateOpen cfg net s)) as [[a|e| |] s3]; reflexivity.
Qed.

Lemma processItem_index item s :
  index (snd (processItem cfg P net item s)) = index s \/
  exists pd, index (snd (processItem cfg P net item s)) = index s ++ [pd] /\
             pr_url pd = wi_url item /\ pr_depth pd = wi_depth item.
Proof.
  assert (Hreq :
    index (snd (rateLimitedRequest cfg net (requestFn cfg P net item) s)) = index s \/
    exists pd, index (snd (rateLimitedRequest cfg net (requestFn cfg P net item) s))
               = index s ++ [pd] /\ pr_url pd = wi_url item /\ pr_depth pd = wi_depth item).
  { destruct (gated_index (requestFn cfg P net item) s) as [H|H]; [left; assumption|].
    rewrite H. destruct (gateOpen_fields s) as (_ & Hi & _). rewrite <- Hi.
    apply requestFn_index. }
  rewrite processItem_unroll.
  destruct (rateLimitedRequest _ _ _ s) as [[[]|e| |] s1]; cbn [snd] in *; try assumption.
  - rewrite (slot_index _ _ (inner_slot _ _ (delay_inner 100 s1))). assumption.
  - rewrite (slot_index _ _ (inner_slot _ _ (delay_inner 100 _))).
    unfold recordError, handleCrawlError, bind, modify. fields. assumption.
Qed.

(** *** The worker loop and the page cap *)

Lemma crawlWorker_cap fuel s :
  length (index s) <= maxPages cfg ->
  length (index (snd (crawlWorker cfg P net fuel s))) <= maxPages cfg.
Proof.
  revert s. induction fuel as [|fuel IH]; intros s Hs; [assumption|].
  cbn [crawlWorker]. unfold workerCondition.
  destruct (negb (stopFlag s) && (0 <? length (queue s))%nat) ; [|assumption].
  cbn [andb]. destruct (Nat.ltb_spec (length (index s)) (maxPages cfg)) as [Hlt|]; [|assumption].
  destruct (queue s) as [|item rest]; [assumption|].
  destruct (bool_decide _); [apply IH; assumption|].
  unfold bind.
  assert (Hp : length (index (snd (processItem cfg P net item (with_queue rest s))))
               <= maxPages cfg).
  { destruct (processItem_index item (with_queue rest s)) as [H|(pd & H & _)]; rewrite H;
      fields; [lia|]. rewrite length_app. cbn. lia. }
  destruct (processItem cfg P net item (with_queue rest s)) as [[[]|e| |] s1];
    cbn [snd] in *; try assumption.
  apply IH; assumption.
Qed.

Lemma startCrawl_unroll fuel startUrl s :
  startCrawl cfg P net fuel startUrl s =
  if negb (isValidUrl P startUrl)
  then (Throw (plainError "Invalid start URL provided"), started s)
  else match processCrawlQueue cfg P net fuel (seeded startUrl s) with
       | (Throw e, s') => if negb (isAbort e) then (Throw e, s') else (Ret tt, s')
       | r => r
       end.
Proof.
  unfold startCrawl, bind, modify, tryCatch, throw, ret.
  change (with_stats _ _ _ _ (with_signals _ _ (reset s))) with (started s).
  destruct (negb (isValidUrl P startUrl)); [reflexivity|].
  change (with_queue _ (started s)) with (seeded startUrl s).
  destruct (processCrawlQueue _ _ _ _ _) as [[[]|e| |] s1]; try reflexivity.
  destruct (negb (isAbort e)); reflexivity.
Qed.

(** A worker started after the first one has shifted the seed off the
    queue leaves its loop at once. *)
Lemma later_workers_exit fuel s :
  queue s = [] -> crawlWorker cfg P net (S fuel) s = (Ret tt, s).
Proof.
  intros H. cbn [crawlWorker]. unfold workerCondition. rewrite H. cbn.
  rewrite andb_false_r. reflexivity.
Qed.

(** *** Link discovery *)

Lemma filter_sublist {A} (f : A -> bool) (l : list A) : List.filter f l `sublist_of` l.
Proof.
  induction l as [|x l IH]; [constructor|]. cbn.
  destruct (f x); [apply sublist_skip|apply sublist_cons]; assumption.
Qed.

Lemma linksOf_sublist url html nextDepth seen baseUrl :
  linksOf P url html nextDepth seen baseUrl
    `sublist_of` omap (toLink P url nextDepth) (anchors P html).
Proof.
  unfold linksOf. etransitivity; [apply sublist_take|apply filter_sublist].
Qed.

Lemma linksOf_length url html nextDepth seen baseUrl :
  length (linksOf P url html nextDepth seen baseUrl) <= 20.
Proof. unfold linksOf. rewrite length_take. lia. Qed.

Lemma sameHost_trans u v w : sameHost P u v -> sameHost P v w -> sameHost P u w.
Proof.
  intros (a & b & Ha & Hb & Hab) (b' & c & Hb' & Hc & Hbc).
  exists a, c. repeat split; try assumption. congruence.
Qed.

Lemma linksOf_spec page html seen baseUrl l :
  hostnameStable P ->
  newURL P (wi_url page) = Some baseUrl ->
  l ∈ linksOf P (wi_url page) html (wi_depth page + 1) seen baseUrl ->
  discoveredFrom P page html seen l.
Proof.
  intros Hstable Hbase Hin. unfold linksOf in Hin.
  apply (fun H => elem_of_sublist _ _ _ H (sublist_take _ _)) in Hin.
  apply list_elem_of_In, filter_In in Hin as [Hin Hkeep].
  apply list_elem_of_In, list_elem_of_omap in Hin as ([href text] & Ha & Hl).
  unfold toLink in Hl. cbn [fst snd] in Hl.
  destruct (JsString.truthy href); [|discriminate].
  destruct (resolveHref P href (wi_url page)) as [absoluteUrl|] eqn:Hr; [|discriminate].
  injection Hl as <-. cbn [wi_url wi_depth wi_referrer] in *.
  unfold keepLink in Hkeep. cbn [wi_url] in Hkeep.
  apply andb_prop in Hkeep as [Hkeep Hdom]. apply andb_prop in Hkeep as [Hvalid Hseen].
  repeat split; try assumption.
  - exists href, text. split; assumption.
  - unfold isSameDomain in Hdom.
    destruct (newURL P absoluteUrl) as [a|] eqn:Ha'; [|discriminate].
    destruct (newURL P (u_href baseUrl)) as [b|] eqn:Hb; [|discriminate].
    apply String.eqb_eq in Hdom.
    destruct (Hstable _ _ Hbase) as (b' & Hb' & Hh). rewrite Hb in Hb'. injection Hb' as <-.
    exists a, baseUrl. repeat split; try assumption. congruence.
  - apply negb_true_iff, bool_decide_eq_false in Hseen. assumption.
Qed.

Lemma extractLinks_value url nextDepth s :
  fst (extractLinks cfg P net url nextDepth s) = Ret [] \/
  exists response baseUrl,
    newURL P url = Some baseUrl /\
    fst (fetchWithTimeout cfg net LinkFetch url s) = Ret response /\
    fst (extractLinks cfg P net url nextDepth s) =
      Ret (linksOf P url (r_body response) nextDepth
             (visited (snd (extractLinks cfg P net url nextDepth s))) baseUrl).
Proof.
  unfold extractLinks, tryCatch, bind, gets, ret, throw.
  destruct (fetchWithTimeout _ _ _ _ _) as [[response|e| |] s1] eqn:Hf.
  - destruct (newURL P url) as [baseUrl|] eqn:Hb; [|left; reflexivity].
    right. exists response, baseUrl. repeat split.
  - left; reflexivity.
  - exfalso. unfold fetchWithTimeout, jsFetch in Hf.
    repeat (match type of Hf with context [if ?b then _ else _] => destruct b end;
            try discriminate).
    destruct (settles _); discriminate.
  - exfalso. unfold fetchWithTimeout, jsFetch in Hf.
    repeat (match type of Hf with context [if ?b then _ else _] => destruct b end;
            try discriminate).
    destruct (settles _); discriminate.
Qed.

(** What a request appends to the frontier. *)
Lemma requestFn_links item s :
  hostnameStable P ->
  exists html links,
    queue (snd (requestFn cfg P net item s)) = queue s ++ links /\
    length links <= 20 /\
    links `sublist_of` omap (toLink P (wi_url item) (wi_depth item + 1)) (anchors P html) /\
    Forall (discoveredFrom P item html (visited (snd (requestFn cfg P net item s)))) links.
Proof.
  intros Hstable.
  assert (Hnone : queue (snd (requestFn cfg P net item s)) = queue s ->
    exists html links,
      queue (snd (requestFn cfg P net item s)) = queue s ++ links /\
      length links <= 20 /\
      links `sublist_of` omap (toLink P (wi_url item) (wi_depth item + 1)) (anchors P html) /\
      Forall (discoveredFrom P item html (visited (snd (requestFn cfg P net item s)))) links).
  { intros H. exists EmptyString, []. rewrite app_nil_r.
    repeat split; [assumption|cbn; lia|apply sublist_nil_l|constructor]. }
  revert Hnone. rewrite requestFn_unroll.
  pose proof (crawlPage_slot (S (maxRetries cfg)) (wi_url item) (wi_depth item)
                (wi_referrer item) 0 s) as Hs.
  destruct (crawlPage _ _ _ _ _ _ _ _ s) as [[[pd|]|e| |] s1]; cbn [snd] in *;
    try (intros Hnone; apply Hnone, (slot_queue _ _ Hs)).
  destruct (wi_depth item <? maxDepth cfg)%nat;
    [|intros Hnone; apply Hnone; cbn [snd]; unfold recordPage; fields;
      apply (slot_queue _ _ Hs)].
  pose proof (extractLinks_inner (wi_url item) (wi_depth item + 1) (recordPage pd s1)) as Hi.
  pose proof (extractLinks_value (wi_url item) (wi_depth item + 1) (recordPage pd s1)) as Hv.
  assert (Hq : queue (snd (extractLinks cfg P net (wi_url item) (wi_depth item + 1)
                             (recordPage pd s1))) = queue s).
  { rewrite (slot_queue _ _ (inner_slot _ _ Hi)). unfold recordPage. fields.
    apply (slot_queue _ _ Hs). }
  destruct (extractLinks _ _ _ _ _ _) as [[l|e| |] s3]; cbn [fst snd] in *;
    try (intros Hnone; apply Hnone; assumption).
  intros _. destruct Hv as [[= ->]|(response & baseUrl & Hb & _ & [= ->])].
  - exists EmptyString, []. fields. rewrite Hq.
    repeat split; [cbn; lia|apply sublist_nil_l|constructor].
  - exists (r_body response), (linksOf P (wi_url item) (r_body response) (wi_depth item + 1)
                                 (visited s3) baseUrl).
    fields. rewrite Hq. repeat split.
    + apply linksOf_length.
    + apply linksOf_sublist.
    + apply Forall_forall. intros l Hl. apply (linksOf_spec item _ _ baseUrl); assumption.
Qed.

Lemma gated_queue {A} (request : M A) s :
  queue (snd (rateLimitedRequest cfg net request s)) = queue s \/
  queue (snd (rateLimitedRequest cfg net request s)) =
    queue (snd (request (gateOpen cfg net s))).
Proof.
  rewrite rateLimitedRequest_unroll.
  destruct (processingQueue s); [left; reflexivity|].
  destruct (stopFlag s); [left; reflexivity|]. right.
  destruct (request (gateOpen cfg net s)) as [[a|e| |] s3]; reflexivity.
Qed.

Lemma processItem_queue item s :
  hostnameStable P ->
  exists links,
    queue (snd (processItem cfg P net item s)) = queue s ++ links /\
    Forall (fun l => sameHost P (wi_url l) (wi_url item)) links.
Proof.
  intros Hstable.
  assert (Hreq : exists links,
    queue (snd (rateLimitedRequest cfg net (requestFn cfg P net item) s)) = queue s ++ links /\
    Forall (fun l => sameHost P (wi_url l) (wi_url item)) links).
  { destruct (gated_queue (requestFn cfg P net item) s) as [H|H].
    - exists []. rewrite app_nil_r. split; [assumption|constructor].
    - destruct (requestFn_links item (gateOpen cfg net s) Hstable)
        as (html & links & Hq & _ & _ & Hall).
      exists links. rewrite H, Hq. destruct (gateOpen_fields s) as (-> & _).
      split; [reflexivity|].
      eapply Forall_impl; [exact Hall|]. intros l (_ & _ & Hh & _). exact Hh. }
  destruct Hreq as (links & Hq & Hall). exists links. split; [|assumption].
  rewrite processItem_unroll.
  destruct (rateLimitedRequest _ _ _ s) as [[[]|e| |] s1]; cbn [snd] in *; try assumption.
  - rewrite (slot_queue _ _ (inner_slot _ _ (delay_inner 100 s1))). assumption.
  - rewrite (slot_queue _ _ (inner_slot _ _ (delay_inner 100 _))).
    unfold recordError, handleCrawlError, bind, modify. fields. assumption.
Qed.

Lemma crawlWorker_confined seed fuel s :
  hostnameStable P ->
  confined P seed s -> confined P seed (snd (crawlWorker cfg P net fuel s)).
Proof.
  intros Hstable. revert s. induction fuel as [|fuel IH]; intros s Hs; [assumption|].
  cbn [crawlWorker]. destruct (workerCondition cfg s); [|assumption].
  destruct (queue s) as [|item rest] eqn:Hq; [assumption|].
  destruct Hs as [Hqueue Hindex]. rewrite Hq in Hqueue.
  apply Forall_cons in Hqueue as [Hitem Hrest].
  assert (Hs1 : confined P seed (with_queue rest s)) by (split; fields; assumption).
  destruct (bool_decide _); [apply IH; assumption|].
  unfold bind.
  assert (Hp : confined P seed (snd (processItem cfg P net item (with_queue rest s)))).
  { destruct (processItem_queue item (with_queue rest s) Hstable) as (links & Hl & Hall).
    split.
    - rewrite Hl. fields. apply Forall_app. split; [assumption|].
      eapply Forall_impl; [exact Hall|]. intros l Hh.
      eapply sameHost_trans; [exact Hh|exact Hitem].
    - destruct (processItem_index item (with_queue rest s)) as [H|(pd & H & Hu & _)];
        rewrite H; fields; [assumption|].
      apply Forall_app. split; [assumption|]. constructor; [|constructor].
      rewrite Hu. exact Hitem. }
  destruct (processItem cfg P net item (with_queue rest s)) as [[[]|e| |] s1];
    cbn [snd] in *; try assumption.
  apply IH; assumption.
Qed.

Lemma startCrawl_confined fuel startUrl s :
  hostnameStable P ->
  confined P startUrl (snd (startCrawl cfg P net fuel startUrl s)).
Proof.
  intros Hstable. rewrite startCrawl_unroll.
  destruct (isValidUrl P startUrl) eqn:Hvalid; cbn [negb];
    [|split; cbn; constructor].
  assert (Hseed : sameHost P startUrl startUrl).
  { unfold isValidUrl in Hvalid. destruct (newURL P startUrl) as [a|] eqn:Ha; [|discriminate].
    exists a, a. repeat split; assumption. }
  assert (H : confined P startUrl (snd (processCrawlQueue cfg P net fuel (seeded startUrl s)))).
  { assert (H0 : confined P startUrl (seeded startUrl s)).
    { split; cbn; repeat constructor. assumption. }
    unfold processCrawlQueue. destruct (maxConcurrency cfg); [exact H0|].
    apply crawlWorker_confined; assumption. }
  destruct (processCrawlQueue _ _ _ _ _) as [[[]|e| |] s1]; try exact H.
  destruct (negb (isAbort e)); exact H.
Qed.

(** *** Page fetches and the visited set *)

Lemma jsFetch_visited o url timer s :
  visited (snd (jsFetch net o url timer s)) = visited s.
Proof.
  unfold jsFetch, yield. destruct (aborted s); [reflexivity|]. cbn [fst snd].
  repeat (match goal with |- context [if ?b then _ else _] => destruct b end;
          try reflexivity).
  all: destruct (settles _); reflexivity.
Qed.

Lemma jsFetch_log o url timer s :
  log (snd (jsFetch net o url timer s)) =
  if aborted s then log s else log s ++ [Fetch o url (clock s)].
Proof.
  unfold jsFetch, yield. destruct (aborted s); [reflexivity|]. cbn [fst snd].
  repeat (match goal with |- context [if ?b then _ else _] => destruct b end;
          try reflexivity).
  all: destruct (settles _); reflexivity.
Qed.

Lemma onFailure_inner fuel retryCount e s :
  inner s (snd (onFailure cfg net fuel retryCount e s)).
Proof.
  unfold onFailure.
  destruct (_ && _); [destruct fuel|]; cbn [snd]; unfold release.
  - apply delay_inner.
  - etransitivity; [apply delay_inner|]. step_fields.
  - step_fields.
Qed.

(** What one call of [crawlPage] does to the visited set and the page
    fetches: nothing, or it marks the URL, not marked before, and sends at
    most one request for it. *)
Lemma crawlPage_pages fuel url depth referrer retryCount s :
  let s' := snd (crawlPage cfg P net (S fuel) url depth referrer retryCount s) in
  (visited s' = visited s /\
   fetchesOf PageFetch (log s') = fetchesOf PageFetch (log s)) \/
  ((url ∉ visited s) /\ visited s' = {[url]} ∪ visited s /\
   (fetchesOf PageFetch (log s') = fetchesOf PageFetch (log s) \/
    fetchesOf PageFetch (log s') = fetchesOf PageFetch (log s) ++ [url])).
Proof.
  cbn zeta. rewrite crawlPage_unroll.
  destruct (bool_decide (url ∈ visited s)) eqn:Hseen; [left; split; reflexivity|].
  apply bool_decide_eq_false in Hseen. cbn zeta.
  pose proof (robotsGate_inner url s) as [_ Hv1 Hp1].
  destruct (fst (robotsGate cfg P net url s)) as [allowed|e| |];
    try (left; split; assumption).
  destruct (respectRobots cfg && negb allowed); [left; split; assumption|].
  right. split; [assumption|].
  set (s1 := snd (robotsGate cfg P net url s)) in *.
  pose proof (jsFetch_visited PageFetch url (Some (timeout cfg)) (claim url s1)) as Hv3.
  pose proof (jsFetch_log PageFetch url (Some (timeout cfg)) (claim url s1)) as Hl3.
  assert (Hfinal : forall s3 s',
    visited s3 = visited (claim url s1) ->
    log s3 = (if aborted (claim url s1) then log (claim url s1)
              else log (claim url s1) ++ [Fetch PageFetch url (clock (claim url s1))]) ->
    inner s3 s' ->
    visited s' = {[url]} ∪ visited s /\
    (fetchesOf PageFetch (log s') = fetchesOf PageFetch (log s) \/
     fetchesOf PageFetch (log s') = fetchesOf PageFetch (log s) ++ [url])).
  { intros s3 s' Hv Hl [_ Hv' Hp']. split.
    - rewrite Hv', Hv. unfold claim. fields. rewrite Hv1. reflexivity.
    - rewrite Hp', Hl. destruct (aborted (claim url s1)).
      + left. unfold claim. fields. assumption.
      + right. rewrite fetchesOf_app. unfold claim. fields. rewrite Hp1. reflexivity. }
  fold (fetchWithTimeout cfg net PageFetch url) in Hv3, Hl3.
  destruct (fetchWithTimeout cfg net PageFetch url (claim url s1)) as [[response|e| |] s3];
    cbn [snd] in *.
  - destruct (rejectedResponse response).
    + apply (Hfinal s3); [assumption..|apply onFailure_inner].
    + apply (Hfinal s3); [assumption..|]. cbn [snd]. unfold release. step_fields.
  - apply (Hfinal s3); [assumption..|apply onFailure_inner].
  - apply (Hfinal s3); [assumption..|reflexivity].
  - apply (Hfinal s3); [assumption..|reflexivity].
Qed.

Lemma crawlPage_pageStep fuel url depth referrer retryCount :
  preserves pageStep (crawlPage cfg P net (S fuel) url depth referrer retryCount).
Proof.
  intros s.
  destruct (crawlPage_pages fuel url depth referrer retryCount s)
    as [[Hv Hp]|(Hnot & Hv & [Hp|Hp])].
  - apply pageStep_same; [rewrite Hv; reflexivity|assumption].
  - apply pageStep_same; [rewrite Hv; apply union_subseteq_r|assumption].
  - split; [rewrite Hv; apply union_subseteq_r|]. exists [url]. split; [assumption|].
    split; [apply NoDup_singleton|]. intros u Hu. apply list_elem_of_singleton in Hu as ->.
    split; [assumption|]. rewrite Hv. apply elem_of_union_l, elem_of_singleton. reflexivity.
Qed.

Lemma requestFn_pageStep item : preserves pageStep (requestFn cfg P net item).
Proof.
  unfold requestFn.
  apply preserves_bind; [apply _|apply crawlPage_pageStep|]. intros [pd|];
    [|apply preserves_ret; apply _].
  apply preserves_bind; [apply _| |intros _].
  { apply preserves_modify. intros s. apply pageStep_same; reflexivity. }
  apply preserves_bind; [apply _| |intros _].
  { apply preserves_modify. intros s. apply pageStep_same; reflexivity. }
  destruct (wi_depth item <? maxDepth cfg)%nat; [|apply preserves_ret; apply _].
  apply preserves_bind; [apply _| |intros links].
  { intros s. apply inner_pageStep, extractLinks_inner. }
  apply preserves_modify. intros s. apply pageStep_same; reflexivity.
Qed.

Lemma gateOpen_pageStep s : pageStep s (gateOpen cfg net s).
Proof.
  destruct (gateOpen_fields s) as (_ & _ & _ & Hv & Hp).
  apply pageStep_same; [rewrite Hv; reflexivity|assumption].
Qed.

Lemma gated_pageStep {A} (request : M A) :
  preserves pageStep request -> preserves pageStep (rateLimitedRequest cfg net request).
Proof.
  intros Hr s. rewrite rateLimitedRequest_unroll.
  destruct (processingQueue s); [reflexivity|]. destruct (stopFlag s); [reflexivity|].
  specialize (Hr (gateOpen cfg net s)).
  assert (H : pageStep s (snd (request (gateOpen cfg net s)))).
  { etransitivity; [apply gateOpen_pageStep|exact Hr]. }
  destruct (request (gateOpen cfg net s)) as [[a|e| |] s3]; exact H.
Qed.

Lemma processItem_pageStep item : preserves pageStep (processItem cfg P net item).
Proof.
  unfold processItem.
  apply preserves_bind; [apply _| |intros _; intros s; apply inner_pageStep, delay_inner].
  apply preserves_tryCatch; [apply _|apply gated_pageStep, requestFn_pageStep|].
  intros e. unfold handleCrawlError.
  apply preserves_bind; [apply _| |intros _];
    apply preserves_modify; intros s; apply pageStep_same; reflexivity.
Qed.

Lemma crawlWorker_pageStep fuel : preserves pageStep (crawlWorker cfg P net fuel).
Proof.
  induction fuel as [|fuel IH]; intros s; [reflexivity|].
  cbn [crawlWorker]. destruct (workerCondition cfg s); [|reflexivity].
  destruct (queue s) as [|item rest]; [reflexivity|].
  assert (H0 : pageStep s (with_queue rest s)) by (apply pageStep_same; reflexivity).
  destruct (bool_decide _).
  - etransitivity; [exact H0|apply IH].
  - etransitivity; [exact H0|].
    apply preserves_bind; [apply _|apply processItem_pageStep|intros _; apply IH].
Qed.

Lemma startCrawl_fetchedOnce fuel startUrl cache last now :
  fetchedOnce (snd (startCrawl cfg P net fuel startUrl (idleEngine cache last now))).
Proof.
  rewrite startCrawl_unroll.
  assert (H0 : fetchedOnce (seeded startUrl (idleEngine cache last now))).
  { split; cbn; [constructor|]. intros u Hu. inversion Hu. }
  destruct (negb (isValidUrl P startUrl)); [exact H0|].
  assert (H : fetchedOnce (snd (processCrawlQueue cfg P net fuel
                                  (seeded startUrl (idleEngine cache last now))))).
  { unfold processCrawlQueue. destruct (maxConcurrency cfg); [exact H0|].
    eapply fetchedOnce_step; [apply crawlWorker_pageStep|exact H0]. }
  destruct (processCrawlQueue _ _ _ _ _) as [[[]|e| |] s1]; try exact H.
  destruct (negb (isAbort e)); exact H.
Qed.

(** *** The request log of one work item *)

Lemma jsFetch_ret o url timer s r s' :
  jsFetch net o url timer s = (Ret r, s') ->
  aborted s = false /\ aborted s' = false /\ stopFlag s' = stopFlag s /\
  log s' = log s ++ [Fetch o url (clock s)] /\ (clock s <= clock s')%Z /\
  settles (net (ticks s)) = Responds r /\ stopNow (net (ticks s)) = false /\
  ticks s' = S (ticks s).
Proof.
  unfold jsFetch, yield. destruct (aborted s) eqn:Ha; [discriminate|]. cbn [fst snd]. fields.
  destruct (stopNow (net (ticks s))); [discriminate|].
  destruct (match timer with Some _ => _ | None => _ end); [discriminate|].
  destruct (settles (net (ticks s))) eqn:Hr; [|discriminate].
  intros [= <- <-]. fields. repeat split; auto; lia.
Qed.

Lemma robotsGate_log url s :
  exists evs, log (snd (robotsGate cfg P net url s)) = log s ++ evs /\ robotsOnly evs.
Proof.
  assert (Hnil : forall s', log s' = log s ->
                 exists evs, log s' = log s ++ evs /\ robotsOnly evs).
  { intros s' H. exists []. rewrite app_nil_r. split; [assumption|constructor]. }
  unfold robotsGate. destruct (respectRobots cfg); [|apply Hnil; reflexivity].
  unfold isAllowedByRobots, tryCatch, bind, gets, throw, ret, modify.
  destruct (newURL P url) as [urlObj|]; [|apply Hnil; reflexivity].
  destruct (robotsCache s !! robotsUrlOf urlObj); [apply Hnil; reflexivity|].
  pose proof (jsFetch_log RobotsFetch (robotsUrlOf urlObj) None s) as Hl.
  assert (H : exists evs, log (snd (jsFetch net RobotsFetch (robotsUrlOf urlObj) None s))
                          = log s ++ evs /\ robotsOnly evs).
  { rewrite Hl. destruct (aborted s); [apply Hnil; reflexivity|].
    eexists. split; [reflexivity|]. constructor; [|constructor]. eauto. }
  destruct (jsFetch net RobotsFetch (robotsUrlOf urlObj) None s) as [[resp|e| |] s1];
    cbn [snd] in *; try exact H.
  destruct (negb (r_ok resp)); exact H.
Qed.

Lemma robotsOnly_quiet evs :
  robotsOnly evs ->
  dispatches evs = [] /\ fetchesOf PageFetch evs = [] /\ fetchesOf LinkFetch evs = [].
Proof.
  induction 1 as [|e evs (u & t & ->) _ (IH1 & IH2 & IH3)]; [repeat split|].
  cbn. repeat split; assumption.
Qed.

(** A call of [crawlPage] that yields a record has logged, after whatever
    the robots gate sent, exactly one request for the page, and leaves the
    controller alive. *)
Lemma crawlPage_success fuel url depth referrer retryCount s pd s' :
  crawlPage cfg P net (S fuel) url depth referrer retryCount s = (Ret (Some pd), s') ->
  exists robots t,
    log s' = log s ++ robots ++ [Fetch PageFetch url t] /\ robotsOnly robots /\
    aborted s' = false /\ (clock s <= t <= clock s')%Z.
Proof.
  rewrite crawlPage_unroll. destruct (bool_decide _); [discriminate|]. cbn zeta.
  destruct (robotsGate_log url s) as (robots & Hlog & Hrobots).
  pose proof (robotsGate_inner url s) as [[[Hclock _ _] _ _ _ _ _ _] _ _].
  set (s1 := snd (robotsGate cfg P net url s)) in *.
  destruct (fst (robotsGate cfg P net url s)); try discriminate.
  destruct (respectRobots cfg && negb a); [discriminate|].
  assert (Hno : forall e s3, onFailure cfg net fuel retryCount e s3 <> (Ret (Some pd), s')).
  { intros e s3. unfold onFailure. destruct (_ && _); [destruct fuel|]; discriminate. }
  destruct (fetchWithTimeout _ _ _ _ _) as [[response|e| |] s3] eqn:Hf; try discriminate.
  - destruct (rejectedResponse response); [intros H; destruct (Hno _ _ H)|].
    intros [= _ <-]. apply jsFetch_ret in Hf as (_ & Hab & _ & Hl & Hc & _).
    exists robots, (clock s1). unfold release, claim in *. fields.
    rewrite Hl, Hlog, <- app_assoc. repeat split; auto; lia.
  - intros H; destruct (Hno _ _ H).
Qed.

Lemma extractLinks_log url nextDepth s :
  log (snd (extractLinks cfg P net url nextDepth s)) =
  if aborted s then log s else log s ++ [Fetch LinkFetch url (clock s)].
Proof.
  pose proof (jsFetch_log LinkFetch url (Some (timeout cfg)) s) as Hl.
  unfold extractLinks, tryCatch, bind, gets, ret, throw, fetchWithTimeout.
  destruct (jsFetch net LinkFetch url (Some (timeout cfg)) s) as [[response|e| |] s1];
    cbn [snd] in *; try assumption.
  destruct (newURL P url); assumption.
Qed.

Lemma gateOpen_log s :
  log (gateOpen cfg net s) = log s ++ [Dispatch (clock (gateOpen cfg net s))] /\
  lastRequestTime (gateOpen cfg net s) = clock (gateOpen cfg net s) /\
  (clock s <= clock (gateOpen cfg net s))%Z /\
  (lastRequestTime s + requestDelay cfg <= clock (gateOpen cfg net s))%Z.
Proof.
  unfold gateOpen. fields.
  destruct (Z.ltb_spec (clock s - lastRequestTime s) (requestDelay cfg)).
  - unfold delay, yield. cbn [snd].
    destruct (stopNow _); fields; repeat split; try reflexivity; lia.
  - fields. repeat split; try reflexivity; lia.
Qed.

Lemma length_app_one_ne {A} (l : list A) (x : A) : l <> l ++ [x].
Proof.
  intros H. apply (f_equal length) in H. rewrite length_app in H. cbn in H. lia.
Qed.

(** A request that records its page and is below the depth limit has sent
    two requests for the page's URL. *)
Lemma requestFn_log item s pd :
  index (snd (requestFn cfg P net item s)) = index s ++ [pd] ->
  (wi_depth item < maxDepth cfg)%nat ->
  exists robots t1 t2,
    log (snd (requestFn cfg P net item s)) =
      log s ++ robots ++ [Fetch PageFetch (wi_url item) t1; Fetch LinkFetch (wi_url item) t2] /\
    robotsOnly robots /\ (clock s <= t1 <= t2)%Z.
Proof.
  intros Hindex Hdepth. revert Hindex. rewrite requestFn_unroll.
  pose proof (crawlPage_slot (S (maxRetries cfg)) (wi_url item) (wi_depth item)
                (wi_referrer item) 0 s) as Hs.
  destruct (crawlPage _ _ _ _ _ _ _ _ s) as [[[pd'|]|e| |] s1] eqn:Hc; cbn [snd] in *;
    try (rewrite (slot_index _ _ Hs); intros H; destruct (length_app_one_ne _ _ H)).
  apply crawlPage_success in Hc as (robots & t1 & Hlog & Hrobots & Hab & Ht).
  apply Nat.ltb_lt in Hdepth. rewrite Hdepth. intros _.
  pose proof (extractLinks_log (wi_url item) (wi_depth item + 1) (recordPage pd' s1)) as Hl.
  assert (Hfinal : log (snd (extractLinks cfg P net (wi_url item) (wi_depth item + 1)
                               (recordPage pd' s1))) =
                   log s ++ robots ++ [Fetch PageFetch (wi_url item) t1;
                                       Fetch LinkFetch (wi_url item) (clock s1)]).
  { rewrite Hl. unfold recordPage. fields. rewrite Hab, Hlog, <- !app_assoc. reflexivity. }
  exists robots, t1, (clock s1).
  destruct (extractLinks _ _ _ _ _ _) as [[l|e| |] s3]; cbn [snd] in *; fields;
    (split; [exact Hfinal|split; [assumption|lia]]).
Qed.

Lemma delay_log ms s : log (snd (delay net ms s)) = log s.
Proof. unfold delay, yield. cbn [snd]. destruct (stopNow _); reflexivity. Qed.

(** The same for the whole loop body: the two requests come after a single
    pass through the rate limiter. *)
Lemma processItem_log item s pd :
  index (snd (processItem cfg P net item s)) = index s ++ [pd] ->
  (wi_depth item < maxDepth cfg)%nat ->
  exists t0 robots t1 t2,
    log (snd (processItem cfg P net item s)) =
      log s ++ Dispatch t0 :: robots
            ++ [Fetch PageFetch (wi_url item) t1; Fetch LinkFetch (wi_url item) t2] /\
    robotsOnly robots /\ (t0 <= t1 <= t2)%Z.
Proof.
  intros Hindex Hdepth. revert Hindex.
  rewrite processItem_unroll, rateLimitedRequest_unroll.
  destruct (processingQueue s); [intros H; destruct (length_app_one_ne _ _ H)|].
  destruct (stopFlag s); [intros H; destruct (length_app_one_ne _ _ H)|].
  destruct (gateOpen_log s) as (Hlog & _ & _ & _).
  destruct (gateOpen_fields s) as (_ & Hidx & _).
  pose proof (requestFn_log item (gateOpen cfg net s) pd) as Hreq.
  rewrite Hidx, Hlog in Hreq.
  assert (Hgoal : index (snd (requestFn cfg P net item (gateOpen cfg net s))) = index s ++ [pd] ->
    exists t0 robots t1 t2,
      log (snd (requestFn cfg P net item (gateOpen cfg net s))) =
        log s ++ Dispatch t0 :: robots
              ++ [Fetch PageFetch (wi_url item) t1; Fetch LinkFetch (wi_url item) t2] /\
      robotsOnly robots /\ (t0 <= t1 <= t2)%Z).
  { intros H. destruct (Hreq H Hdepth) as (robots & t1 & t2 & Hl & Hr & Ht).
    exists (clock (gateOpen cfg net s)), robots, t1, t2.
    rewrite Hl, <- app_assoc. repeat split; auto; lia. }
  destruct (requestFn cfg P net item (gateOpen cfg net s)) as [[[]|e| |] s3]; cbn [snd] in *.
  - rewrite delay_log, (slot_index _ _ (inner_slot _ _ (delay_inner 100 _))). exact Hgoal.
  - rewrite delay_log, (slot_index _ _ (inner_slot _ _ (delay_inner 100 _))).
    unfold recordError, handleCrawlError, bind, modify, gateClose. fields. exact Hgoal.
  - exact Hgoal.
  - exact Hgoal.
Qed.

(** *** Pacing of the rate limiter *)

Lemma gateOpen_paced s : paced cfg s -> paced cfg (gateOpen cfg net s).
Proof.
  intros [Hs Ht]. destruct (gateOpen_log s) as (Hlog & Hlast & _ & Hwait).
  assert (Hd : dispatches (log (gateOpen cfg net s))
               = dispatches (log s) ++ [clock (gateOpen cfg net s)]).
  { rewrite Hlog at 1. rewrite dispatches_app. reflexivity. }
  unfold paced. rewrite Hd. split.
  - apply spaced_snoc; [assumption|]. intros t Hl. rewrite <- (Ht t Hl). exact Hwait.
  - intros t. rewrite last_snoc. intros [= <-]. exact Hlast.
Qed.

Lemma requestFn_ungated item : preserves ungated (requestFn cfg P net item).
Proof.
  unfold requestFn.
  apply preserves_bind; [apply _| |].
  { intros s. apply slot_ungated, crawlPage_slot. }
  intros [pd|]; [|apply preserves_ret; apply _].
  apply preserves_bind; [apply _| |intros _].
  { apply preserves_modify. intros s. split; reflexivity. }
  apply preserves_bind; [apply _| |intros _].
  { apply preserves_modify. intros s. split; reflexivity. }
  destruct (wi_depth item <? maxDepth cfg)%nat; [|apply preserves_ret; apply _].
  apply preserves_bind; [apply _| |intros links].
  { intros s. apply slot_ungated, inner_is_slot, extractLinks_inner. }
  apply preserves_modify. intros s. split; reflexivity.
Qed.

Lemma processItem_paced item s : paced cfg s -> paced cfg (snd (processItem cfg P net item s)).
Proof.
  intros Hs. rewrite processItem_unroll, rateLimitedRequest_unroll.
  destruct (processingQueue s); [exact Hs|]. destruct (stopFlag s); [exact Hs|].
  pose proof (paced_ungated cfg _ _ (requestFn_ungated item (gateOpen cfg net s))
                (gateOpen_paced s Hs)) as Hr.
  destruct (requestFn cfg P net item (gateOpen cfg net s)) as [[[]|e| |] s3]; cbn [snd] in *;
    try exact Hr.
  - eapply paced_ungated; [apply slot_ungated, inner_is_slot, delay_inner|exact Hr].
  - eapply paced_ungated; [apply slot_ungated, inner_is_slot, delay_inner|exact Hr].
Qed.

Lemma crawlWorker_paced fuel s : paced cfg s -> paced cfg (snd (crawlWorker cfg P net fuel s)).
Proof.
  revert s. induction fuel as [|fuel IH]; intros s Hs; [exact Hs|].
  cbn [crawlWorker]. destruct (workerCondition cfg s); [|exact Hs].
  destruct (queue s) as [|item rest]; [exact Hs|].
  assert (H0 : paced cfg (with_queue rest s)) by exact Hs.
  destruct (bool_decide _); [apply IH; exact H0|].
  unfold bind. pose proof (processItem_paced item _ H0) as Hp.
  destruct (processItem cfg P net item (with_queue rest s)) as [[[]|e| |] s1];
    cbn [snd] in *; try exact Hp.
  apply IH; exact Hp.
Qed.

Lemma startCrawl_paced fuel startUrl cache last now :
  paced cfg (snd (startCrawl cfg P net fuel startUrl (idleEngine cache last now))).
Proof.
  rewrite startCrawl_unroll.
  assert (H0 : paced cfg (seeded startUrl (idleEngine cache last now))).
  { split; cbn; [exact I|discriminate]. }
  destruct (negb (isValidUrl P startUrl)); [exact H0|].
  assert (H : paced cfg (snd (processCrawlQueue cfg P net fuel
                                (seeded startUrl (idleEngine cache last now))))).
  { unfold processCrawlQueue. destruct (maxConcurrency cfg); [exact H0|].
    apply crawlWorker_paced; exact H0. }
  destruct (processCrawlQueue _ _ _ _ _) as [[[]|e| |] s1]; try exact H.
  destruct (negb (isAbort e)); exact H.
Qed.

(** *** Fetches that settle *)

Lemma jsFetch_responds o url timer s resp ms :
  aborted s = false ->
  replies net s ms (Responds resp) ->
  match timer with Some t => (Z.of_N ms < t)%Z | None => True end ->
  jsFetch net o url timer s = (Ret resp, answered o url ms s).
Proof.
  unfold replies, jsFetch, yield, answered. intros -> Hnet Ht. cbn [fst snd]. fields.
  rewrite Hnet. cbn [stopNow elapsed settles].
  destruct timer as [t|]; [|reflexivity].
  destruct (Z.leb_spec t (Z.of_N ms)); [lia|reflexivity].
Qed.

Lemma jsFetch_fails o url timer s msg ms :
  aborted s = false ->
  replies net s ms (NetworkError msg) ->
  match timer with Some t => (Z.of_N ms < t)%Z | None => True end ->
  jsFetch net o url timer s = (Throw (typeError msg), answered o url ms s).
Proof.
  unfold replies, jsFetch, yield, answered. intros -> Hnet Ht. cbn [fst snd]. fields.
  rewrite Hnet. cbn [stopNow elapsed settles].
  destruct timer as [t|]; [|reflexivity].
  destruct (Z.leb_spec t (Z.of_N ms)); [lia|reflexivity].
Qed.

(** *** The robots cache during a crawl *)

Lemma requestFn_frame item : preserves frame (requestFn cfg P net item).
Proof.
  unfold requestFn.
  apply preserves_bind; [apply _|apply slot_weaken, crawlPage_slot|].
  intros [pd|]; [|apply preserves_ret; apply _].
  apply preserves_bind; [apply _| |intros _].
  { apply preserves_modify. intros s. split; fields; auto; reflexivity. }
  apply preserves_bind; [apply _| |intros _].
  { apply preserves_modify. intros s. split; fields; auto; reflexivity. }
  destruct (wi_depth item <? maxDepth cfg)%nat; [|apply preserves_ret; apply _].
  apply preserves_bind; [apply _|apply slot_weaken, inner_weaken, extractLinks_inner|].
  intros links. apply preserves_modify. intros s. split; fields; auto; reflexivity.
Qed.

Lemma processItem_frame item : preserves frame (processItem cfg P net item).
Proof.
  intros s. rewrite processItem_unroll, rateLimitedRequest_unroll.
  destruct (processingQueue s); [reflexivity|]. destruct (stopFlag s); [reflexivity|].
  assert (Hr : frame s (snd (requestFn cfg P net item (gateOpen cfg net s)))).
  { etransitivity; [apply gateOpen_frame|apply requestFn_frame]. }
  destruct (requestFn cfg P net item (gateOpen cfg net s)) as [[[]|e| |] s3]; cbn [snd] in *;
    try exact Hr.
  - etransitivity; [exact Hr|]. transitivity (gateClose s3).
    { split; fields; auto; reflexivity. }
    apply (slot_is_frame _ _ (inner_is_slot _ _ (delay_inner 100 (gateClose s3)))).
  - etransitivity; [exact Hr|]. transitivity (recordError (wi_url item) e (gateClose s3)).
    { unfold recordError, handleCrawlError, bind, modify. split; fields; auto; reflexivity. }
    apply (slot_is_frame _ _ (inner_is_slot _ _
             (delay_inner 100 (recordError (wi_url item) e (gateClose s3))))).
Qed.

Lemma crawlWorker_frame fuel : preserves frame (crawlWorker cfg P net fuel).
Proof.
  induction fuel as [|fuel IH]; intros s; [reflexivity|].
  cbn [crawlWorker]. destruct (workerCondition cfg s); [|reflexivity].
  destruct (queue s) as [|item rest]; [reflexivity|].
  assert (H0 : frame s (with_queue rest s)) by (split; fields; auto; reflexivity).
  destruct (bool_decide _).
  - etransitivity; [exact H0|apply IH].
  - etransitivity; [exact H0|].
    apply preserves_bind; [apply _|apply processItem_frame|intros _; apply IH].
Qed.

(** *** A response that [crawlPage] rejects *)

Lemma rejection_not_abort resp : isAbort (rejectionOf resp) = false.
Proof. unfold rejectionOf. destruct (negb (r_ok resp)); reflexivity. Qed.

Lemma fetchesOf_dispatch o l t : fetchesOf o (l ++ [Dispatch t]) = fetchesOf o l.
Proof. rewrite fetchesOf_app. cbn. apply app_nil_r. Qed.

Lemma processItem_rejected item s resp ms :
  processingQueue s = false ->
  stopFlag s = false ->
  wi_url item ∉ visited s ->
  letsThrough cfg P net (wi_url item) (gateOpen cfg net s) ->
  aborted (atPageFetch cfg P net (wi_url item) s) = false ->
  replies net (atPageFetch cfg P net (wi_url item) s) ms (Responds resp) ->
  (Z.of_N ms < timeout cfg)%Z ->
  rejectedResponse resp = true ->
  let s' := snd (processItem cfg P net item s) in
  fst (processItem cfg P net item s) = Ret tt /\
  (index s' = index s /\
   fetchesOf PageFetch (log s') = fetchesOf PageFetch (log s) ++ [wi_url item] /\
   fetchesOf LinkFetch (log s') = fetchesOf LinkFetch (log s)) /\
  (maxRetries cfg = 0 ->
   errors s' = errors s ++
     [{| ce_url := wi_url item;
         ce_error := err_message (rejectionOf resp);
         ce_timestamp := clock (atPageFetch cfg P net (wi_url item) s) + Z.of_N ms |}]).
Proof.
  intros Hbusy Hstop Hnew (allowed & Hgate & Hallow) Hab Hnet Hms Hrej. cbn zeta.
  unfold atPageFetch in *.
  destruct (gateOpen_fields s) as (_ & Hidx0 & Herr0 & Hvis0 & Hpages0).
  destruct (gateOpen_log s) as (Hlog0 & _).
  pose proof (robotsGate_inner (wi_url item) (gateOpen cfg net s))
    as [[_ _ Hidx1 Herr1 _ _ _] _ Hpages1].
  destruct (robotsGate_log (wi_url item) (gateOpen cfg net s)) as (robots & Hlog1 & Hrobots).
  apply robotsOnly_quiet in Hrobots as (_ & _ & Hquiet).
  set (s1 := snd (robotsGate cfg P net (wi_url item) (gateOpen cfg net s))) in *.
  set (s3 := answered PageFetch (wi_url item) ms (claim (wi_url item) s1)).
  assert (Hcp : crawlPage cfg P net (S (maxRetries cfg)) (wi_url item) (wi_depth item)
                  (wi_referrer item) 0 (gateOpen cfg net s)
                = onFailure cfg net (maxRetries cfg) 0 (rejectionOf resp) s3).
  { rewrite crawlPage_unroll. rewrite bool_decide_eq_false_2 by (rewrite Hvis0; exact Hnew).
    cbn zeta. rewrite Hgate, Hallow. fold s1. unfold fetchWithTimeout.
    rewrite (jsFetch_responds _ _ _ _ resp ms) by assumption.
    rewrite Hrej. reflexivity. }
  assert (Hfields3 : errors s3 = errors s /\ index s3 = index s).
  { subst s3. unfold answered, claim. fields. rewrite Herr1, Herr0, Hidx1, Hidx0. split; reflexivity. }
  destruct Hfields3 as (Herr3 & Hidx3).
  assert (Hpages3 : fetchesOf PageFetch (log s3) = fetchesOf PageFetch (log s) ++ [wi_url item]).
  { subst s3. unfold answered, claim. fields. rewrite fetchesOf_app, Hpages1, Hpages0.
    reflexivity. }
  assert (Hlinks3 : fetchesOf LinkFetch (log s3) = fetchesOf LinkFetch (log s)).
  { subst s3. unfold answered, claim. fields. rewrite fetchesOf_app, Hlog1, fetchesOf_app.
    rewrite Hquiet, Hlog0, fetchesOf_dispatch. cbn. rewrite !app_nil_r. reflexivity. }
  rewrite processItem_unroll, rateLimitedRequest_unroll, Hbusy, Hstop, requestFn_unroll, Hcp.
  unfold onFailure. rewrite rejection_not_abort. cbn [negb]. rewrite andb_true_r.
  destruct (maxRetries cfg) as [|n] eqn:Hm; cbn [Nat.ltb Nat.leb].
  - cbn [fst snd]. split; [reflexivity|].
    rewrite delay_log, (slot_index _ _ (inner_slot _ _ (delay_inner 100 _))).
    rewrite (slot_errors _ _ (inner_slot _ _ (delay_inner 100 _))).
    unfold recordError, handleCrawlError, bind, modify, gateClose, release. fields.
    rewrite Hidx3, Hpages3, Hlinks3, Herr3.
    split; [repeat split|]. intros _.
    subst s3. unfold answered. fields. rewrite Z.add_0_r. reflexivity.
  - cbn [fst snd]. split; [reflexivity|].
    rewrite !delay_log, (slot_index _ _ (inner_slot _ _ (delay_inner 100 _))).
    unfold gateClose, release. fields.
    rewrite delay_log, (slot_index _ _ (inner_slot _ _ (delay_inner _ _))).
    rewrite Hidx3, Hpages3, Hlinks3.
    split; [repeat split|]. intros [=].
Qed.

(** *** Termination *)

Lemma jsFetch_settles o url timer s : settled (fst (jsFetch net o url timer s)).
Proof.
  unfold jsFetch. destruct (aborted s); [exact I|]. destruct (stopNow _); [exact I|].
  destruct (match timer with Some _ => _ | None => _ end); [exact I|].
  destruct (settles _); exact I.
Qed.

(** The budget [maxRetries + 1] that [requestFn] gives [crawlPage] is
    enough: the call settles. *)
Lemma crawlPage_settles url depth referrer s :
  settled (fst (crawlPage cfg P net (S (maxRetries cfg)) url depth referrer 0 s)).
Proof.
  rewrite crawlPage_unroll. destruct (bool_decide _); [exact I|]. cbn zeta.
  destruct (robotsGate_returns url s) as (allowed & Hg). rewrite Hg. cbn [fst snd].
  destruct (respectRobots cfg && negb allowed); [exact I|].
  assert (Hfail : forall e s3, settled (fst (onFailure cfg net (maxRetries cfg) 0 e s3))).
  { intros e s3. unfold onFailure.
    destruct (maxRetries cfg) as [|n]; cbn [Nat.ltb Nat.leb andb]; [exact I|].
    destruct (negb (isAbort e)); exact I. }
  pose proof (jsFetch_settles PageFetch url (Some (timeout cfg))
                (claim url (snd (robotsGate cfg P net url s)))) as Hf.
  unfold fetchWithTimeout.
  destruct (jsFetch _ _ _ _ _) as [[response|e| |] s3]; cbn [fst] in Hf; try contradiction.
  - destruct (rejectedResponse response); [apply Hfail|exact I].
  - apply Hfail.
Qed.

Lemma extractLinks_returns url nextDepth s :
  exists links, fst (extractLinks cfg P net url nextDepth s) = Ret links.
Proof.
  destruct (extractLinks_value url nextDepth s) as [H|(response & baseUrl & _ & _ & H)];
    eexists; exact H.
Qed.

Lemma requestFn_settles item s : settled (fst (requestFn cfg P net item s)).
Proof.
  rewrite requestFn_unroll.
  pose proof (crawlPage_settles (wi_url item) (wi_depth item) (wi_referrer item) s) as Hc.
  destruct (crawlPage _ _ _ _ _ _ _ _ s) as [[[pd|]|e| |] s1]; cbn [fst] in Hc;
    try contradiction; try exact I.
  destruct (wi_depth item <? maxDepth cfg)%nat; [|exact I].
  destruct (extractLinks_returns (wi_url item) (wi_depth item + 1) (recordPage pd s1))
    as (links & Hl).
  destruct (extractLinks _ _ _ _ _ _) as [[l|e| |] s3]; cbn [fst] in Hl; try discriminate.
  exact I.
Qed.

(** A pass of the loop body never exhausts the unrolling budget, and it
    either records a page or leaves both the results and the frontier as
    they were. *)
Lemma processItem_progress item s :
  fst (processItem cfg P net item s) <> OutOfFuel /\
  ((index (snd (processItem cfg P net item s)) = index s /\
    queue (snd (processItem cfg P net item s)) = queue s) \/
   exists pd, index (snd (processItem cfg P net item s)) = index s ++ [pd]).
Proof.
  rewrite processItem_unroll, rateLimitedRequest_unroll.
  destruct (processingQueue s); [split; [discriminate|left; split; reflexivity]|].
  destruct (stopFlag s); [split; [discriminate|left; split; reflexivity]|].
  destruct (gateOpen_fields s) as (Hq0 & Hi0 & _).
  pose proof (requestFn_settles item (gateOpen cfg net s)) as Hsettled.
  assert (Hreq :
    (index (snd (requestFn cfg P net item (gateOpen cfg net s))) = index s /\
     queue (snd (requestFn cfg P net item (gateOpen cfg net s))) = queue s) \/
    exists pd, index (snd (requestFn cfg P net item (gateOpen cfg net s))) = index s ++ [pd]).
  { rewrite <- Hq0, <- Hi0. rewrite requestFn_unroll.
    pose proof (crawlPage_slot (S (maxRetries cfg)) (wi_url item) (wi_depth item)
                  (wi_referrer item) 0 (gateOpen cfg net s)) as Hs.
    destruct (crawlPage _ _ _ _ _ _ _ _ _) as [[[pd|]|e| |] s1] eqn:Hc; cbn [snd] in *;
      try (left; split; [apply (slot_index _ _ Hs)|apply (slot_queue _ _ Hs)]).
    right. exists pd.
    destruct (wi_depth item <? maxDepth cfg)%nat.
    - pose proof (extractLinks_inner (wi_url item) (wi_depth item + 1) (recordPage pd s1)) as Hi.
      destruct (extractLinks _ _ _ _ _ _) as [[l|e| |] s3]; cbn [snd] in *; fields;
        rewrite (slot_index _ _ (inner_slot _ _ Hi)); unfold recordPage; fields;
        rewrite (slot_index _ _ Hs); reflexivity.
    - cbn [snd]. unfold recordPage; fields. rewrite (slot_index _ _ Hs); reflexivity. }
  destruct (requestFn cfg P net item (gateOpen cfg net s)) as [[[]|e| |] s3];
    cbn [fst snd] in *; try contradiction.
  - split; [discriminate|].
    rewrite (slot_index _ _ (inner_slot _ _ (delay_inner 100 _))).
    rewrite (slot_queue _ _ (inner_slot _ _ (delay_inner 100 _))). exact Hreq.
  - split; [discriminate|].
    rewrite (slot_index _ _ (inner_slot _ _ (delay_inner 100 _))).
    rewrite (slot_queue _ _ (inner_slot _ _ (delay_inner 100 _))).
    unfold recordError, handleCrawlError, bind, modify. fields. exact Hreq.
Qed.

(** The worker loop ends: some number of passes is enough. *)
Lemma crawlWorker_terminates s :
  exists fuel, fst (crawlWorker cfg P net fuel s) <> OutOfFuel.
Proof.
  remember (maxPages cfg - length (index s)) as k eqn:Hk.
  assert (Hk' : maxPages cfg - length (index s) <= k) by lia. clear Hk.
  remember (length (queue s)) as q eqn:Hq.
  assert (Hq' : length (queue s) <= q) by lia. clear Hq.
  revert q s Hk' Hq'. induction k as [|k IHk].
  - intros q s Hk _. exists 1. cbn [crawlWorker]. unfold workerCondition.
    destruct (Nat.ltb_spec (length (index s)) (maxPages cfg)); [lia|].
    rewrite andb_false_r. discriminate.
  - induction q as [|q IHq]; intros s Hk Hq.
    + exists 1. cbn [crawlWorker]. unfold workerCondition.
      destruct (queue s); [|cbn in Hq; lia]. cbn. rewrite andb_false_r. discriminate.
    + destruct (workerCondition cfg s) eqn:Hcond.
      2:{ exists 1. cbn [crawlWorker]. rewrite Hcond. discriminate. }
      destruct (queue s) as [|item rest] eqn:Hqueue.
      { exists 1. cbn [crawlWorker]. rewrite Hcond, Hqueue. discriminate. }
      cbn in Hq.
      destruct (bool_decide (wi_url item ∈ visited (with_queue rest s))) eqn:Hseen.
      * destruct (IHq (with_queue rest s)) as (fuel & Hfuel); [exact Hk|cbn; lia|].
        exists (S fuel). cbn [crawlWorker]. rewrite Hcond, Hqueue, Hseen. exact Hfuel.
      * destruct (processItem_progress item (with_queue rest s)) as (Hno & Hprog).
        destruct (processItem cfg P net item (with_queue rest s)) as [o s2] eqn:Hp.
        cbn [fst snd] in *.
        assert (Hnext : exists fuel, fst (crawlWorker cfg P net fuel s2) <> OutOfFuel).
        { destruct Hprog as [[Hi Hq2]|(pd & Hi)].
          - apply IHq; [rewrite Hi; exact Hk|rewrite Hq2; cbn; lia].
          - apply (IHk (length (queue s2))); [|lia].
            rewrite Hi, length_app. cbn. unfold workerCondition in Hcond.
            apply andb_prop in Hcond as [_ Hlt]. apply Nat.ltb_lt in Hlt. lia. }
        destruct Hnext as (fuel & Hfuel). exists (S fuel).
        cbn [crawlWorker]. rewrite Hcond, Hqueue, Hseen. unfold bind. rewrite Hp.
        destruct o as [[]|e| |]; cbn [fst]; try discriminate; [exact Hfuel|].
        congruence.
Qed.

End EngineFacts.

(** ** Page cap *)

(** C6.  However far the crawl has got (after any number of passes of the
    worker loop, and when it ends), the list of page records is no longer
    than [maxPages]; and the crawl does end.  The worker tests the cap
    before it takes an item, an item adds at most one record, and only one
    worker ever holds an item: the others find the queue empty when they
    start. *)
Theorem C6_page_cap :
  forall cfg P net startUrl s,
    (forall fuel,
        length (index (snd (startCrawl cfg P net fuel startUrl s))) <= maxPages cfg) /\
    (exists fuel, fst (startCrawl cfg P net fuel startUrl s) <> OutOfFuel).
Proof.
  intros cfg P net startUrl s. split.
  - intros fuel. rewrite startCrawl_unroll.
    destruct (negb (isValidUrl P startUrl)); [cbn; lia|].
    assert (H : length (index (snd (processCrawlQueue cfg P net fuel (seeded startUrl s))))
                <= maxPages cfg).
    { unfold processCrawlQueue. destruct (maxConcurrency cfg); [cbn; lia|].
      apply crawlWorker_cap. cbn. lia. }
    destruct (processCrawlQueue _ _ _ _ _) as [[[]|e| |] s1]; try exact H.
    destruct (negb (isAbort e)); exact H.
  - destruct (crawlWorker_terminates cfg P net (seeded startUrl s)) as (fuel & Hfuel).
    exists fuel. rewrite startCrawl_unroll.
    destruct (negb (isValidUrl P startUrl)); [discriminate|].
    unfold processCrawlQueue. destruct (maxConcurrency cfg); [discriminate|].
    destruct (crawlWorker cfg P net fuel (seeded startUrl s)) as [[[]|e| |] s1];
      cbn [fst] in *; try discriminate; [|congruence].
    destruct (negb (isAbort e)); discriminate.
Qed.

(** ** Link discovery and domain confinement *)

Lemma demo_hostnameStable : hostnameStable Demo.platform.
Proof.
  intros u a H. cbn in H.
  repeat (match type of H with
          | (if ?b then _ else _) = _ => destruct b
          end; [injection H as <-; eexists; split; reflexivity|]).
  discriminate.
Qed.

Section LinkFacts.

Variable cfg : Config.
Variable P : Platform.
Variable net : nat -> Reply.

(** A request that returned a response was answered with it, before its
    timer fired. *)
Lemma jsFetch_replied o url t s r s' :
  jsFetch net o url (Some t) s = (Ret r, s') ->
  exists ms, replies net s ms (Responds r) /\ (Z.of_N ms < t)%Z.
Proof.
  unfold jsFetch, yield, replies. destruct (aborted s); [discriminate|]. fields.
  destruct (net (ticks s)) as [stop ms res]. cbn [stopNow elapsed settles].
  destruct stop; [discriminate|].
  destruct (Z.leb_spec t (Z.of_N ms)) as [_|Hms]; [discriminate|].
  destruct res as [resp|msg]; [|discriminate].
  intros Heq. injection Heq as <- _. exists ms. split; [reflexivity|exact Hms].
Qed.

(** [extractLinks] when its request is answered: the links are those of the
    body it received. *)
Lemma extractLinks_answered url nextDepth s response ms baseUrl :
  aborted s = false ->
  replies net s ms (Responds response) ->
  (Z.of_N ms < timeout cfg)%Z ->
  newURL P url = Some baseUrl ->
  extractLinks cfg P net url nextDepth s
  = (Ret (linksOf P url (r_body response) nextDepth (visited s) baseUrl),
     answered LinkFetch url ms s).
Proof.
  intros Hab Hreply Hms Hbase. unfold extractLinks, tryCatch, bind, fetchWithTimeout.
  rewrite (jsFetch_responds net LinkFetch url (Some (timeout cfg)) s response ms Hab Hreply Hms).
  rewrite Hbase. reflexivity.
Qed.

(** What a request appends to the frontier when its page is recorded below
    the depth limit and the second request for the page is answered. *)
Lemma requestFn_queues item s pd s1 response ms baseUrl :
  crawlPage cfg P net (S (maxRetries cfg)) (wi_url item) (wi_depth item)
    (wi_referrer item) 0 s = (Ret (Some pd), s1) ->
  wi_depth item < maxDepth cfg ->
  replies net (recordPage pd s1) ms (Responds response) ->
  (Z.of_N ms < timeout cfg)%Z ->
  newURL P (wi_url item) = Some baseUrl ->
  queue (snd (requestFn cfg P net item s))
  = queue s ++ linksOf P (wi_url item) (r_body response) (wi_depth item + 1)
                 (visited s1) baseUrl.
Proof.
  intros Hc Hdepth Hreply Hms Hbase.
  pose proof (crawlPage_slot cfg P net (S (maxRetries cfg)) (wi_url item) (wi_depth item)
                (wi_referrer item) 0 s) as Hs.
  rewrite requestFn_unroll, Hc. rewrite Hc in Hs. cbn [snd] in Hs.
  destruct (Nat.ltb_spec (wi_depth item) (maxDepth cfg)) as [_|Hge]; [|lia].
  apply crawlPage_success in Hc as (robots & t & _ & _ & Hab & _).
  rewrite (extractLinks_answered (wi_url item) (wi_depth item + 1) (recordPage pd s1)
             response ms baseUrl); try assumption.
  unfold answered, recordPage. fields. rewrite (slot_queue _ _ Hs). reflexivity.
Qed.

(** Nothing else is ever appended by a request. *)
Lemma requestFn_queue_cases item s :
  queue (snd (requestFn cfg P net item s)) = queue s \/
  exists pd s1 response ms baseUrl,
    crawlPage cfg P net (S (maxRetries cfg)) (wi_url item) (wi_depth item)
      (wi_referrer item) 0 s = (Ret (Some pd), s1) /\
    wi_depth item < maxDepth cfg /\
    replies net (recordPage pd s1) ms (Responds response) /\
    (Z.of_N ms < timeout cfg)%Z /\
    newURL P (wi_url item) = Some baseUrl /\
    queue (snd (requestFn cfg P net item s))
    = queue s ++ linksOf P (wi_url item) (r_body response) (wi_depth item + 1)
                   (visited s1) baseUrl.
Proof.
  pose proof (crawlPage_slot cfg P net (S (maxRetries cfg)) (wi_url item) (wi_depth item)
                (wi_referrer item) 0 s) as Hs.
  destruct (crawlPage cfg P net (S (maxRetries cfg)) (wi_url item) (wi_depth item)
              (wi_referrer item) 0 s) as [[[pd|]|e| |] s1] eqn:Hc; cbn [snd] in Hs;
    try (left; rewrite requestFn_unroll, Hc; cbn [snd]; apply (slot_queue _ _ Hs)).
  destruct (Nat.ltb_spec (wi_depth item) (maxDepth cfg)) as [Hdepth|Hdepth].
  2:{ left. rewrite requestFn_unroll, Hc.
      destruct (Nat.ltb_spec (wi_depth item) (maxDepth cfg)); [lia|].
      cbn [snd]. unfold recordPage. fields. apply (slot_queue _ _ Hs). }
  pose proof (extractLinks_inner cfg P net (wi_url item) (wi_depth item + 1)
                (recordPage pd s1)) as Hi.
  destruct (extractLinks_value cfg P net (wi_url item) (wi_depth item + 1) (recordPage pd s1))
    as [Hnone|(response & baseUrl & Hbase & Hfetch & _)].
  - left. rewrite requestFn_unroll, Hc.
    destruct (Nat.ltb_spec (wi_depth item) (maxDepth cfg)); [|lia].
    destruct (extractLinks cfg P net (wi_url item) (wi_depth item + 1) (recordPage pd s1))
      as [[l|e| |] s3]; cbn [fst snd] in *; try discriminate.
    injection Hnone as ->. fields. rewrite app_nil_r.
    rewrite (slot_queue _ _ (inner_slot _ _ Hi)). unfold recordPage. fields.
    apply (slot_queue _ _ Hs).
  - right. unfold fetchWithTimeout in Hfetch.
    destruct (jsFetch net LinkFetch (wi_url item) (Some (timeout cfg)) (recordPage pd s1))
      as [o s3] eqn:Hj. cbn [fst] in Hfetch. subst o.
    apply jsFetch_replied in Hj as (ms & Hreply & Hms).
    exists pd, s1, response, ms, baseUrl. repeat split; try assumption.
    apply (requestFn_queues item s pd s1 response ms baseUrl); assumption.
Qed.

(** The links of a document that qualify for the frontier. *)
Lemma keepLink_qualifies page seen baseUrl l :
  hostnameStable P ->
  newURL P (wi_url page) = Some baseUrl ->
  keepLink P seen (u_href baseUrl) l = true <->
  isValidUrl P (wi_url l) = true /\ sameHost P (wi_url l) (wi_url page) /\
  (wi_url l ∉ seen).
Proof.
  intros Hstable Hbase. unfold keepLink.
  destruct (Hstable _ _ Hbase) as (b & Hb & Hh).
  rewrite !andb_true_iff, negb_true_iff, bool_decide_eq_false. unfold isSameDomain.
  rewrite Hb. split.
  - intros [[Hvalid Hseen] Hdom]. split; [exact Hvalid|]. split; [|exact Hseen].
    destruct (newURL P (wi_url l)) as [a|] eqn:Ha; [|discriminate].
    apply String.eqb_eq in Hdom. exists a, baseUrl. repeat split; try assumption. congruence.
  - intros (Hvalid & (a & b' & Ha & Hb' & Hab) & Hseen).
    rewrite Hbase in Hb'. injection Hb' as <-. rewrite Ha.
    repeat split; try assumption. apply String.eqb_eq. congruence.
Qed.

Lemma linksOf_first_twenty page html seen baseUrl :
  hostnameStable P ->
  newURL P (wi_url page) = Some baseUrl ->
  exists qualified,
    linksOf P (wi_url page) html (wi_depth page + 1) seen baseUrl = take 20 qualified /\
    qualified `sublist_of`
      omap (toLink P (wi_url page) (wi_depth page + 1)) (anchors P html) /\
    forall l,
      l ∈ qualified <->
      l ∈ omap (toLink P (wi_url page) (wi_depth page + 1)) (anchors P html) /\
      isValidUrl P (wi_url l) = true /\ sameHost P (wi_url l) (wi_url page) /\
      (wi_url l ∉ seen).
Proof.
  intros Hstable Hbase.
  exists (List.filter (keepLink P seen (u_href baseUrl))
            (omap (toLink P (wi_url page) (wi_depth page + 1)) (anchors P html))).
  split; [reflexivity|]. split; [apply filter_sublist|].
  intros l. rewrite list_elem_of_In, filter_In, <- list_elem_of_In.
  rewrite (keepLink_qualifies page seen baseUrl l Hstable Hbase). reflexivity.
Qed.

End LinkFacts.

(** C8.  The work items a request appends to the frontier are the links of
    the document that [extractLinks] received for the page: when the page
    is recorded below the depth limit and the second request for its URL
    is answered, the frontier grows by exactly [linksOf] of the body of
    that answer, and in every other case it does not grow.  These links
    are the first 20, in document order, of the resolved [href]s of that
    document that are valid http(s) URLs on the page's own host and were
    not in the visited set when the links were filtered; each has the
    page's depth plus one and the page's URL as referrer.  As the seed is
    the first page, everything queued and every page record is on the
    seed's host.  Assumes that a parsed URL keeps its host name when
    serialised and parsed again. *)
Theorem C8_link_discovery :
  forall cfg P net,
    hostnameStable P ->
    (forall item s pd s1 response ms baseUrl,
        crawlPage cfg P net (S (maxRetries cfg)) (wi_url item) (wi_depth item)
          (wi_referrer item) 0 s = (Ret (Some pd), s1) ->
        wi_depth item < maxDepth cfg ->
        replies net (recordPage pd s1) ms (Responds response) ->
        (Z.of_N ms < timeout cfg)%Z ->
        newURL P (wi_url item) = Some baseUrl ->
        queue (snd (requestFn cfg P net item s))
        = queue s ++ linksOf P (wi_url item) (r_body response) (wi_depth item + 1)
                       (visited s1) baseUrl) /\
    (forall item s,
        queue (snd (requestFn cfg P net item s)) = queue s \/
        exists pd s1 response ms baseUrl,
          crawlPage cfg P net (S (maxRetries cfg)) (wi_url item) (wi_depth item)
            (wi_referrer item) 0 s = (Ret (Some pd), s1) /\
          wi_depth item < maxDepth cfg /\
          replies net (recordPage pd s1) ms (Responds response) /\
          (Z.of_N ms < timeout cfg)%Z /\
          newURL P (wi_url item) = Some baseUrl /\
          queue (snd (requestFn cfg P net item s))
          = queue s ++ linksOf P (wi_url item) (r_body response) (wi_depth item + 1)
                         (visited s1) baseUrl) /\
    (forall page html seen baseUrl,
        newURL P (wi_url page) = Some baseUrl ->
        length (linksOf P (wi_url page) html (wi_depth page + 1) seen baseUrl) <= 20 /\
        linksOf P (wi_url page) html (wi_depth page + 1) seen baseUrl
          `sublist_of` omap (toLink P (wi_url page) (wi_depth page + 1)) (anchors P html) /\
        Forall (discoveredFrom P page html seen)
          (linksOf P (wi_url page) html (wi_depth page + 1) seen baseUrl) /\
        exists qualified,
          linksOf P (wi_url page) html (wi_depth page + 1) seen baseUrl = take 20 qualified /\
          qualified `sublist_of`
            omap (toLink P (wi_url page) (wi_depth page + 1)) (anchors P html) /\
          forall l,
            l ∈ qualified <->
            l ∈ omap (toLink P (wi_url page) (wi_depth page + 1)) (anchors P html) /\
            isValidUrl P (wi_url l) = true /\ sameHost P (wi_url l) (wi_url page) /\
            (wi_url l ∉ seen)) /\
    (forall fuel startUrl s,
        Forall (fun wi => sameHost P (wi_url wi) startUrl)
          (queue (snd (startCrawl cfg P net fuel startUrl s))) /\
        Forall (fun pd => sameHost P (pr_url pd) startUrl)
          (index (snd (startCrawl cfg P net fuel startUrl s)))).
Proof.
  intros cfg P net Hstable. split; [|split; [|split]].
  - intros item s pd s1 response ms baseUrl. apply requestFn_queues.
  - intros item s. apply requestFn_queue_cases.
  - intros page html seen baseUrl Hbase.
    split; [apply linksOf_length|]. split; [apply linksOf_sublist|]. split.
    + apply Forall_forall. intros l Hl. apply (linksOf_spec P page html seen baseUrl); assumption.
    + apply linksOf_first_twenty; assumption.
  - intros fuel startUrl s. apply startCrawl_confined. assumption.
Qed.

Lemma C8_link_discovery_witness :
  hostnameStable Demo.platform /\
  (crawlPage (Demo.withoutRobots Demo.defaults) Demo.platform Demo.healthy 3
     Demo.seed 0 None 0 (newEngine Demo.t0) = (Ret (Some Demo.homeRecord), homeFetched) /\
   0 < maxDepth (Demo.withoutRobots Demo.defaults) /\
   replies Demo.healthy (recordPage Demo.homeRecord homeFetched) 5
     (Responds (Demo.html Demo.homeHtml)) /\
   (Z.of_N 5 < timeout (Demo.withoutRobots Demo.defaults))%Z /\
   newURL Demo.platform Demo.seed = Some (Demo.mkUrl "https:" "site.test" "/")) /\
  queue (snd (requestFn (Demo.withoutRobots Demo.defaults) Demo.platform Demo.healthy
                (seedItem Demo.seed) (newEngine Demo.t0)))
  = queue (newEngine Demo.t0)
    ++ linksOf Demo.platform Demo.seed (r_body (Demo.html Demo.homeHtml)) (0 + 1)
         (visited homeFetched) (Demo.mkUrl "https:" "site.test" "/") /\
  linksOf Demo.platform Demo.seed (r_body (Demo.html Demo.homeHtml)) (0 + 1)
    (visited homeFetched) (Demo.mkUrl "https:" "site.test" "/") = homeLinks /\
  Forall (fun pd => sameHost Demo.platform (pr_url pd) Demo.seed)
    (index (snd (startCrawl (Demo.withoutRobots Demo.defaults) Demo.platform Demo.healthy
                   10 Demo.seed (newEngine Demo.t0)))).
Proof.
  assert (H1 : crawlPage (Demo.withoutRobots Demo.defaults) Demo.platform Demo.healthy 3
                 Demo.seed 0 None 0 (newEngine Demo.t0)
               = (Ret (Some Demo.homeRecord), homeFetched)) by reflexivity.
  assert (H2 : 0 < maxDepth (Demo.withoutRobots Demo.defaults)) by (cbn; lia).
  assert (H3 : replies Demo.healthy (recordPage Demo.homeRecord homeFetched) 5
                 (Responds (Demo.html Demo.homeHtml))) by reflexivity.
  assert (H4 : (Z.of_N 5 < timeout (Demo.withoutRobots Demo.defaults))%Z) by reflexivity.
  assert (H5 : newURL Demo.platform Demo.seed = Some (Demo.mkUrl "https:" "site.test" "/"))
    by reflexivity.
  pose proof (C8_link_discovery (Demo.withoutRobots Demo.defaults) Demo.platform Demo.healthy
                demo_hostnameStable) as (HA & _ & _ & HD).
  split; [exact demo_hostnameStable|]. split; [repeat split; assumption|].
  split; [|split].
  - exact (HA (seedItem Demo.seed) (newEngine Demo.t0) Demo.homeRecord homeFetched
             (Demo.html Demo.homeHtml) 5%N (Demo.mkUrl "https:" "site.test" "/")
             H1 H2 H3 H4 H5).
  - vm_compute. reflexivity.
  - exact (proj2 (HD 10 Demo.seed (newEngine Demo.t0))).
Defined.

(** ** The visited set *)

(** C4, as the code has it.  [crawlPage] marks a URL as visited only once
    the robots gate has let it through: a URL the gate denies is neither
    marked nor fetched.  A call changes the visited set at most by adding
    its own URL, which was not in it, and any page request it sends is for
    that URL, newly marked.  A URL that is already marked is not processed
    again: [crawlPage] returns without a result and without touching the
    engine, and the worker drops such an item when it dequeues it.  Over a
    crawl, every URL [crawlPage] has requested is in the visited set. *)
Theorem C4_visited_after_robots_gate :
  forall cfg P net,
    (forall fuel url depth referrer retryCount s,
        respectRobots cfg = true ->
        fst (isAllowedByRobots cfg P net url s) = Ret false ->
        let s' := snd (crawlPage cfg P net (S fuel) url depth referrer retryCount s) in
        visited s' = visited s /\
        fetchesOf PageFetch (log s') = fetchesOf PageFetch (log s)) /\
    (forall fuel url depth referrer retryCount s,
        let s' := snd (crawlPage cfg P net (S fuel) url depth referrer retryCount s) in
        (visited s' = visited s \/
         ((url ∉ visited s) /\ visited s' = {[url]} ∪ visited s)) /\
        exists new,
          fetchesOf PageFetch (log s') = fetchesOf PageFetch (log s) ++ new /\
          forall u, u ∈ new -> u = url /\ (url ∉ visited s) /\ url ∈ visited s') /\
    (forall fuel url depth referrer retryCount s,
        url ∈ visited s ->
        crawlPage cfg P net (S fuel) url depth referrer retryCount s = (Ret None, s)) /\
    (forall fuel s item rest,
        workerCondition cfg s = true ->
        queue s = item :: rest ->
        wi_url item ∈ visited s ->
        crawlWorker cfg P net (S fuel) s = crawlWorker cfg P net fuel (with_queue rest s)) /\
    (forall fuel startUrl cache last now u,
        u ∈ fetchesOf PageFetch
              (log (snd (startCrawl cfg P net fuel startUrl (idleEngine cache last now)))) ->
        u ∈ visited (snd (startCrawl cfg P net fuel startUrl (idleEngine cache last now)))).
Proof.
  intros cfg P net. split; [|split; [|split; [|split]]].
  - intros fuel url depth referrer retryCount s Hrobots Hdenied. cbn zeta.
    rewrite crawlPage_unroll.
    destruct (bool_decide (url ∈ visited s)); [split; reflexivity|]. cbn zeta.
    pose proof (robotsGate_inner cfg P net url s) as [_ Hv Hp].
    unfold robotsGate in *. rewrite Hrobots in *. rewrite Hdenied. cbn [andb negb].
    split; assumption.
  - intros fuel url depth referrer retryCount s. cbn zeta.
    destruct (crawlPage_pages cfg P net fuel url depth referrer retryCount s)
      as [[Hv Hp]|(Hnot & Hv & [Hp|Hp])].
    + split; [left; exact Hv|]. exists []. rewrite app_nil_r. split; [exact Hp|].
      intros u Hu. inversion Hu.
    + split; [right; split; assumption|]. exists []. rewrite app_nil_r. split; [exact Hp|].
      intros u Hu. inversion Hu.
    + split; [right; split; assumption|]. exists [url]. split; [exact Hp|].
      intros u Hu. apply list_elem_of_singleton in Hu as ->.
      repeat split; [assumption|]. rewrite Hv. apply elem_of_union_l, elem_of_singleton.
      reflexivity.
  - intros. apply crawlPage_seen. assumption.
  - intros fuel s item rest Hcond Hq Hseen. cbn [crawlWorker]. rewrite Hcond, Hq.
    rewrite bool_decide_eq_true_2 by exact Hseen. reflexivity.
  - intros fuel startUrl cache last now u.
    apply (proj2 (startCrawl_fetchedOnce cfg P net fuel startUrl cache last now)).
Qed.

Lemma C4_visited_after_robots_gate_witness :
  (respectRobots Demo.defaults = true /\
   fst (isAllowedByRobots Demo.defaults Demo.platform Demo.closedSite Demo.seed
          (newEngine Demo.t0)) = Ret false /\
   visited (snd (crawlPage Demo.defaults Demo.platform Demo.closedSite 3 Demo.seed 0 None 0
                   (newEngine Demo.t0))) = visited (newEngine Demo.t0)) /\
  (Demo.seed ∈ visited (claim Demo.seed (newEngine Demo.t0)) /\
   crawlPage Demo.defaults Demo.platform Demo.closedSite 3 Demo.seed 0 None 0
     (claim Demo.seed (newEngine Demo.t0)) = (Ret None, claim Demo.seed (newEngine Demo.t0))) /\
  (workerCondition Demo.defaults
     (with_queue [seedItem Demo.seed] (claim Demo.seed (newEngine Demo.t0))) = true /\
   crawlWorker Demo.defaults Demo.platform Demo.closedSite 1
     (with_queue [seedItem Demo.seed] (claim Demo.seed (newEngine Demo.t0)))
   = crawlWorker Demo.defaults Demo.platform Demo.closedSite 0
       (with_queue [] (with_queue [seedItem Demo.seed] (claim Demo.seed (newEngine Demo.t0))))).
Proof.
  assert (H1 : respectRobots Demo.defaults = true) by reflexivity.
  assert (H2 : fst (isAllowedByRobots Demo.defaults Demo.platform Demo.closedSite Demo.seed
                      (newEngine Demo.t0)) = Ret false) by reflexivity.
  assert (H3 : Demo.seed ∈ visited (claim Demo.seed (newEngine Demo.t0)))
    by (apply elem_of_union_l, elem_of_singleton; reflexivity).
  assert (H4 : workerCondition Demo.defaults
                 (with_queue [seedItem Demo.seed] (claim Demo.seed (newEngine Demo.t0)))
               = true) by reflexivity.
  pose proof (C4_visited_after_robots_gate Demo.defaults Demo.platform Demo.closedSite)
    as (Hdenied & _ & Hseen & Hdrop & _).
  split; [|split].
  - split; [exact H1|]. split; [exact H2|].
    exact (proj1 (Hdenied 2 Demo.seed 0 None 0 (newEngine Demo.t0) H1 H2)).
  - split; [exact H3|].
    exact (Hseen 2 Demo.seed 0 None 0 (claim Demo.seed (newEngine Demo.t0)) H3).
  - split; [exact H4|].
    exact (Hdrop 0 (with_queue [seedItem Demo.seed] (claim Demo.seed (newEngine Demo.t0)))
             (seedItem Demo.seed) [] H4 eq_refl H3).
Defined.

(** C4 as stated fails: on a site whose robots.txt closes everything the
    seed is dequeued, checked against robots.txt and skipped, and is not in
    the visited set afterwards. *)
Lemma C4_counterexample :
  let s' := snd (startCrawl Demo.defaults Demo.platform Demo.closedSite 10 Demo.seed
                   (newEngine Demo.t0)) in
  queue s' = [] /\
  fetchesOf RobotsFetch (log s') = ["https://site.test/robots.txt"%string] /\
  skipped s' = 1 /\
  ~ (Demo.seed ∈ visited s').
Proof.
  cbn zeta. repeat split; try (vm_compute; reflexivity).
  apply (bool_decide_eq_false_1 _). vm_compute. reflexivity.
Qed.

(** ** The second fetch of a recorded page *)

(** C10.  When a pass of the worker loop records a page for an item below
    the depth limit, the engine has let exactly one request through the rate
    limiter and then sent, after at most robots.txt traffic, one GET for
    the page's URL from [crawlPage] and a second one from [extractLinks];
    and the links [extractLinks] returns are computed from the body of its
    own response. *)
Theorem C10_page_fetched_twice :
  forall cfg P net,
    (forall item s pd,
        index (snd (processItem cfg P net item s)) = index s ++ [pd] ->
        (wi_depth item < maxDepth cfg)%nat ->
        exists t0 robots t1 t2,
          log (snd (processItem cfg P net item s)) =
            log s ++ Dispatch t0 :: robots
                  ++ [Fetch PageFetch (wi_url item) t1; Fetch LinkFetch (wi_url item) t2] /\
          robotsOnly robots /\ (t0 <= t1 <= t2)%Z) /\
    (forall url nextDepth s,
        fst (extractLinks cfg P net url nextDepth s) = Ret [] \/
        exists response baseUrl,
          newURL P url = Some baseUrl /\
          fst (fetchWithTimeout cfg net LinkFetch url s) = Ret response /\
          fst (extractLinks cfg P net url nextDepth s) =
            Ret (linksOf P url (r_body response) nextDepth
                   (visited (snd (extractLinks cfg P net url nextDepth s))) baseUrl)).
Proof.
  intros cfg P net. split.
  - intros item s pd. apply processItem_log.
  - intros url nextDepth s. apply extractLinks_value.
Qed.

Lemma C10_page_fetched_twice_witness :
  index (snd (processItem (Demo.withoutRobots Demo.defaults) Demo.platform Demo.healthy
                (seedItem Demo.seed) (newEngine Demo.t0)))
    = index (newEngine Demo.t0) ++ [Demo.homeRecord] /\
  (wi_depth (seedItem Demo.seed) < maxDepth (Demo.withoutRobots Demo.defaults))%nat /\
  exists t0 robots t1 t2,
    log (snd (processItem (Demo.withoutRobots Demo.defaults) Demo.platform Demo.healthy
                (seedItem Demo.seed) (newEngine Demo.t0))) =
      log (newEngine Demo.t0) ++ Dispatch t0 :: robots
        ++ [Fetch PageFetch Demo.seed t1; Fetch LinkFetch Demo.seed t2] /\
    robotsOnly robots /\ (t0 <= t1 <= t2)%Z.
Proof.
  assert (H1 : index (snd (processItem (Demo.withoutRobots Demo.defaults) Demo.platform
                             Demo.healthy (seedItem Demo.seed) (newEngine Demo.t0)))
               = index (newEngine Demo.t0) ++ [Demo.homeRecord]) by (vm_compute; reflexivity).
  assert (H2 : (wi_depth (seedItem Demo.seed)
                < maxDepth (Demo.withoutRobots Demo.defaults))%nat) by (cbn; lia).
  split; [exact H1|]. split; [exact H2|].
  exact (proj1 (C10_page_fetched_twice (Demo.withoutRobots Demo.defaults) Demo.platform
                  Demo.healthy) (seedItem Demo.seed) (newEngine Demo.t0) Demo.homeRecord H1 H2).
Defined.

(** ** Rate limiting *)

(** C5, as the code has it.  The rate limiter spaces the moments at which
    it lets a work item through: over a crawl, consecutive gate passes are
    at least [requestDelay] ms apart.  (The requests one item sends inside
    its slot are not spaced from each other.) *)
Theorem C5_gate_passes_spaced :
  forall cfg P net fuel startUrl cache last now,
    spaced (requestDelay cfg)
      (dispatches (log (snd (startCrawl cfg P net fuel startUrl
                               (idleEngine cache last now))))).
Proof.
  intros. apply startCrawl_paced.
Qed.

(** C5 as stated fails: with the default delay of 1000 ms, the crawl of a
    one-page site sends the page request for the seed and, 5 ms later and in
    the same slot, the request of [extractLinks]. *)
Lemma C5_counterexample :
  let r := startCrawl (Demo.withoutRobots Demo.defaults) Demo.platform Demo.singlePage
             5 Demo.seed (newEngine Demo.t0) in
  fst r = Ret tt /\
  log (snd r) = [Dispatch Demo.t0; Fetch PageFetch Demo.seed Demo.t0;
                 Fetch LinkFetch Demo.seed (Demo.t0 + 5)] /\
  ~ spaced (requestDelay (Demo.withoutRobots Demo.defaults)) (fetchTimes (log (snd r))).
Proof.
  cbn zeta. split; [vm_compute; reflexivity|]. split; [vm_compute; reflexivity|].
  vm_compute. intros [H _]. apply H. reflexivity.
Qed.

(** ** robots.txt failures *)

(** C9, as the code has it.  When robots.txt is answered with a non-success
    status the gate returns true and caches allow-all under the host's
    robots.txt URL.  A cached decision is returned without any request and
    without touching the engine, and cache entries survive to the end of
    the crawl, so that host's robots.txt is not requested again.  When the
    robots.txt request itself fails, the gate returns true as well but
    leaves the cache as it was. *)
Theorem C9_robots_fail_open :
  forall cfg P net,
    (forall url urlObj s resp ms,
        newURL P url = Some urlObj ->
        robotsCache s !! robotsUrlOf urlObj = None ->
        aborted s = false ->
        replies net s ms (Responds resp) ->
        r_ok resp = false ->
        fst (isAllowedByRobots cfg P net url s) = Ret true /\
        robotsCache (snd (isAllowedByRobots cfg P net url s)) !! robotsUrlOf urlObj
          = Some true) /\
    (forall url urlObj s decision,
        newURL P url = Some urlObj ->
        robotsCache s !! robotsUrlOf urlObj = Some decision ->
        isAllowedByRobots cfg P net url s = (Ret decision, s)) /\
    (forall fuel s k decision,
        robotsCache s !! k = Some decision ->
        robotsCache (snd (crawlWorker cfg P net fuel s)) !! k = Some decision) /\
    (forall url urlObj s msg ms,
        newURL P url = Some urlObj ->
        robotsCache s !! robotsUrlOf urlObj = None ->
        aborted s = false ->
        replies net s ms (NetworkError msg) ->
        fst (isAllowedByRobots cfg P net url s) = Ret true /\
        robotsCache (snd (isAllowedByRobots cfg P net url s)) = robotsCache s).
Proof.
  intros cfg P net. split; [|split; [|split]].
  - intros url urlObj s resp ms Hu Hc Ha Hnet Hok.
    unfold isAllowedByRobots, tryCatch, bind, gets, throw, ret, modify.
    rewrite Hu, Hc. rewrite (jsFetch_responds net _ _ _ _ resp ms) by (assumption || exact I).
    rewrite Hok. cbn. split; [reflexivity|apply lookup_insert_eq].
  - intros url urlObj s decision Hu Hc.
    unfold isAllowedByRobots, tryCatch, bind, gets, throw, ret, modify.
    rewrite Hu, Hc. reflexivity.
  - intros fuel s k decision Hk.
    apply (frame_cache _ _ (crawlWorker_frame cfg P net fuel s)). exact Hk.
  - intros url urlObj s msg ms Hu Hc Ha Hnet.
    unfold isAllowedByRobots, tryCatch, bind, gets, throw, ret, modify.
    rewrite Hu, Hc. rewrite (jsFetch_fails net _ _ _ _ msg ms) by (assumption || exact I).
    split; reflexivity.
Qed.

Lemma C9_robots_fail_open_witness :
  (newURL Demo.platform Demo.seed = Some (Demo.mkUrl "https:" "site.test" "/") /\
   robotsCache (newEngine Demo.t0) !! robotsUrlOf (Demo.mkUrl "https:" "site.test" "/") = None /\
   aborted (newEngine Demo.t0) = false /\
   replies Demo.allNotFound (newEngine Demo.t0) 5 (Responds Demo.notFound) /\
   r_ok Demo.notFound = false /\
   replies Demo.offline (newEngine Demo.t0) 5 (NetworkError "Failed to fetch")) /\
  (fst (isAllowedByRobots Demo.defaults Demo.platform Demo.allNotFound Demo.seed
          (newEngine Demo.t0)) = Ret true /\
   robotsCache (snd (isAllowedByRobots Demo.defaults Demo.platform Demo.allNotFound Demo.seed
                       (newEngine Demo.t0)))
     !! robotsUrlOf (Demo.mkUrl "https:" "site.test" "/") = Some true) /\
  (fst (isAllowedByRobots Demo.defaults Demo.platform Demo.offline Demo.seed
          (newEngine Demo.t0)) = Ret true /\
   robotsCache (snd (isAllowedByRobots Demo.defaults Demo.platform Demo.offline Demo.seed
                       (newEngine Demo.t0))) = robotsCache (newEngine Demo.t0)) /\
  (robotsCache Demo.allowAllCached !! Demo.siteRobots = Some true /\
   isAllowedByRobots Demo.defaults Demo.platform Demo.offline Demo.seed Demo.allowAllCached
     = (Ret true, Demo.allowAllCached) /\
   robotsCache (snd (crawlWorker Demo.defaults Demo.platform Demo.offline 3
                       Demo.allowAllCached)) !! Demo.siteRobots = Some true).
Proof.
  assert (H1 : newURL Demo.platform Demo.seed = Some (Demo.mkUrl "https:" "site.test" "/"))
    by reflexivity.
  assert (H2 : robotsCache (newEngine Demo.t0)
                 !! robotsUrlOf (Demo.mkUrl "https:" "site.test" "/") = None)
    by apply lookup_empty.
  assert (H3 : aborted (newEngine Demo.t0) = false) by reflexivity.
  assert (H4 : replies Demo.allNotFound (newEngine Demo.t0) 5 (Responds Demo.notFound))
    by reflexivity.
  assert (H5 : r_ok Demo.notFound = false) by reflexivity.
  assert (H6 : replies Demo.offline (newEngine Demo.t0) 5 (NetworkError "Failed to fetch"))
    by reflexivity.
  assert (H7 : robotsCache Demo.allowAllCached !! Demo.siteRobots = Some true)
    by apply lookup_singleton_eq.
  split; [repeat split; assumption|]. split; [|split].
  - exact (proj1 (C9_robots_fail_open Demo.defaults Demo.platform Demo.allNotFound)
             Demo.seed _ (newEngine Demo.t0) Demo.notFound 5%N H1 H2 H3 H4 H5).
  - exact (proj2 (proj2 (proj2 (C9_robots_fail_open Demo.defaults Demo.platform Demo.offline)))
             Demo.seed _ (newEngine Demo.t0) "Failed to fetch" 5%N H1 H2 H3 H6).
  - pose proof (C9_robots_fail_open Demo.defaults Demo.platform Demo.offline)
      as (_ & Hcached & Hkept & _).
    split; [exact H7|]. split.
    + exact (Hcached Demo.seed (Demo.mkUrl "https:" "site.test" "/") Demo.allowAllCached
               true H1 H7).
    + exact (Hkept 3 Demo.allowAllCached Demo.siteRobots true H7).
Defined.

(** C9 as stated fails for a robots.txt that cannot be fetched: the crawl
    of a two-page site whose robots.txt request fails in the network asks
    for the same robots.txt once per page, and ends with nothing cached for
    the host. *)
Lemma C9_counterexample :
  let r := startCrawl Demo.defaults Demo.platform Demo.robotsUnreachable 10 Demo.seed
             (newEngine Demo.t0) in
  fst r = Ret tt /\
  fetchesOf PageFetch (log (snd r)) = ["https://site.test/"; "https://site.test/a"]%string /\
  fetchesOf RobotsFetch (log (snd r))
    = ["https://site.test/robots.txt"; "https://site.test/robots.txt"]%string /\
  ~ (robotsCache (snd r) !! "https://site.test/robots.txt"%string = Some true) /\
  ~ NoDup (fetchesOf RobotsFetch (log (snd r))).
Proof.
  cbn zeta.
  assert (Hlog : fetchesOf RobotsFetch
                   (log (snd (startCrawl Demo.defaults Demo.platform Demo.robotsUnreachable
                                10 Demo.seed (newEngine Demo.t0))))
                 = ["https://site.test/robots.txt"; "https://site.test/robots.txt"]%string)
    by (vm_compute; reflexivity).
  split; [vm_compute; reflexivity|]. split; [vm_compute; reflexivity|].
  split; [exact Hlog|]. split.
  - assert (Hc : robotsCache (snd (startCrawl Demo.defaults Demo.platform
                                     Demo.robotsUnreachable 10 Demo.seed (newEngine Demo.t0)))
                   !! "https://site.test/robots.txt"%string = None)
      by (vm_compute; reflexivity).
    rewrite Hc. discriminate.
  - rewrite Hlog. intros H. apply NoDup_cons in H as [Hn _]. apply Hn. constructor.
Qed.

(** ** Responses the crawler cannot process *)

(** C1, as the code has it.  Take an engine configured without retries
    and a pass of the worker loop whose page request is answered, in time,
    with a non-2xx status or with a content type without [text/html].  The
    failure is terminal: the pass completes, having at once appended a
    [CrawlError] for that URL, with the message of the rejection, to the
    error list; no page is recorded and the pass sends exactly one request
    for the URL, no second attempt and no link-extraction request. *)
Theorem C1_rejected_response :
  forall cfg P net item s resp ms,
    maxRetries cfg = 0 ->
    processingQueue s = false ->
    stopFlag s = false ->
    wi_url item ∉ visited s ->
    letsThrough cfg P net (wi_url item) (gateOpen cfg net s) ->
    aborted (atPageFetch cfg P net (wi_url item) s) = false ->
    replies net (atPageFetch cfg P net (wi_url item) s) ms (Responds resp) ->
    (Z.of_N ms < timeout cfg)%Z ->
    rejectedResponse resp = true ->
    let s' := snd (processItem cfg P net item s) in
    fst (processItem cfg P net item s) = Ret tt /\
    errors s' = errors s ++
      [{| ce_url := wi_url item;
          ce_error := err_message (rejectionOf resp);
          ce_timestamp := clock (atPageFetch cfg P net (wi_url item) s) + Z.of_N ms |}] /\
    index s' = index s /\
    fetchesOf PageFetch (log s') = fetchesOf PageFetch (log s) ++ [wi_url item] /\
    fetchesOf LinkFetch (log s') = fetchesOf LinkFetch (log s).
Proof.
  intros cfg P net item s resp ms Hretries Hbusy Hstop Hnew Hgate Hab Hnet Hms Hrej.
  destruct (processItem_rejected cfg P net item s resp ms Hbusy Hstop Hnew Hgate Hab Hnet
              Hms Hrej) as (Hret & (Hindex & Hpages & Hlinks) & Herrors).
  cbn zeta. repeat split; try assumption. apply Herrors, Hretries.
Qed.

Lemma C1_rejected_response_witness :
  (maxRetries (Demo.withRetries 0 Demo.defaults) = 0 /\
   processingQueue (newEngine Demo.t0) = false /\
   stopFlag (newEngine Demo.t0) = false /\
   (Demo.seed ∉ visited (newEngine Demo.t0)) /\
   letsThrough (Demo.withRetries 0 Demo.defaults) Demo.platform Demo.allNotFound Demo.seed
     (gateOpen (Demo.withRetries 0 Demo.defaults) Demo.allNotFound (newEngine Demo.t0)) /\
   aborted (atPageFetch (Demo.withRetries 0 Demo.defaults) Demo.platform Demo.allNotFound
              Demo.seed (newEngine Demo.t0)) = false /\
   replies Demo.allNotFound
     (atPageFetch (Demo.withRetries 0 Demo.defaults) Demo.platform Demo.allNotFound Demo.seed
        (newEngine Demo.t0)) 5 (Responds Demo.notFound) /\
   (Z.of_N 5 < timeout (Demo.withRetries 0 Demo.defaults))%Z /\
   rejectedResponse Demo.notFound = true) /\
  errors (snd (processItem (Demo.withRetries 0 Demo.defaults) Demo.platform Demo.allNotFound
                 (seedItem Demo.seed) (newEngine Demo.t0)))
  = errors (newEngine Demo.t0) ++
      [{| ce_url := Demo.seed;
          ce_error := err_message (rejectionOf Demo.notFound);
          ce_timestamp :=
            clock (atPageFetch (Demo.withRetries 0 Demo.defaults) Demo.platform
                     Demo.allNotFound Demo.seed (newEngine Demo.t0)) + Z.of_N 5 |}].
Proof.
  assert (H0 : maxRetries (Demo.withRetries 0 Demo.defaults) = 0) by reflexivity.
  assert (H1 : processingQueue (newEngine Demo.t0) = false) by reflexivity.
  assert (H2 : stopFlag (newEngine Demo.t0) = false) by reflexivity.
  assert (H3 : Demo.seed ∉ visited (newEngine Demo.t0)) by apply not_elem_of_empty.
  assert (H4 : letsThrough (Demo.withRetries 0 Demo.defaults) Demo.platform Demo.allNotFound
                 Demo.seed
                 (gateOpen (Demo.withRetries 0 Demo.defaults) Demo.allNotFound
                    (newEngine Demo.t0))).
  { exists true. split; vm_compute; reflexivity. }
  assert (H5 : aborted (atPageFetch (Demo.withRetries 0 Demo.defaults) Demo.platform
                          Demo.allNotFound Demo.seed (newEngine Demo.t0)) = false)
    by (vm_compute; reflexivity).
  assert (H6 : replies Demo.allNotFound
                 (atPageFetch (Demo.withRetries 0 Demo.defaults) Demo.platform
                    Demo.allNotFound Demo.seed (newEngine Demo.t0)) 5
                 (Responds Demo.notFound)) by reflexivity.
  assert (H7 : (Z.of_N 5 < timeout (Demo.withRetries 0 Demo.defaults))%Z) by (cbn; lia).
  assert (H8 : rejectedResponse Demo.notFound = true) by reflexivity.
  split; [repeat split; assumption|].
  exact (proj1 (proj2 (C1_rejected_response (Demo.withRetries 0 Demo.defaults) Demo.platform
                         Demo.allNotFound (seedItem Demo.seed) (newEngine Demo.t0)
                         Demo.notFound 5%N H0 H1 H2 H3 H4 H5 H6 H7 H8))).
Defined.

(** C1 as stated fails: with the constructor's defaults ([maxRetries] 2) a
    site that answers 404 to everything is crawled to the end, the seed is
    requested once, and no [CrawlError] is recorded for it. *)
Lemma C1_counterexample :
  let r := startCrawl Demo.defaults Demo.platform Demo.allNotFound 10 Demo.seed
             (newEngine Demo.t0) in
  fst r = Ret tt /\
  fetchesOf PageFetch (log (snd r)) = [Demo.seed] /\
  index (snd r) = [] /\
  ~ (exists e, e ∈ errors (snd r) /\ ce_url e = Demo.seed).
Proof.
  cbn zeta.
  assert (He : errors (snd (startCrawl Demo.defaults Demo.platform Demo.allNotFound 10
                              Demo.seed (newEngine Demo.t0))) = [])
    by (vm_compute; reflexivity).
  repeat split; try (vm_compute; reflexivity).
  rewrite He. intros (e & Hin & _). inversion Hin.
Qed.

(** ** Stopping and retrying *)

(** C2 at a failing input: the user presses stop while the request for the
    seed is in flight.  The crawl completes, and the aborted request is in
    the error list. *)
Theorem C2_stop_is_recorded_as_error :
  let r := startCrawl (Demo.withoutRobots Demo.defaults) Demo.platform Demo.stopDuringFirst
             10 Demo.seed (newEngine Demo.t0) in
  fst r = Ret tt /\
  stopFlag (snd r) = true /\
  log (snd r) = [Dispatch Demo.t0; Fetch PageFetch Demo.seed Demo.t0] /\
  errors (snd r) = [{| ce_url := Demo.seed;
                       ce_error := err_message abortError;
                       ce_timestamp := Demo.t0 + 5 |}].
Proof.
  cbn zeta. repeat split; vm_compute; reflexivity.
Qed.

(** C3 at failing inputs, with the constructor's [maxRetries] of 2.  When
    every request fails in the network, the seed is requested once, not
    three times, and never reaches the error list.  When the request runs
    into its timeout, it is not retried either: it is recorded with the
    abort message after one attempt, and the controller shared by all
    requests stays aborted.  In general no crawl requests a page twice,
    whatever [maxRetries] is. *)
Theorem C3_no_second_attempt :
  (let r := startCrawl (Demo.withoutRobots Demo.defaults) Demo.platform Demo.offline
              10 Demo.seed (newEngine Demo.t0) in
   fst r = Ret tt /\
   fetchesOf PageFetch (log (snd r)) = [Demo.seed] /\
   errors (snd r) = []) /\
  (let r := startCrawl (Demo.withoutRobots Demo.defaults) Demo.platform Demo.slowSite
              10 Demo.seed (newEngine Demo.t0) in
   fst r = Ret tt /\
   fetchesOf PageFetch (log (snd r)) = [Demo.seed] /\
   errors (snd r) = [{| ce_url := Demo.seed;
                        ce_error := err_message abortError;
                        ce_timestamp := Demo.t0 + 10000 |}] /\
   stopFlag (snd r) = false /\
   aborted (snd r) = true) /\
  (forall cfg P net fuel startUrl cache last now,
      NoDup (fetchesOf PageFetch
               (log (snd (startCrawl cfg P net fuel startUrl (idleEngine cache last now)))))).
Proof.
  cbn zeta. split; [|split].
  - repeat split; vm_compute; reflexivity.
  - repeat split; vm_compute; reflexivity.
  - intros. apply startCrawl_fetchedOnce.
Qed.

(** * Further properties of the engine *)

(** Walks through a method built from [bind], [tryCatch] and the like,
    leaving the steps that change the engine. *)
Ltac walk_step :=
  lazymatch goal with
  | |- preserves _ (ret _) => apply preserves_ret; apply _
  | |- preserves _ (throw _) => apply preserves_throw; apply _
  | |- preserves _ (gets _) => apply preserves_gets; apply _
  | |- preserves _ (bind _ _) => apply preserves_bind; [apply _| |intros ?]
  | |- preserves _ (tryCatch _ _) => apply preserves_tryCatch; [apply _| |intros ?]
  | |- preserves _ (finally _ _) => apply preserves_finally; [apply _| |intros ?]
  | |- preserves _ (modify _) => apply preserves_modify; intros ?
  | |- preserves _ (if ?b then _ else _) => destruct b
  | |- preserves _ (match ?x with _ => _ end) => destruct x
  end.

Ltac walk := repeat walk_step.

#[local] Instance tally_preorder : PreOrder tally.
Proof.
  split.
  - intros s. repeat split.
  - intros a b c (? & ? & ? & ?) (? & ? & ? & ?). repeat split; congruence.
Qed.

#[local] Instance logged_preorder ok : PreOrder (logged ok).
Proof.
  split.
  - intros s. exists []. rewrite app_nil_r. split; [reflexivity|constructor].
  - intros a b c (n1 & H1 & F1) (n2 & H2 & F2). exists (n1 ++ n2).
    rewrite H2, H1, app_assoc. split; [reflexivity|]. apply Forall_app. split; assumption.
Qed.

Lemma logged_same ok s s' : log s' = log s -> logged ok s s'.
Proof. intros H. exists []. rewrite app_nil_r. split; [assumption|constructor]. Qed.

Lemma logged_one ok s s' e : log s' = log s ++ [e] -> ok e -> logged ok s s'.
Proof. intros H He. exists [e]. split; [assumption|]. constructor; [assumption|constructor]. Qed.

#[local] Instance silent_preorder : PreOrder silent.
Proof.
  split.
  - intros s H. split; [assumption|reflexivity].
  - intros a b c Hab Hbc Ha. destruct (Hab Ha) as [Hb Hl1].
    destruct (Hbc Hb) as [Hc Hl2]. split; [assumption|congruence].
Qed.

Lemma fetchTimes_log_dispatch l t : fetchTimes (l ++ [Dispatch t]) = fetchTimes l.
Proof. unfold fetchTimes. rewrite omap_app. cbn. apply app_nil_r. Qed.

Section Invariants.

Variable cfg : Config.
Variable P : Platform.
Variable net : nat -> Reply.

(** An invariant of the loop body is an invariant of the loop. *)
Lemma crawlWorker_invariant (I : Engine -> Prop) :
  (forall s item rest,
      I s -> workerCondition cfg s = true -> queue s = item :: rest ->
      I (with_queue rest s) /\
      (wi_url item ∉ visited s -> I (snd (processItem cfg P net item (with_queue rest s))))) ->
  forall fuel s, I s -> I (snd (crawlWorker cfg P net fuel s)).
Proof.
  intros Hstep. induction fuel as [|fuel IH]; intros s Hs; [exact Hs|].
  cbn [crawlWorker]. destruct (workerCondition cfg s) eqn:Hcond; [|exact Hs].
  destruct (queue s) as [|item rest] eqn:Hq; [exact Hs|].
  destruct (Hstep s item rest Hs Hcond Hq) as [Hdeq Hitem].
  destruct (bool_decide (wi_url item ∈ visited (with_queue rest s))) eqn:Hseen.
  - apply IH. exact Hdeq.
  - apply bool_decide_eq_false in Hseen. specialize (Hitem Hseen).
    unfold bind.
    destruct (processItem cfg P net item (with_queue rest s)) as [[[]|e| |] s1];
      cbn [snd] in *; try exact Hitem.
    apply IH. exact Hitem.
Qed.

(** An invariant that holds once the seed is queued, and of the engine as
    reset for a seed that is then refused, holds when [startCrawl] is over. *)
Lemma startCrawl_invariant (I : Engine -> Prop) fuel startUrl s :
  (isValidUrl P startUrl = false -> I (started s)) ->
  (isValidUrl P startUrl = true -> I (seeded startUrl s)) ->
  (forall fuel s', I s' -> I (snd (crawlWorker cfg P net fuel s'))) ->
  I (snd (startCrawl cfg P net fuel startUrl s)).
Proof.
  intros Hbad Hgood Hloop. rewrite startCrawl_unroll.
  destruct (isValidUrl P startUrl); cbn [negb]; [|apply Hbad; reflexivity].
  specialize (Hgood eq_refl).
  assert (H : I (snd (processCrawlQueue cfg P net fuel (seeded startUrl s)))).
  { unfold processCrawlQueue. destruct (maxConcurrency cfg); [exact Hgood|].
    apply Hloop. exact Hgood. }
  destruct (processCrawlQueue _ _ _ _ _) as [[[]|e| |] s1]; try exact H.
  destruct (negb (isAbort e)); exact H.
Qed.

(** *** An aborted controller *)

Lemma yield_silent ms s : silent s (snd (yield net ms s)).
Proof.
  intros Ha. unfold yield. cbn [snd]. destruct (stopNow _); fields; split; auto.
Qed.

Lemma delay_silent ms : preserves silent (delay net ms).
Proof. intros s. apply yield_silent. Qed.

Lemma jsFetch_silent o url timer : preserves silent (jsFetch net o url timer).
Proof.
  intros s Ha. unfold jsFetch. rewrite Ha. cbn [snd]. split; [assumption|reflexivity].
Qed.

Lemma same_signals_silent s s' :
  aborted s' = aborted s -> fetchTimes (log s') = fetchTimes (log s) -> silent s s'.
Proof. intros Ha Hl H. split; congruence. Qed.

Lemma isAllowedByRobots_silent url : preserves silent (isAllowedByRobots cfg P net url).
Proof.
  unfold isAllowedByRobots. walk; try apply jsFetch_silent;
    apply same_signals_silent; reflexivity.
Qed.

Lemma crawlPage_silent fuel url depth referrer retryCount :
  preserves silent (crawlPage cfg P net fuel url depth referrer retryCount).
Proof.
  revert retryCount. induction fuel as [|fuel IH]; intros retryCount; [intros s; reflexivity|].
  cbn [crawlPage]. unfold fetchWithTimeout, parsePageData.
  walk; try apply jsFetch_silent; try apply isAllowedByRobots_silent;
    try apply delay_silent; try apply IH; apply same_signals_silent; reflexivity.
Qed.

Lemma extractLinks_silent url nextDepth : preserves silent (extractLinks cfg P net url nextDepth).
Proof.
  unfold extractLinks, fetchWithTimeout. walk; apply jsFetch_silent.
Qed.

Lemma requestFn_silent item : preserves silent (requestFn cfg P net item).
Proof.
  unfold requestFn.
  walk; try apply crawlPage_silent; try apply extractLinks_silent;
    apply same_signals_silent; reflexivity.
Qed.

Lemma gateOpen_silent s : silent s (gateOpen cfg net s).
Proof.
  unfold gateOpen. fields.
  destruct (clock s - lastRequestTime s <? requestDelay cfg)%Z.
  - transitivity (snd (delay net (requestDelay cfg - (clock s - lastRequestTime s))
                         (with_gate (lastRequestTime s) true s))).
    + transitivity (with_gate (lastRequestTime s) true s);
        [apply same_signals_silent; reflexivity|apply delay_silent].
    + apply same_signals_silent; fields; [reflexivity|].
      rewrite fetchTimes_log_dispatch. reflexivity.
  - apply same_signals_silent; fields; [reflexivity|].
    rewrite fetchTimes_log_dispatch. reflexivity.
Qed.

Lemma processItem_silent item : preserves silent (processItem cfg P net item).
Proof.
  intros s. rewrite processItem_unroll, rateLimitedRequest_unroll.
  destruct (processingQueue s); [reflexivity|]. destruct (stopFlag s); [reflexivity|].
  assert (Hr : silent s (snd (requestFn cfg P net item (gateOpen cfg net s)))).
  { etransitivity; [apply gateOpen_silent|apply requestFn_silent]. }
  destruct (requestFn cfg P net item (gateOpen cfg net s)) as [[[]|e| |] s3]; cbn [snd] in *;
    try exact Hr.
  - etransitivity; [exact Hr|]. etransitivity; [|apply delay_silent].
    apply same_signals_silent; reflexivity.
  - etransitivity; [exact Hr|]. etransitivity; [|apply delay_silent].
    apply same_signals_silent; reflexivity.
Qed.

Lemma crawlWorker_silent fuel : preserves silent (crawlWorker cfg P net fuel).
Proof.
  intros s. apply (crawlWorker_invariant (silent s)); [|reflexivity].
  intros s1 item rest Hs1 _ _. split.
  - etransitivity; [exact Hs1|]. apply same_signals_silent; reflexivity.
  - intros _. etransitivity; [exact Hs1|]. etransitivity; [|apply processItem_silent].
    apply same_signals_silent; reflexivity.
Qed.

(** *** What gets logged *)

Section Logged.

Variable ok : Event -> Prop.

Lemma delay_logged ms : preserves (logged ok) (delay net ms).
Proof. intros s. apply logged_same, delay_log. Qed.

Lemma jsFetch_logged o url timer :
  (forall t, ok (Fetch o url t)) -> preserves (logged ok) (jsFetch net o url timer).
Proof.
  intros Hok s. pose proof (jsFetch_log net o url timer s) as Hl.
  destruct (aborted s); [apply logged_same, Hl|]. eapply logged_one; [exact Hl|apply Hok].
Qed.

Lemma isAllowedByRobots_logged url :
  (forall u t, ok (Fetch RobotsFetch u t)) ->
  preserves (logged ok) (isAllowedByRobots cfg P net url).
Proof.
  intros Hok. unfold isAllowedByRobots.
  walk; try (apply jsFetch_logged; intros; apply Hok); apply logged_same; reflexivity.
Qed.

Lemma crawlPage_logged fuel url depth referrer retryCount :
  (respectRobots cfg = true -> forall u t, ok (Fetch RobotsFetch u t)) ->
  (forall t, ok (Fetch PageFetch url t)) ->
  preserves (logged ok) (crawlPage cfg P net fuel url depth referrer retryCount).
Proof.
  intros Hrobots Hpage.
  revert retryCount. induction fuel as [|fuel IH]; intros retryCount; [intros s; reflexivity|].
  cbn [crawlPage]. unfold fetchWithTimeout, parsePageData.
  apply preserves_bind; [apply _|walk|intros seen].
  destruct seen; [walk|].
  apply preserves_bind; [apply _| |intros allowed].
  { destruct (respectRobots cfg); [|walk].
    apply isAllowedByRobots_logged. apply Hrobots. reflexivity. }
  walk; try (apply jsFetch_logged; exact Hpage); try apply delay_logged; try apply IH;
    apply logged_same; reflexivity.
Qed.

Lemma extractLinks_logged url nextDepth :
  (forall t, ok (Fetch LinkFetch url t)) ->
  preserves (logged ok) (extractLinks cfg P net url nextDepth).
Proof.
  intros Hok. unfold extractLinks, fetchWithTimeout.
  walk; apply jsFetch_logged; exact Hok.
Qed.

Lemma requestFn_logged item :
  (respectRobots cfg = true -> forall u t, ok (Fetch RobotsFetch u t)) ->
  (forall t, ok (Fetch PageFetch (wi_url item) t)) ->
  (forall t, ok (Fetch LinkFetch (wi_url item) t)) ->
  preserves (logged ok) (requestFn cfg P net item).
Proof.
  intros Hrobots Hpage Hlink. unfold requestFn.
  walk; try (apply crawlPage_logged; assumption);
    try (apply extractLinks_logged; assumption); apply logged_same; reflexivity.
Qed.

Lemma processItem_logged item :
  (respectRobots cfg = true -> forall u t, ok (Fetch RobotsFetch u t)) ->
  (forall t, ok (Fetch PageFetch (wi_url item) t)) ->
  (forall t, ok (Fetch LinkFetch (wi_url item) t)) ->
  (forall t, ok (Dispatch t)) ->
  preserves (logged ok) (processItem cfg P net item).
Proof.
  intros Hrobots Hpage Hlink Hgate s.
  rewrite processItem_unroll, rateLimitedRequest_unroll.
  destruct (processingQueue s); [reflexivity|]. destruct (stopFlag s); [reflexivity|].
  assert (Hr : logged ok s (snd (requestFn cfg P net item (gateOpen cfg net s)))).
  { etransitivity; [|apply requestFn_logged; assumption].
    eapply logged_one; [apply (proj1 (gateOpen_log cfg net s))|apply Hgate]. }
  destruct (requestFn cfg P net item (gateOpen cfg net s)) as [[[]|e| |] s3]; cbn [snd] in *;
    try exact Hr.
  - etransitivity; [exact Hr|]. apply logged_same. rewrite delay_log. reflexivity.
  - etransitivity; [exact Hr|]. apply logged_same. rewrite delay_log. reflexivity.
Qed.

End Logged.

(** *** Counters, and what one loop pass appends *)

Lemma same_tally s s' :
  processed s' = processed s -> failed s' = failed s ->
  activeRequests s' = activeRequests s -> startTime s' = startTime s -> tally s s'.
Proof. intros. repeat split; assumption. Qed.

Lemma yield_tally ms s : tally s (snd (yield net ms s)).
Proof. unfold yield. cbn [snd]. destruct (stopNow _); apply same_tally; reflexivity. Qed.

Lemma delay_tally ms : preserves tally (delay net ms).
Proof. intros s. apply yield_tally. Qed.

Lemma jsFetch_tally o url timer : preserves tally (jsFetch net o url timer).
Proof.
  intros s. unfold jsFetch. destruct (aborted s); [reflexivity|].
  set (s0 := with_world _ _ _ s).
  assert (H : tally s (snd (yield net 0 s0))).
  { transitivity s0; [apply same_tally; reflexivity|apply yield_tally]. }
  destruct (stopNow _); [exact H|].
  destruct (match timer with Some _ => _ | None => _ end).
  { cbn [snd]. etransitivity; [exact H|apply same_tally; reflexivity]. }
  destruct (settles _); exact H.
Qed.

Lemma isAllowedByRobots_tally url : preserves tally (isAllowedByRobots cfg P net url).
Proof.
  unfold isAllowedByRobots. walk; try apply jsFetch_tally; apply same_tally; reflexivity.
Qed.

Lemma robotsGate_tally url : preserves tally (robotsGate cfg P net url).
Proof.
  unfold robotsGate. destruct (respectRobots cfg); [apply isAllowedByRobots_tally|walk].
Qed.

Lemma extractLinks_tally url nextDepth : preserves tally (extractLinks cfg P net url nextDepth).
Proof. unfold extractLinks, fetchWithTimeout. walk; apply jsFetch_tally. Qed.

Lemma gateOpen_tally s : tally s (gateOpen cfg net s).
Proof.
  unfold gateOpen. fields.
  destruct (clock s - lastRequestTime s <? requestDelay cfg)%Z.
  - destruct (delay_tally (requestDelay cfg - (clock s - lastRequestTime s))
                (with_gate (lastRequestTime s) true s)) as (Hp & Hf & Ha & Hst).
    apply same_tally; fields; assumption.
  - apply same_tally; reflexivity.
Qed.

Lemma fetchesOf_snoc_other o o' l u t :
  o <> o' -> fetchesOf o (l ++ [Fetch o' u t]) = fetchesOf o l.
Proof.
  intros Hne. rewrite fetchesOf_app.
  assert (H : fetchesOf o [Fetch o' u t] = []); [|rewrite H; apply app_nil_r].
  destruct o, o'; try reflexivity; congruence.
Qed.

#[local] Instance neutral_preorder : PreOrder neutral.
Proof.
  split.
  - intros s. split; reflexivity.
  - intros a b c [] []. split; try congruence; [lia|etransitivity; eassumption].
Qed.

Lemma same_neutral s s' :
  (clock s <= clock s')%Z -> visited s' = visited s -> queue s' = queue s ->
  index s' = index s -> errors s' = errors s ->
  processed s' = processed s -> failed s' = failed s ->
  activeRequests s' = activeRequests s -> startTime s' = startTime s ->
  fetchesOf LinkFetch (log s') = fetchesOf LinkFetch (log s) -> neutral s s'.
Proof. intros. split; try assumption. apply same_tally; assumption. Qed.

Lemma yield_neutral ms s : neutral s (snd (yield net ms s)).
Proof.
  unfold yield. cbn [snd]. destruct (stopNow _); apply same_neutral; fields; try reflexivity; try lia.
Qed.

Lemma delay_neutral ms : preserves neutral (delay net ms).
Proof. intros s. apply yield_neutral. Qed.

Lemma jsFetch_neutral o url timer :
  o <> LinkFetch -> preserves neutral (jsFetch net o url timer).
Proof.
  intros Ho s. unfold jsFetch. destruct (aborted s); [reflexivity|].
  set (s0 := with_world _ _ _ s).
  assert (H0 : neutral s s0).
  { apply same_neutral; subst s0; fields; try reflexivity.
    apply fetchesOf_snoc_other. congruence. }
  assert (H : neutral s (snd (yield net 0 s0))).
  { etransitivity; [exact H0|apply yield_neutral]. }
  destruct (stopNow _); [exact H|].
  destruct (match timer with Some _ => _ | None => _ end).
  { cbn [snd]. etransitivity; [exact H|]. apply same_neutral; fields; try reflexivity; try lia. }
  destruct (settles _); exact H.
Qed.

Lemma isAllowedByRobots_neutral url : preserves neutral (isAllowedByRobots cfg P net url).
Proof.
  unfold isAllowedByRobots.
  walk; try (apply jsFetch_neutral; discriminate);
    apply same_neutral; fields; try reflexivity; try lia.
Qed.

Lemma robotsGate_neutral url : preserves neutral (robotsGate cfg P net url).
Proof.
  unfold robotsGate. destruct (respectRobots cfg); [apply isAllowedByRobots_neutral|walk].
Qed.

Lemma gateOpen_neutral s : neutral s (gateOpen cfg net s).
Proof.
  unfold gateOpen. fields.
  destruct (clock s - lastRequestTime s <? requestDelay cfg)%Z.
  - destruct (delay_neutral (requestDelay cfg - (clock s - lastRequestTime s))
                (with_gate (lastRequestTime s) true s)) as [Hc Hv Hq Hi He (Hp & Hf & Ha & Hst) Hl].
    fields. apply same_neutral; fields; try assumption.
    rewrite fetchesOf_dispatch. exact Hl.
  - apply same_neutral; fields; try reflexivity. apply fetchesOf_dispatch.
Qed.

Lemma gateClose_neutral s : neutral s (gateClose s).
Proof. unfold gateClose. apply same_neutral; fields; try reflexivity; try lia. Qed.

(** The call of [crawlPage] that [requestFn] makes: it settles, leaves the
    counters alone, and when it yields a record or throws, it has marked a
    URL that was not marked before. *)
Lemma crawlPage_top url depth referrer s :
  tally s (snd (crawlPage cfg P net (S (maxRetries cfg)) url depth referrer 0 s)) /\
  match fst (crawlPage cfg P net (S (maxRetries cfg)) url depth referrer 0 s) with
  | Ret (Some pd) =>
      pr_url pd = url /\ pr_depth pd = depth /\ pr_referrer pd = referrer /\
      (clock s <= pr_crawledAt pd <=
       clock (snd (crawlPage cfg P net (S (maxRetries cfg)) url depth referrer 0 s)))%Z /\
      pr_loadTime pd = (pr_crawledAt pd - default 0 (startTime s))%Z /\
      (url ∉ visited s) /\
      url ∈ visited (snd (crawlPage cfg P net (S (maxRetries cfg)) url depth referrer 0 s))
  | Ret None => True
  | Throw e =>
      (url ∉ visited s) /\
      url ∈ visited (snd (crawlPage cfg P net (S (maxRetries cfg)) url depth referrer 0 s))
  | Pending | OutOfFuel => False
  end.
Proof.
  rewrite crawlPage_unroll.
  destruct (bool_decide (url ∈ visited s)) eqn:Hseen; [split; [reflexivity|exact I]|].
  apply bool_decide_eq_false in Hseen. cbn zeta.
  destruct (robotsGate_returns cfg P net url s) as (allowed & Hg). rewrite Hg. cbn [fst snd].
  pose proof (robotsGate_tally url s) as Ht1.
  pose proof (robotsGate_inner cfg P net url s) as Hi1.
  set (s1 := snd (robotsGate cfg P net url s)) in *.
  destruct (respectRobots cfg && negb allowed).
  { split; [|exact I]. etransitivity; [exact Ht1|]. apply same_tally; reflexivity. }
  pose proof (jsFetch_tally PageFetch url (Some (timeout cfg)) (claim url s1)) as Ht3.
  pose proof (jsFetch_slot net PageFetch url (Some (timeout cfg)) (claim url s1)) as Hs3.
  pose proof (jsFetch_settles net PageFetch url (Some (timeout cfg)) (claim url s1)) as Hf.
  assert (Hclaimed : forall s3 s', slot (claim url s1) s3 -> inner s3 s' -> url ∈ visited s').
  { intros s3 s' H3 [_ Hv _]. rewrite Hv.
    apply (frame_visited _ _ (slot_frame _ _ H3)). apply claim_visited. }
  assert (Hfail : forall e s3,
    slot (claim url s1) s3 -> tally (claim url s1) s3 ->
    tally s (snd (onFailure cfg net (maxRetries cfg) 0 e s3)) /\
    match fst (onFailure cfg net (maxRetries cfg) 0 e s3) with
    | Ret (Some pd) => False
    | Ret None => True
    | Throw e' => (url ∉ visited s) /\
                  url ∈ visited (snd (onFailure cfg net (maxRetries cfg) 0 e s3))
    | Pending | OutOfFuel => False
    end).
  { intros e s3 H3 (Hp3 & Hf3 & Ha3 & Hst3).
    pose proof (onFailure_inner cfg net (maxRetries cfg) 0 e s3) as Hin.
    destruct Ht1 as (Hp1 & Hf1 & Ha1 & Hst1). unfold claim in Hp3, Hf3, Ha3, Hst3. fields.
    unfold onFailure in *. destruct (maxRetries cfg) as [|n]; cbn [Nat.ltb Nat.leb andb] in *.
    - cbn [fst snd] in *. split; [|split; [assumption|eapply Hclaimed; eassumption]].
      unfold release. apply same_tally; fields; [congruence|congruence|lia|congruence].
    - destruct (negb (isAbort e)); cbn [fst snd] in *.
      + split; [|exact I].
        destruct (delay_tally (1000 * (Z.of_nat 0 + 1)) s3) as (Hp4 & Hf4 & Ha4 & Hst4).
        unfold release. apply same_tally; fields; [congruence|congruence|lia|congruence].
      + split; [|split; [assumption|eapply Hclaimed; eassumption]].
        unfold release. apply same_tally; fields; [congruence|congruence|lia|congruence]. }
  unfold fetchWithTimeout.
  destruct (jsFetch net PageFetch url (Some (timeout cfg)) (claim url s1))
    as [[response|e| |] s3]; cbn [fst snd] in *; try contradiction.
  - destruct (rejectedResponse response).
    { specialize (Hfail (rejectionOf response) s3 Hs3 Ht3).
      destruct (onFailure cfg net (maxRetries cfg) 0 (rejectionOf response) s3) as [[[pd|]|e| |] s4];
        cbn [fst snd] in *; destruct Hfail as [Ht Hr]; try contradiction; split; assumption. }
    cbn [fst snd]. destruct Ht1 as (Hp1 & Hf1 & Ha1 & Hst1).
    destruct Ht3 as (Hp3 & Hf3 & Ha3 & Hst3).
    unfold claim in Hp3, Hf3, Ha3, Hst3. fields. split.
    + unfold release. apply same_tally; fields; [congruence|congruence|lia|congruence].
    + pose proof (frame_clock _ _ (slot_frame _ _ (inner_slot _ _ Hi1))) as Hc1.
      pose proof (frame_clock _ _ (slot_frame _ _ Hs3)) as Hc3.
      unfold claim in Hc3. unfold release, recordAt. fields.
      cbn [pr_url pr_depth pr_referrer pr_crawledAt pr_loadTime].
      split; [reflexivity|]. split; [reflexivity|]. split; [reflexivity|].
      split; [lia|]. split; [rewrite Hst3, Hst1; reflexivity|]. split; [assumption|].
      apply (Hclaimed s3 s3); [assumption|reflexivity].
  - specialize (Hfail e s3 Hs3 Ht3).
    destruct (onFailure cfg net (maxRetries cfg) 0 e s3) as [[[pd|]|e'| |] s4];
      cbn [fst snd] in *; destruct Hfail as [Ht Hr]; try contradiction; split; assumption.
Qed.

Lemma linksOf_depth url html nextDepth seen baseUrl :
  Forall (fun l => wi_depth l = nextDepth) (linksOf P url html nextDepth seen baseUrl).
Proof.
  apply list.Forall_forall. intros l Hin. unfold linksOf in Hin.
  apply (fun H => elem_of_sublist _ _ _ H (sublist_take _ _)) in Hin.
  apply list_elem_of_In, filter_In in Hin as [Hin _].
  apply list_elem_of_In, list_elem_of_omap in Hin as (a & _ & Hl).
  unfold toLink in Hl. destruct (JsString.truthy (fst a)); [|discriminate].
  destruct (resolveHref P (fst a) url); [|discriminate].
  injection Hl as <-. reflexivity.
Qed.

Lemma logged_notLinks s s' :
  logged notLinks s s' -> fetchesOf LinkFetch (log s') = fetchesOf LinkFetch (log s).
Proof.
  intros (new & Hl & Hok). rewrite Hl, fetchesOf_app. clear Hl.
  assert (H : fetchesOf LinkFetch new = []); [|rewrite H; apply app_nil_r].
  induction Hok as [|e l He _ IH]; [reflexivity|].
  change (fetchesOf LinkFetch (e :: l)) with (fetchesOf LinkFetch ([e] ++ l)).
  rewrite fetchesOf_app, IH, app_nil_r. destruct e as [[] u t|t]; try reflexivity.
  destruct He.
Qed.

Lemma crawlPage_notLinks fuel url depth referrer retryCount s :
  fetchesOf LinkFetch (log (snd (crawlPage cfg P net fuel url depth referrer retryCount s)))
  = fetchesOf LinkFetch (log s).
Proof.
  apply logged_notLinks, crawlPage_logged; intros; exact I.
Qed.

(** The request of one loop pass, as the rate limiter runs it. *)
Lemma requestFn_pass item s :
  (clock s <= clock (snd (requestFn cfg P net item s)))%Z /\
  visited s ⊆ visited (snd (requestFn cfg P net item s)) /\
  activeRequests (snd (requestFn cfg P net item s)) = activeRequests s /\
  startTime (snd (requestFn cfg P net item s)) = startTime s /\
  match fst (requestFn cfg P net item s) with
  | Ret _ => quietPass s (snd (requestFn cfg P net item s)) \/
             pagePass cfg item s (snd (requestFn cfg P net item s))
  | Throw e => quietPass s (snd (requestFn cfg P net item s)) /\
               (wi_url item ∉ visited s) /\
               wi_url item ∈ visited (snd (requestFn cfg P net item s))
  | Pending | OutOfFuel => False
  end.
Proof.
  rewrite requestFn_unroll.
  destruct (crawlPage_top (wi_url item) (wi_depth item) (wi_referrer item) s) as [Ht Hr].
  pose proof (crawlPage_slot cfg P net (S (maxRetries cfg)) (wi_url item) (wi_depth item)
                (wi_referrer item) 0 s) as Hs.
  pose proof (crawlPage_notLinks (S (maxRetries cfg)) (wi_url item) (wi_depth item)
                (wi_referrer item) 0 s) as Hl.
  destruct (crawlPage _ _ _ _ _ _ _ _ s) as [[[pd|]|e| |] s1]; cbn [fst snd] in *;
    try contradiction;
    destruct Ht as (Hp & Hf & Ha & Hst); destruct Hs as [[Hc Hv _] Hq Hi He _ _ _].
  - destruct Hr as (Hu & Hd & Href & Hat & Hload & Hnew & Hmark).
    destruct (Nat.ltb_spec (wi_depth item) (maxDepth cfg)) as [Hdepth|Hdepth].
    + pose proof (extractLinks_inner cfg P net (wi_url item) (wi_depth item + 1)
                    (recordPage pd s1)) as Hin.
      pose proof (extractLinks_tally (wi_url item) (wi_depth item + 1) (recordPage pd s1)) as Ht3.
      pose proof (extractLinks_log cfg P net (wi_url item) (wi_depth item + 1)
                    (recordPage pd s1)) as Hlog.
      pose proof (extractLinks_value cfg P net (wi_url item) (wi_depth item + 1)
                    (recordPage pd s1)) as Hval.
      destruct (extractLinks _ _ _ _ _ _) as [[links|e| |] s3]; cbn [fst snd] in *;
        try (destruct Hval as [Hval|(? & ? & _ & _ & Hval)]; discriminate).
      destruct Ht3 as (Hp3 & Hf3 & Ha3 & Hst3).
      destruct Hin as [[[Hc3 _ _] Hq3 Hi3 He3 _ _ _] Hv3 _].
      unfold recordPage in *. fields.
      split; [lia|]. split; [rewrite Hv3; exact Hv|]. split; [congruence|]. split; [congruence|].
      right. unfold pagePass. fields. rewrite Hv3.
      split; [assumption|]. split; [assumption|]. split; [congruence|]. split; [congruence|].
      split; [congruence|]. split.
      * exists pd. rewrite Hi3, Hi. repeat split; try assumption; lia.
      * destruct (aborted s1) eqn:Hab.
        -- left. rewrite Hlog, Hq3, Hq, Hl. split; [|reflexivity].
           destruct Hval as [Hval|(response & baseUrl & _ & Hfetch & _)].
           ++ injection Hval as ->. apply app_nil_r.
           ++ unfold fetchWithTimeout in Hfetch.
              destruct (jsFetch net LinkFetch (wi_url item) (Some (timeout cfg))
                          (with_stats (startTime s1) (S (processed s1)) (failed s1) (skipped s1)
                             (with_index (index s1 ++ [pd]) s1))) as [o s4] eqn:Hj.
              cbn [fst] in Hfetch. subst o. apply jsFetch_ret in Hj as (Hno & _).
              fields. congruence.
        -- right. split; [assumption|]. rewrite Hlog, fetchesOf_app, Hl. split; [reflexivity|].
           exists links. rewrite Hq3, Hq. split; [reflexivity|].
           destruct Hval as [Hval|(response & baseUrl & _ & _ & Hval)];
             injection Hval as ->; [constructor|apply linksOf_depth].
    + cbn [snd]. unfold recordPage. fields.
      split; [lia|]. split; [exact Hv|]. split; [congruence|]. split; [congruence|].
      right. unfold pagePass. fields.
      split; [assumption|]. split; [assumption|]. split; [congruence|]. split; [congruence|].
      split; [congruence|]. split.
      * exists pd. rewrite Hi. repeat split; try assumption; lia.
      * left. split; assumption.
  - split; [assumption|]. split; [assumption|]. split; [assumption|]. split; [assumption|].
    left. repeat split; assumption.
  - split; [assumption|]. split; [assumption|]. split; [assumption|]. split; [assumption|].
    split; [repeat split; assumption|exact Hr].
Qed.

Lemma pass_refl item s : pass cfg item s s.
Proof. split; try reflexivity. left. repeat split. Qed.

Lemma pass_between item s s1 s2 s3 :
  neutral s s1 -> pass cfg item s1 s2 -> neutral s2 s3 -> pass cfg item s s3.
Proof.
  intros [Hc1 Hv1 Hq1 Hi1 He1 (Hp1 & Hf1 & Ha1 & Hst1) Hl1]
         [Hc2 Hv2 Ha2 Hst2 Hout]
         [Hc3 Hv3 Hq3 Hi3 He3 (Hp3 & Hf3 & Ha3 & Hst3) Hl3].
  split; [lia|rewrite Hv3, <- Hv1; exact Hv2|congruence|congruence|].
  destruct Hout as [Hquiet|[Hpage|Herr]].
  - left. destruct Hquiet as (? & ? & ? & ? & ? & ?). repeat split; congruence.
  - right; left.
    destruct Hpage as (Hnew & Hmark & He & Hf & Hp & (pd & Hi & Hu & Hd & Hr & Hat & Hload) & Hlinks).
    unfold pagePass. rewrite Hv3, He3, Hf3, Hp3, Hi3, Hq3, Hl3.
    rewrite <- Hv1, <- He1, <- Hf1, <- Hp1, <- Hi1, <- Hq1, <- Hl1, <- Hst1.
    split; [assumption|]. split; [assumption|]. split; [assumption|]. split; [assumption|].
    split; [assumption|]. split; [|assumption].
    exists pd. repeat split; try assumption; lia.
  - right; right.
    destruct Herr as (Hnew & Hmark & Hi & Hp & Hf & Hq & Hl & ce & He & Hu & Hat).
    unfold errorPass. rewrite Hv3, He3, Hf3, Hp3, Hi3, Hq3, Hl3.
    rewrite <- Hv1, <- He1, <- Hf1, <- Hp1, <- Hi1, <- Hq1, <- Hl1.
    split; [assumption|]. split; [assumption|]. split; [assumption|]. split; [assumption|].
    split; [assumption|]. split; [assumption|]. split; [assumption|].
    exists ce. repeat split; try assumption; lia.
Qed.

(** One pass of the worker loop. *)
Lemma processItem_pass item s : pass cfg item s (snd (processItem cfg P net item s)).
Proof.
  rewrite processItem_unroll, rateLimitedRequest_unroll.
  destruct (processingQueue s); [apply pass_refl|]. destruct (stopFlag s); [apply pass_refl|].
  pose proof (gateOpen_neutral s) as Hg.
  destruct (requestFn_pass item (gateOpen cfg net s)) as (Hc & Hv & Ha & Hst & Hr).
  destruct (requestFn cfg P net item (gateOpen cfg net s)) as [[[]|e| |] s3];
    cbn [fst snd] in *; try contradiction.
  - apply (pass_between item s (gateOpen cfg net s) s3); [exact Hg| |].
    + split; try assumption. destruct Hr as [Hr|Hr]; [left|right; left]; exact Hr.
    + etransitivity; [apply gateClose_neutral|apply delay_neutral].
  - apply (pass_between item s (gateOpen cfg net s) (recordError (wi_url item) e (gateClose s3)));
      [exact Hg| |apply delay_neutral].
    destruct Hr as ((Hi & He & Hp & Hf & Hq & Hl) & Hnew & Hmark).
    unfold recordError, handleCrawlError, bind, modify, gateClose. fields.
    split; fields; try assumption.
    right; right. unfold errorPass. fields.
    split; [assumption|]. split; [assumption|]. split; [assumption|]. split; [assumption|].
    split; [congruence|]. split; [assumption|]. split; [assumption|].
    eexists. split; [rewrite He; reflexivity|]. cbn [ce_url ce_timestamp]. split; [reflexivity|lia].
Qed.


(** An invariant of every way a pass can end is an invariant of the loop. *)
Lemma crawlWorker_passes (I : Engine -> Prop) :
  (forall s item rest,
      I s -> queue s = item :: rest ->
      I (with_queue rest s) /\
      forall s', wi_url item ∉ visited s -> pass cfg item (with_queue rest s) s' -> I s') ->
  forall fuel s, I s -> I (snd (crawlWorker cfg P net fuel s)).
Proof.
  intros H. apply crawlWorker_invariant. intros s item rest Hs _ Hq.
  destruct (H s item rest Hs Hq) as [Hd Hp]. split; [exact Hd|].
  intros Hnew. apply Hp; [exact Hnew|apply processItem_pass].
Qed.

(** *** Depth *)

Lemma crawlWorker_withinDepth fuel s :
  withinDepth cfg s -> withinDepth cfg (snd (crawlWorker cfg P net fuel s)).
Proof.
  revert fuel s. apply (crawlWorker_passes (withinDepth cfg)).
  intros s item rest [Hq Hi] Hqueue. rewrite Hqueue in Hq.
  apply Forall_cons in Hq as [Hitem Hrest].
  split; [split; assumption|].
  intros s' _ [_ _ _ _ [Hquiet|[Hpage|Herr]]]; fields.
  - destruct Hquiet as (Hi' & _ & _ & _ & Hq' & _). fields.
    split; [rewrite Hq'|rewrite Hi']; assumption.
  - destruct Hpage as (_ & _ & _ & _ & _ & (pd & Hi' & _ & Hd & _) & Hlinks). fields. split.
    + destruct Hlinks as [[Hq' _]|(Hlt & _ & links & Hq' & Hdepth)]; rewrite Hq'; [assumption|].
      apply Forall_app. split; [assumption|].
      eapply Forall_impl; [exact Hdepth|]. intros l Hl. cbn beta in Hl. lia.
    + rewrite Hi'. apply Forall_app. split; [assumption|].
      constructor; [lia|constructor].
  - destruct Herr as (_ & _ & Hi' & _ & _ & Hq' & _). fields.
    split; [rewrite Hq'|rewrite Hi']; assumption.
Qed.

Lemma startCrawl_withinDepth fuel startUrl s :
  withinDepth cfg (snd (startCrawl cfg P net fuel startUrl s)).
Proof.
  apply startCrawl_invariant.
  - intros _. split; constructor.
  - intros _. split; [|constructor]. unfold seeded, started, reset. fields.
    constructor; [cbn; lia|constructor].
  - intros fuel' s' H. apply crawlWorker_withinDepth, H.
Qed.

(** *** Each URL settles once *)

Lemma settledUrls_page s s' pd :
  index s' = index s ++ [pd] -> errors s' = errors s ->
  settledUrls s' ≡ₚ pr_url pd :: settledUrls s.
Proof.
  intros Hi He. unfold settledUrls. rewrite Hi, He, map_app, <- app_assoc. cbn [map app].
  symmetry. apply Permutation_middle.
Qed.

Lemma settledUrls_error s s' ce :
  index s' = index s -> errors s' = errors s ++ [ce] ->
  settledUrls s' ≡ₚ ce_url ce :: settledUrls s.
Proof.
  intros Hi He. unfold settledUrls. rewrite Hi, He, map_app, app_assoc. cbn [map].
  symmetry. apply Permutation_cons_append.
Qed.

Lemma settledOnce_add s s' u :
  settledUrls s' ≡ₚ u :: settledUrls s ->
  visited s ⊆ visited s' -> (u ∉ visited s) -> u ∈ visited s' ->
  settledOnce s -> settledOnce s'.
Proof.
  intros Hperm Hsub Hnew Hmark [Hnd Hin]. split.
  - rewrite Hperm. apply NoDup_cons. split; [|exact Hnd].
    intros Hu. apply Hnew, Hin, Hu.
  - intros v Hv. rewrite Hperm in Hv. apply elem_of_cons in Hv as [->|Hv]; [exact Hmark|].
    apply Hsub, Hin, Hv.
Qed.

Lemma settledOnce_pass item rest s s' :
  settledOnce s -> wi_url item ∉ visited s -> pass cfg item (with_queue rest s) s' ->
  settledOnce s'.
Proof.
  intros Hs Hnew [_ Hv _ _ [Hquiet|[Hpage|Herr]]]; fields.
  - destruct Hquiet as (Hi' & He' & _). fields. destruct Hs as [Hnd Hin].
    unfold settledOnce, settledUrls in *. rewrite Hi', He'. split; [exact Hnd|].
    intros u Hu. apply Hv, Hin, Hu.
  - destruct Hpage as (_ & Hmark & He' & _ & _ & (pd & Hi' & Hu & _) & _). fields.
    apply (settledOnce_add s s' (wi_url item)); try assumption.
    rewrite <- Hu. apply settledUrls_page; assumption.
  - destruct Herr as (_ & Hmark & Hi' & _ & _ & _ & _ & ce & He' & Hu & _). fields.
    apply (settledOnce_add s s' (wi_url item)); try assumption.
    rewrite <- Hu. apply settledUrls_error; assumption.
Qed.

Lemma crawlWorker_settledOnce fuel s :
  settledOnce s -> settledOnce (snd (crawlWorker cfg P net fuel s)).
Proof.
  revert fuel s. apply (crawlWorker_passes settledOnce).
  intros s item rest Hs Hqueue. split; [exact Hs|].
  intros s' Hnew Hpass. exact (settledOnce_pass item rest s s' Hs Hnew Hpass).
Qed.

Lemma startCrawl_settledOnce fuel startUrl s :
  settledOnce (snd (startCrawl cfg P net fuel startUrl s)).
Proof.
  apply startCrawl_invariant.
  - intros _. split; [constructor|]. intros u Hu. apply elem_of_nil in Hu. destruct Hu.
  - intros _. split; [constructor|]. intros u Hu. apply elem_of_nil in Hu. destruct Hu.
  - intros fuel' s' H. apply crawlWorker_settledOnce, H.
Qed.

(** *** Counters *)

Lemma crawlWorker_counted fuel s :
  counted s -> counted (snd (crawlWorker cfg P net fuel s)).
Proof.
  revert fuel s. apply (crawlWorker_passes counted).
  intros s item rest [Hp Hf] Hqueue. split; [split; assumption|].
  intros s' _ [_ _ _ _ [Hquiet|[Hpage|Herr]]]; fields; unfold counted.
  - destruct Hquiet as (Hi' & He' & Hp' & Hf' & _). fields. rewrite Hi', He', Hp', Hf'.
    split; assumption.
  - destruct Hpage as (_ & _ & He' & Hf' & Hp' & (pd & Hi' & _) & _). fields.
    rewrite Hi', He', Hp', Hf', length_app. cbn [length]. split; lia.
  - destruct Herr as (_ & _ & Hi' & Hp' & Hf' & _ & _ & ce & He' & _). fields.
    rewrite Hi', He', Hp', Hf', length_app. cbn [length]. split; lia.
Qed.

Lemma startCrawl_counted fuel startUrl s :
  counted (snd (startCrawl cfg P net fuel startUrl s)).
Proof.
  apply startCrawl_invariant.
  - intros _. split; reflexivity.
  - intros _. split; reflexivity.
  - intros fuel' s' H. apply crawlWorker_counted, H.
Qed.

Lemma settled_in_visited s :
  settledOnce s -> length (index s) + length (errors s) <= size (visited s).
Proof.
  intros [Hnd Hin].
  rewrite <- (length_map pr_url (index s)), <- (length_map ce_url (errors s)), <- length_app.
  fold (settledUrls s).
  rewrite <- (size_list_to_set (C := gset string) _ Hnd).
  apply subseteq_size. intros u Hu. apply elem_of_list_to_set in Hu. apply Hin, Hu.
Qed.

Lemma crawlWorker_balance fuel s :
  activeRequests (snd (crawlWorker cfg P net fuel s)) = activeRequests s /\
  startTime (snd (crawlWorker cfg P net fuel s)) = startTime s.
Proof.
  revert fuel s. intros fuel s.
  apply (crawlWorker_passes
           (fun s' => activeRequests s' = activeRequests s /\ startTime s' = startTime s));
    [|split; reflexivity].
  intros s1 item rest [Ha Hst] _. split; [split; assumption|].
  intros s' _ [_ _ Ha' Hst' _]. fields. split; congruence.
Qed.

(** *** Time stamps *)

Lemma crawlWorker_chronological t0 fuel s :
  chronological t0 s -> chronological t0 (snd (crawlWorker cfg P net fuel s)).
Proof.
  revert fuel s. apply (crawlWorker_passes (chronological t0)).
  intros s item rest Hs Hqueue. split; [exact Hs|].
  destruct Hs as (Hst & Ht0 & Hsp & Hall).
  intros s' _ [Hc _ _ Hst' Hout]. fields.
  assert (Hold : Forall (fun pd => (t0 <= pr_crawledAt pd <= clock s')%Z /\
                                   pr_loadTime pd = (pr_crawledAt pd - t0)%Z) (index s)).
  { eapply Forall_impl; [exact Hall|]. intros pd [Hb Hl]. split; [lia|exact Hl]. }
  unfold chronological. rewrite Hst', Hst.
  split; [reflexivity|]. split; [lia|].
  destruct Hout as [Hquiet|[Hpage|Herr]].
  - destruct Hquiet as (Hi' & _). fields. rewrite Hi'. split; assumption.
  - destruct Hpage as (_ & _ & _ & _ & _ & (pd & Hi' & _ & _ & _ & Hat & Hload) & _). fields.
    rewrite Hi', map_app. cbn [map]. split.
    + apply spaced_snoc; [exact Hsp|]. intros t Ht.
      apply last_Some_elem_of, list_elem_of_fmap in Ht as (pd' & -> & Hin).
      apply (proj1 (list.Forall_forall _ _) Hall) in Hin. lia.
    + apply Forall_app. split; [exact Hold|].
      constructor; [|constructor]. rewrite Hst in Hload. cbn [default] in Hload.
      split; [lia|exact Hload].
  - destruct Herr as (_ & _ & Hi' & _). fields. rewrite Hi'. split; assumption.
Qed.

Lemma startCrawl_chronological fuel startUrl s :
  chronological (clock s) (snd (startCrawl cfg P net fuel startUrl s)).
Proof.
  apply startCrawl_invariant.
  - intros _. unfold chronological, started, reset. fields.
    split; [reflexivity|]. split; [lia|]. split; [exact I|constructor].
  - intros _. unfold chronological, seeded, started, reset. fields.
    split; [reflexivity|]. split; [lia|]. split; [exact I|constructor].
  - intros fuel' s' H. apply crawlWorker_chronological, H.
Qed.

(** *** Where requests go *)

Lemma crawlWorker_onHost seed s0 fuel s :
  hostnameStable P ->
  confined P seed s /\ logged (onHost P seed) s0 s ->
  confined P seed (snd (crawlWorker cfg P net fuel s)) /\
  logged (onHost P seed) s0 (snd (crawlWorker cfg P net fuel s)).
Proof.
  intros Hstable. revert fuel s.
  apply (crawlWorker_invariant
           (fun s => confined P seed s /\ logged (onHost P seed) s0 s)).
  intros s item rest [[Hq Hi] Hlog] _ Hqueue. rewrite Hqueue in Hq.
  apply Forall_cons in Hq as [Hitem Hrest].
  split; [split; [split; assumption|exact Hlog]|].
  intros _. split.
  - destruct (processItem_queue cfg P net item (with_queue rest s) Hstable)
      as (links & Hq' & Hlinks).
    split.
    + rewrite Hq'. fields. apply Forall_app. split; [assumption|].
      eapply Forall_impl; [exact Hlinks|]. intros l Hl. cbn beta in Hl.
      eapply sameHost_trans; eassumption.
    + destruct (processItem_index cfg P net item (with_queue rest s))
        as [Hi'|(pd & Hi' & Hu & _)]; rewrite Hi'; fields; [assumption|].
      apply Forall_app. split; [assumption|].
      constructor; [rewrite Hu; assumption|constructor].
  - etransitivity; [exact Hlog|].
    transitivity (with_queue rest s); [apply logged_same; reflexivity|].
    apply processItem_logged; intros; try exact I; exact Hitem.
Qed.

Lemma startCrawl_onHost fuel startUrl s :
  hostnameStable P ->
  logged (onHost P startUrl) s (snd (startCrawl cfg P net fuel startUrl s)).
Proof.
  intros Hstable.
  apply (startCrawl_invariant
           (fun s' => confined P startUrl s' /\ logged (onHost P startUrl) s s')).
  - intros _. split; [split; constructor|apply logged_same; reflexivity].
  - intros Hvalid. split; [|apply logged_same; reflexivity].
    split; [|constructor]. unfold seeded, started, reset. fields.
    constructor; [|constructor]. cbn [wi_url seedItem].
    unfold isValidUrl in Hvalid. destruct (newURL P startUrl) as [a|] eqn:Ha; [|discriminate].
    exists a, a. repeat split; assumption.
  - intros fuel' s' H. apply crawlWorker_onHost; assumption.
Qed.

Lemma logged_notRobots s s' :
  logged notRobots s s' -> fetchesOf RobotsFetch (log s') = fetchesOf RobotsFetch (log s).
Proof.
  intros (new & Hl & Hok). rewrite Hl, fetchesOf_app. clear Hl.
  assert (H : fetchesOf RobotsFetch new = []); [|rewrite H; apply app_nil_r].
  induction Hok as [|e l He _ IH]; [reflexivity|].
  change (fetchesOf RobotsFetch (e :: l)) with (fetchesOf RobotsFetch ([e] ++ l)).
  rewrite fetchesOf_app, IH, app_nil_r. destruct e as [[] u t|t]; try reflexivity.
  destruct He.
Qed.

Lemma processItem_notRobots item :
  respectRobots cfg = false -> preserves (logged notRobots) (processItem cfg P net item).
Proof.
  intros Hoff. apply processItem_logged; intros; try exact I. congruence.
Qed.

Lemma startCrawl_notRobots fuel startUrl s :
  respectRobots cfg = false ->
  logged notRobots s (snd (startCrawl cfg P net fuel startUrl s)).
Proof.
  intros Hoff. apply (startCrawl_invariant (logged notRobots s)).
  - intros _. apply logged_same. reflexivity.
  - intros _. apply logged_same. reflexivity.
  - intros fuel' s' H. apply (crawlWorker_invariant (logged notRobots s)); [|exact H].
    intros s1 item rest H1 _ _. split.
    + etransitivity; [exact H1|]. apply logged_same. reflexivity.
    + intros _. etransitivity; [exact H1|].
      transitivity (with_queue rest s1); [apply logged_same; reflexivity|].
      apply processItem_notRobots, Hoff.
Qed.

(** *** Links are requested for recorded pages only *)

Lemma crawlWorker_linksOfRecorded fuel s :
  linksOfRecorded s /\ settledOnce s ->
  linksOfRecorded (snd (crawlWorker cfg P net fuel s)) /\
  settledOnce (snd (crawlWorker cfg P net fuel s)).
Proof.
  intros [Hl Hs]. split; [|apply crawlWorker_settledOnce, Hs].
  revert fuel s Hl Hs.
  assert (H : forall fuel s, linksOfRecorded s /\ settledOnce s ->
                linksOfRecorded (snd (crawlWorker cfg P net fuel s)) /\
                settledOnce (snd (crawlWorker cfg P net fuel s))).
  { apply (crawlWorker_passes (fun s => linksOfRecorded s /\ settledOnce s)).
    intros s item rest [Hl Hs] Hqueue. split; [split; assumption|].
    intros s' Hnew Hpass.
    split; [|exact (settledOnce_pass item rest s s' Hs Hnew Hpass)].
    destruct Hl as [Hnd Hrec]. destruct Hs as [_ Hin].
    destruct Hpass as [_ _ _ _ [Hquiet|[Hpage|Herr]]]; fields; unfold linksOfRecorded.
    - destruct Hquiet as (Hi' & _ & _ & _ & _ & Hl'). fields. rewrite Hl', Hi'.
      split; assumption.
    - destruct Hpage as (_ & _ & _ & _ & _ & (pd & Hi' & Hu & _) & Hlinks). fields.
      rewrite Hi', map_app. cbn [map].
      destruct Hlinks as [[_ Hl']|(_ & Hl' & _)]; rewrite Hl'.
      + split; [exact Hnd|]. intros u Hin'. apply elem_of_app. left. apply Hrec, Hin'.
      + split.
        * apply NoDup_app. split; [exact Hnd|]. split; [|apply NoDup_singleton].
          intros u Hin' Hu'. apply list_elem_of_singleton in Hu'. subst u.
          apply Hnew, Hin. unfold settledUrls. apply elem_of_app. left. apply Hrec, Hin'.
        * intros u Hin'. apply elem_of_app in Hin' as [Hin'|Hin'].
          -- apply elem_of_app. left. apply Hrec, Hin'.
          -- apply list_elem_of_singleton in Hin'. subst u. apply elem_of_app. right.
             rewrite Hu. apply list_elem_of_singleton. reflexivity.
    - destruct Herr as (_ & _ & Hi' & _ & _ & _ & Hl' & _). fields. rewrite Hl', Hi'.
      split; assumption. }
  intros fuel s Hl Hs. apply H. split; assumption.
Qed.

Lemma startCrawl_linksOfRecorded fuel startUrl cache last now :
  linksOfRecorded (snd (startCrawl cfg P net fuel startUrl (idleEngine cache last now))).
Proof.
  apply (proj1 (A := linksOfRecorded _)
               (B := settledOnce (snd (startCrawl cfg P net fuel startUrl
                                         (idleEngine cache last now))))).
  apply (startCrawl_invariant (fun s => linksOfRecorded s /\ settledOnce s)).
  - intros _. split; split; try constructor; intros u Hu; apply elem_of_nil in Hu; destruct Hu.
  - intros _. split; split; try constructor; intros u Hu; apply elem_of_nil in Hu; destruct Hu.
  - intros fuel' s' H. apply crawlWorker_linksOfRecorded, H.
Qed.

(** *** The crawl comes to an end *)



(** *** After an abort *)

Lemma processItem_aborted item s :
  aborted s = true -> index (snd (processItem cfg P net item s)) = index s.
Proof.
  intros Hab. destruct (processItem_index cfg P net item s) as [H|(pd & Hi & _)]; [exact H|].
  exfalso. revert Hi. rewrite processItem_unroll, rateLimitedRequest_unroll.
  destruct (processingQueue s); [apply length_app_one_ne|].
  destruct (stopFlag s); [apply length_app_one_ne|].
  destruct (gateOpen_silent s Hab) as [Hab' _].
  destruct (gateOpen_fields cfg net s) as (_ & Hi0 & _).
  assert (Hreq : index (snd (requestFn cfg P net item (gateOpen cfg net s))) = index s).
  { rewrite requestFn_unroll.
    pose proof (crawlPage_slot cfg P net (S (maxRetries cfg)) (wi_url item) (wi_depth item)
                  (wi_referrer item) 0 (gateOpen cfg net s)) as Hs.
    pose proof (crawlPage_silent (S (maxRetries cfg)) (wi_url item) (wi_depth item)
                  (wi_referrer item) 0 (gateOpen cfg net s) Hab') as [Hab1 _].
    destruct (crawlPage _ _ _ _ _ _ _ _ _) as [[[pd'|]|e| |] s1] eqn:Hc; cbn [snd] in *;
      try (rewrite (slot_index _ _ Hs); exact Hi0).
    apply crawlPage_success in Hc as (robots & t & _ & _ & Hno & _). congruence. }
  destruct (requestFn cfg P net item (gateOpen cfg net s)) as [[[]|e| |] s3];
    cbn [snd] in *; intros Hi.
  - rewrite (slot_index _ _ (inner_slot _ _ (delay_inner net 100 _))) in Hi.
    unfold gateClose in Hi. fields. rewrite Hreq in Hi. exact (length_app_one_ne _ _ Hi).
  - rewrite (slot_index _ _ (inner_slot _ _ (delay_inner net 100 _))) in Hi.
    unfold recordError, handleCrawlError, bind, modify, gateClose in Hi. fields.
    rewrite Hreq in Hi. exact (length_app_one_ne _ _ Hi).
  - rewrite Hreq in Hi. exact (length_app_one_ne _ _ Hi).
  - rewrite Hreq in Hi. exact (length_app_one_ne _ _ Hi).
Qed.

Lemma crawlWorker_aborted fuel s :
  aborted s = true ->
  aborted (snd (crawlWorker cfg P net fuel s)) = true /\
  index (snd (crawlWorker cfg P net fuel s)) = index s /\
  fetchTimes (log (snd (crawlWorker cfg P net fuel s))) = fetchTimes (log s).
Proof.
  intros Hab.
  apply (crawlWorker_invariant
           (fun s' => aborted s' = true /\ index s' = index s /\
                      fetchTimes (log s') = fetchTimes (log s)));
    [|repeat split; assumption].
  intros s1 item rest (Hab1 & Hi1 & Hl1) _ _. split; [repeat split; assumption|].
  intros _.
  destruct (processItem_silent item (with_queue rest s1) Hab1) as [Hab2 Hl2].
  split; [exact Hab2|]. split; [|rewrite Hl2; exact Hl1].
  rewrite processItem_aborted; [exact Hi1|exact Hab1].
Qed.

(** *** The robots cache *)

Lemma isAllowedByRobots_first url urlObj s resp ms :
  newURL P url = Some urlObj ->
  robotsCache s !! robotsUrlOf urlObj = None ->
  aborted s = false ->
  replies net s ms (Responds resp) ->
  isAllowedByRobots cfg P net url s =
  (Ret (if r_ok resp
        then Robots.parseRobotsTxt (userAgent cfg) (r_body resp) (u_pathname urlObj)
        else true),
   with_robotsCache
     (<[robotsUrlOf urlObj :=
          if r_ok resp
          then Robots.parseRobotsTxt (userAgent cfg) (r_body resp) (u_pathname urlObj)
          else true]> (robotsCache s))
     (answered RobotsFetch (robotsUrlOf urlObj) ms s)).
Proof.
  intros Hurl Hmiss Hab Hreply.
  unfold isAllowedByRobots, tryCatch, bind, gets. rewrite Hurl, Hmiss.
  rewrite (jsFetch_responds net RobotsFetch (robotsUrlOf urlObj) None s resp ms Hab Hreply I).
  destruct (r_ok resp); reflexivity.
Qed.

Lemma isAllowedByRobots_cached url urlObj s decision :
  newURL P url = Some urlObj ->
  robotsCache s !! robotsUrlOf urlObj = Some decision ->
  isAllowedByRobots cfg P net url s = (Ret decision, s).
Proof.
  intros Hurl Hhit. unfold isAllowedByRobots, tryCatch, bind, gets. rewrite Hurl, Hhit.
  reflexivity.
Qed.

Lemma startCrawl_cache fuel startUrl s k b :
  robotsCache s !! k = Some b ->
  robotsCache (snd (startCrawl cfg P net fuel startUrl s)) !! k = Some b.
Proof.
  intros Hk.
  apply (startCrawl_invariant (fun s' => robotsCache s' !! k = Some b)).
  - intros _. exact Hk.
  - intros _. exact Hk.
  - intros fuel' s' H. apply (frame_cache _ _ (crawlWorker_frame cfg P net fuel' s')), H.
Qed.

(** *** Requests and gate passes *)

#[local] Instance metered_preorder : PreOrder metered.
Proof.
  split.
  - intros s. exists [], [], []. rewrite !app_nil_r. repeat split; reflexivity.
  - intros a b c (d1 & p1 & l1 & Hd1 & Hp1 & Hl1 & Hlp1 & Hpd1)
                 (d2 & p2 & l2 & Hd2 & Hp2 & Hl2 & Hlp2 & Hpd2).
    exists (d1 ++ d2), (p1 ++ p2), (l1 ++ l2).
    rewrite Hd2, Hd1, Hp2, Hp1, Hl2, Hl1, !app_assoc, !length_app.
    repeat split; lia.
Qed.

Lemma same_log_metered s s' : log s' = log s -> metered s s'.
Proof.
  intros H. exists [], [], []. rewrite H, !app_nil_r. repeat split; reflexivity.
Qed.

Lemma requestFn_counts item s :
  exists pages links,
    fetchesOf PageFetch (log (snd (requestFn cfg P net item s)))
    = fetchesOf PageFetch (log s) ++ pages /\
    fetchesOf LinkFetch (log (snd (requestFn cfg P net item s)))
    = fetchesOf LinkFetch (log s) ++ links /\
    length links <= length pages /\ length pages <= 1.
Proof.
  rewrite requestFn_unroll.
  pose proof (crawlPage_pages cfg P net (maxRetries cfg) (wi_url item) (wi_depth item)
                (wi_referrer item) 0 s) as Hpages. cbn zeta in Hpages.
  pose proof (crawlPage_notLinks (S (maxRetries cfg)) (wi_url item) (wi_depth item)
                (wi_referrer item) 0 s) as Hlinks.
  assert (Hquiet : forall s1,
    (visited s1 = visited s /\ fetchesOf PageFetch (log s1) = fetchesOf PageFetch (log s)) \/
    ((wi_url item ∉ visited s) /\ visited s1 = {[wi_url item]} ∪ visited s /\
     (fetchesOf PageFetch (log s1) = fetchesOf PageFetch (log s) \/
      fetchesOf PageFetch (log s1) = fetchesOf PageFetch (log s) ++ [wi_url item])) ->
    fetchesOf LinkFetch (log s1) = fetchesOf LinkFetch (log s) ->
    exists pages links,
      fetchesOf PageFetch (log s1) = fetchesOf PageFetch (log s) ++ pages /\
      fetchesOf LinkFetch (log s1) = fetchesOf LinkFetch (log s) ++ links /\
      length links <= length pages /\ length pages <= 1).
  { intros s1 Hp Hl. destruct Hp as [[_ Hp]|(_ & _ & [Hp|Hp])].
    - exists [], []. rewrite Hp, Hl, !app_nil_r. repeat split; cbn; lia.
    - exists [], []. rewrite Hp, Hl, !app_nil_r. repeat split; cbn; lia.
    - exists [wi_url item], []. rewrite Hp, Hl, !app_nil_r. repeat split; cbn; lia. }
  destruct (crawlPage _ _ _ _ _ _ _ _ s) as [[[pd|]|e| |] s1] eqn:Hc; cbn [snd] in *;
    try (apply Hquiet; assumption).
  apply crawlPage_success in Hc as (robots & t & Hlog & Hrobots & _ & _).
  destruct (robotsOnly_quiet robots Hrobots) as (_ & Hrp & Hrl).
  assert (Hp1 : fetchesOf PageFetch (log s1) = fetchesOf PageFetch (log s) ++ [wi_url item]).
  { rewrite Hlog, !fetchesOf_app, Hrp. reflexivity. }
  destruct (wi_depth item <? maxDepth cfg)%nat.
  - pose proof (extractLinks_log cfg P net (wi_url item) (wi_depth item + 1)
                  (recordPage pd s1)) as Hx.
    pose proof (extractLinks_returns cfg P net (wi_url item) (wi_depth item + 1)
                  (recordPage pd s1)) as (links & Hret).
    destruct (extractLinks _ _ _ _ _ _) as [[l|e| |] s3]; cbn [fst snd] in *;
      try discriminate; fields.
    unfold recordPage in Hx. fields.
    destruct (aborted s1).
    + exists [wi_url item], []. rewrite Hx, Hp1, Hlinks, app_nil_r.
      repeat split; cbn; lia.
    + exists [wi_url item], [wi_url item].
      rewrite Hx, !fetchesOf_app, Hp1, Hlinks. cbn. rewrite app_nil_r.
      repeat split; lia.
  - cbn [snd]. unfold recordPage. fields.
    exists [wi_url item], []. rewrite Hp1, Hlinks, app_nil_r. repeat split; cbn; lia.
Qed.

Lemma processItem_metered item : preserves metered (processItem cfg P net item).
Proof.
  intros s. rewrite processItem_unroll, rateLimitedRequest_unroll.
  destruct (processingQueue s); [reflexivity|]. destruct (stopFlag s); [reflexivity|].
  destruct (gateOpen_log cfg net s) as (Hg & _).
  destruct (requestFn_counts item (gateOpen cfg net s)) as (pages & links & Hp & Hl & Hlp & Hp1).
  destruct (requestFn_ungated cfg P net item (gateOpen cfg net s)) as [_ Hd].
  assert (Hreq : metered s (snd (requestFn cfg P net item (gateOpen cfg net s)))).
  { exists [clock (gateOpen cfg net s)], pages, links.
    rewrite Hd, Hp, Hl, Hg, dispatches_app, !fetchesOf_app. cbn. rewrite !app_nil_r.
    repeat split; lia. }
  destruct (requestFn cfg P net item (gateOpen cfg net s)) as [[[]|e| |] s3];
    cbn [snd] in *; try exact Hreq.
  - etransitivity; [exact Hreq|]. apply same_log_metered. rewrite delay_log. reflexivity.
  - etransitivity; [exact Hreq|]. apply same_log_metered. rewrite delay_log. reflexivity.
Qed.

Lemma startCrawl_metered fuel startUrl s :
  metered s (snd (startCrawl cfg P net fuel startUrl s)).
Proof.
  apply (startCrawl_invariant (metered s)).
  - intros _. apply same_log_metered. reflexivity.
  - intros _. apply same_log_metered. reflexivity.
  - intros fuel' s' H. apply (crawlWorker_invariant (metered s)); [|exact H].
    intros s1 item rest H1 _ _. split.
    + etransitivity; [exact H1|]. apply same_log_metered. reflexivity.
    + intros _. etransitivity; [exact H1|].
      transitivity (with_queue rest s1); [apply same_log_metered; reflexivity|].
      apply processItem_metered.
Qed.

Lemma startCrawl_balance fuel startUrl s :
  activeRequests (snd (startCrawl cfg P net fuel startUrl s)) = 0%Z.
Proof.
  apply (startCrawl_invariant (fun s' => activeRequests s' = 0%Z)).
  - intros _. reflexivity.
  - intros _. reflexivity.
  - intros fuel' s' H. rewrite (proj1 (crawlWorker_balance fuel' s')). exact H.
Qed.

End Invariants.

(** ** The crawl as a whole *)

(** X1.  However the crawl goes, no page is recorded and no link is left in
    the frontier at a depth beyond [maxDepth]: links are taken from a page
    only when its depth is below the limit, and they are queued one level
    deeper. *)
Theorem crawl_stays_within_depth :
  forall cfg P net fuel startUrl s,
    let s' := snd (startCrawl cfg P net fuel startUrl s) in
    Forall (fun wi => wi_depth wi <= maxDepth cfg) (queue s') /\
    Forall (fun pd => pr_depth pd <= maxDepth cfg) (index s').
Proof. intros. apply startCrawl_withinDepth. Qed.

(** X2.  A URL ends up at most once in the results of a crawl, as a page or
    as an error but not both, and every URL that did is marked visited. *)
Theorem crawl_settles_each_url_once :
  forall cfg P net fuel startUrl s,
    let s' := snd (startCrawl cfg P net fuel startUrl s) in
    NoDup (map pr_url (index s') ++ map ce_url (errors s')) /\
    forall u, u ∈ map pr_url (index s') ++ map ce_url (errors s') -> u ∈ visited s'.
Proof. intros. apply startCrawl_settledOnce. Qed.

(** X3.  The counters of [getStats] agree with the lists of [getResults]:
    [stats.processed] is the number of pages, [errors] the number of error
    entries, and pages and errors together are no more than the visited
    URLs. *)
Theorem stats_agree_with_results :
  forall cfg P net fuel startUrl s,
    let s' := snd (startCrawl cfg P net fuel startUrl s) in
    processed s' = st_crawled (getStats s') /\
    st_errors (getStats s') = length (res_errors (getResults s')) /\
    st_crawled (getStats s') + st_errors (getStats s') <= st_visited (getStats s').
Proof.
  intros cfg P net fuel startUrl s s'.
  destruct (startCrawl_counted cfg P net fuel startUrl s) as [Hp Hf].
  pose proof (settled_in_visited _ (startCrawl_settledOnce cfg P net fuel startUrl s)) as Hv.
  fold s' in Hp, Hf, Hv. cbn [getStats getResults st_crawled st_errors st_visited res_errors].
  split; [exact Hp|]. split; [exact Hf|]. rewrite Hf. exact Hv.
Qed.

(** X4.  When [startCrawl] is over, no request is counted as active, the
    start time is the time of the call, and the elapsed seconds reported by
    [getStats] are not negative. *)
Theorem stats_when_crawl_is_over :
  forall cfg P net fuel startUrl s,
    let s' := snd (startCrawl cfg P net fuel startUrl s) in
    st_activeRequests (getStats s') = 0%Z /\
    startTime s' = Some (clock s) /\
    (0 <= st_elapsed (getStats s'))%Z.
Proof.
  intros cfg P net fuel startUrl s s'.
  destruct (startCrawl_chronological cfg P net fuel startUrl s) as (Hst & Hc & _).
  fold s' in Hst, Hc. cbn [getStats st_activeRequests st_elapsed].
  split; [apply startCrawl_balance|]. split; [exact Hst|]. rewrite Hst.
  destruct (clock s =? 0)%Z; [reflexivity|]. apply Z.div_pos; lia.
Qed.

(** X5.  The page records are in the order they were made: their
    [crawledAt] stamps do not decrease along [index], lie between the start
    of the crawl and its end, and [loadTime] is the time since the start
    of the crawl (not the time the page took to load). *)
Theorem pages_in_crawl_order :
  forall cfg P net fuel startUrl s,
    let s' := snd (startCrawl cfg P net fuel startUrl s) in
    spaced 0 (map pr_crawledAt (index s')) /\
    Forall (fun pd => (clock s <= pr_crawledAt pd <= clock s')%Z /\
                      pr_loadTime pd = (pr_crawledAt pd - clock s)%Z) (index s').
Proof.
  intros cfg P net fuel startUrl s s'.
  destruct (startCrawl_chronological cfg P net fuel startUrl s) as (_ & _ & Hsp & Hall).
  split; assumption.
Qed.

(** X6.  On a platform whose URLs keep their host name when serialised and
    parsed again, every page request and every link request of a crawl goes
    to the host of the seed. *)
Theorem requests_stay_on_seed_host :
  forall cfg P net fuel startUrl s,
    hostnameStable P ->
    exists new,
      log (snd (startCrawl cfg P net fuel startUrl s)) = log s ++ new /\
      Forall (onHost P startUrl) new.
Proof. intros cfg P net fuel startUrl s H. apply startCrawl_onHost, H. Qed.

Lemma requests_stay_on_seed_host_witness :
  hostnameStable Demo.platform /\
  exists new,
    log (snd (startCrawl Demo.defaults Demo.platform Demo.healthy 10 Demo.seed
                (newEngine Demo.t0))) = log (newEngine Demo.t0) ++ new /\
    Forall (onHost Demo.platform Demo.seed) new.
Proof.
  split; [exact demo_hostnameStable|].
  exact (requests_stay_on_seed_host Demo.defaults Demo.platform Demo.healthy 10 Demo.seed
           (newEngine Demo.t0) demo_hostnameStable).
Defined.

(** X7.  The second request for a page, the one [extractLinks] sends, is
    made for pages that have a record only, and once per page. *)
Theorem links_requested_for_recorded_pages :
  forall cfg P net fuel startUrl cache last now,
    let s' := snd (startCrawl cfg P net fuel startUrl (idleEngine cache last now)) in
    NoDup (fetchesOf LinkFetch (log s')) /\
    forall u, u ∈ fetchesOf LinkFetch (log s') -> u ∈ map pr_url (index s').
Proof. intros. apply startCrawl_linksOfRecorded. Qed.

(** X8.  With [respectRobots] off a crawl sends no robots.txt request. *)
Theorem no_robots_request_when_disabled :
  forall cfg P net fuel startUrl s,
    respectRobots cfg = false ->
    fetchesOf RobotsFetch (log (snd (startCrawl cfg P net fuel startUrl s)))
    = fetchesOf RobotsFetch (log s).
Proof.
  intros cfg P net fuel startUrl s H. apply logged_notRobots, startCrawl_notRobots, H.
Qed.

Lemma no_robots_request_when_disabled_witness :
  respectRobots (Demo.withoutRobots Demo.defaults) = false /\
  fetchesOf RobotsFetch
    (log (snd (startCrawl (Demo.withoutRobots Demo.defaults) Demo.platform Demo.healthy 10
                 Demo.seed (newEngine Demo.t0))))
  = fetchesOf RobotsFetch (log (newEngine Demo.t0)).
Proof.
  split; [reflexivity|].
  exact (no_robots_request_when_disabled (Demo.withoutRobots Demo.defaults) Demo.platform
           Demo.healthy 10 Demo.seed (newEngine Demo.t0) eq_refl).
Defined.



(** X10.  Once the controller of the crawl is aborted, for instance by the
    timer of one slow request, the worker sends nothing more and records no
    further page, whatever is left in the frontier. *)
Theorem nothing_sent_after_abort :
  forall cfg P net fuel s,
    aborted s = true ->
    let s' := snd (crawlWorker cfg P net fuel s) in
    aborted s' = true /\ index s' = index s /\
    fetchTimes (log s') = fetchTimes (log s).
Proof. intros cfg P net fuel s H. apply crawlWorker_aborted, H. Qed.

Lemma nothing_sent_after_abort_witness :
  aborted (abortController (with_queue [seedItem Demo.seed] (newEngine Demo.t0))) = true /\
  let s' := snd (crawlWorker Demo.defaults Demo.platform Demo.healthy 5
                   (abortController (with_queue [seedItem Demo.seed] (newEngine Demo.t0)))) in
  aborted s' = true /\
  index s' = index (abortController (with_queue [seedItem Demo.seed] (newEngine Demo.t0))) /\
  fetchTimes (log s')
  = fetchTimes (log (abortController (with_queue [seedItem Demo.seed] (newEngine Demo.t0)))).
Proof.
  split; [reflexivity|].
  exact (nothing_sent_after_abort Demo.defaults Demo.platform Demo.healthy 5
           (abortController (with_queue [seedItem Demo.seed] (newEngine Demo.t0))) eq_refl).
Defined.

(** X11.  The robots cache holds one verdict per robots.txt file: the
    verdict computed from the path of the first URL checked.  A later check
    of another URL with the same robots.txt address gets that verdict,
    whatever its own path, and sends no request. *)
Theorem robots_verdict_shared_by_host :
  forall cfg P net url1 url2 urlObj1 urlObj2 s resp ms,
    newURL P url1 = Some urlObj1 ->
    newURL P url2 = Some urlObj2 ->
    robotsUrlOf urlObj2 = robotsUrlOf urlObj1 ->
    robotsCache s !! robotsUrlOf urlObj1 = None ->
    aborted s = false ->
    replies net s ms (Responds resp) ->
    let verdict :=
      if r_ok resp
      then Robots.parseRobotsTxt (userAgent cfg) (r_body resp) (u_pathname urlObj1)
      else true in
    let s1 := snd (isAllowedByRobots cfg P net url1 s) in
    fst (isAllowedByRobots cfg P net url1 s) = Ret verdict /\
    isAllowedByRobots cfg P net url2 s1 = (Ret verdict, s1).
Proof.
  intros cfg P net url1 url2 urlObj1 urlObj2 s resp ms H1 H2 Hsame Hmiss Hab Hreply verdict s1.
  subst s1.
  rewrite (isAllowedByRobots_first cfg P net url1 urlObj1 s resp ms H1 Hmiss Hab Hreply).
  cbn [fst snd]. split; [reflexivity|].
  apply (isAllowedByRobots_cached cfg P net url2 urlObj2); [exact H2|].
  rewrite Hsame. fields. apply lookup_insert_eq.
Qed.

Lemma robots_verdict_shared_by_host_witness :
  let s1 := snd (isAllowedByRobots Demo.defaults Demo.platform guardedSite Demo.seed
                   (newEngine Demo.t0)) in
  Robots.parseRobotsTxt (userAgent Demo.defaults) Robots.exampleRobots "/admin/x" = false /\
  isAllowedByRobots Demo.defaults Demo.platform guardedSite "https://site.test/admin/x" s1
  = (Ret true, s1).
Proof.
  split; [reflexivity|].
  exact (proj2 (robots_verdict_shared_by_host Demo.defaults Demo.platform guardedSite
                  Demo.seed "https://site.test/admin/x"
                  (Demo.mkUrl "https:" "site.test" "/")
                  (Demo.mkUrl "https:" "site.test" "/admin/x")
                  (newEngine Demo.t0) guardedRobots 5%N
                  eq_refl eq_refl eq_refl (lookup_empty _) eq_refl eq_refl)).
Defined.

(** X12.  A seed that is not an http(s) URL makes [startCrawl] throw before
    anything is queued or sent; the results of the previous crawl are gone
    by then, the robots cache is not. *)
Theorem invalid_seed_is_refused :
  forall cfg P net fuel startUrl s,
    isValidUrl P startUrl = false ->
    let s' := snd (startCrawl cfg P net fuel startUrl s) in
    fst (startCrawl cfg P net fuel startUrl s)
      = Throw (plainError "Invalid start URL provided") /\
    log s' = log s /\ queue s' = [] /\ index s' = [] /\ errors s' = [] /\
    visited s' = ∅ /\ robotsCache s' = robotsCache s.
Proof.
  intros cfg P net fuel startUrl s H s'. subst s'.
  rewrite startCrawl_unroll, H. cbn [negb fst snd]. repeat split.
Qed.

Lemma invalid_seed_is_refused_witness :
  isValidUrl Demo.platform "ftp://site.test/f" = false /\
  fst (startCrawl Demo.defaults Demo.platform Demo.healthy 10 "ftp://site.test/f"
         (newEngine Demo.t0))
  = Throw (plainError "Invalid start URL provided").
Proof.
  split; [reflexivity|].
  exact (proj1 (invalid_seed_is_refused Demo.defaults Demo.platform Demo.healthy 10
                  "ftp://site.test/f" (newEngine Demo.t0) eq_refl)).
Defined.

(** X13.  Robots verdicts outlive a crawl: [reset] does not clear the
    cache, and nothing in a crawl removes or changes an entry. *)
Theorem robots_cache_survives_restart :
  forall cfg P net fuel startUrl s k b,
    robotsCache s !! k = Some b ->
    robotsCache (snd (startCrawl cfg P net fuel startUrl s)) !! k = Some b.
Proof. intros cfg P net fuel startUrl s k b H. apply startCrawl_cache, H. Qed.

Lemma robots_cache_survives_restart_witness :
  robotsCache Demo.allowAllCached !! Demo.siteRobots = Some true /\
  robotsCache (snd (startCrawl Demo.defaults Demo.platform Demo.healthy 10 Demo.seed
                      Demo.allowAllCached)) !! Demo.siteRobots = Some true.
Proof.
  assert (H : robotsCache Demo.allowAllCached !! Demo.siteRobots = Some true)
    by apply lookup_singleton_eq.
  split; [exact H|].
  exact (robots_cache_survives_restart Demo.defaults Demo.platform Demo.healthy 10 Demo.seed
           Demo.allowAllCached Demo.siteRobots true H).
Defined.

(** X14.  Requests pass the rate limiter one page at a time: among the
    requests of a crawl there are no more page requests than passes through
    the rate limiter, and no more link requests than page requests.
    Requests for robots.txt are not counted by the limiter. *)
Theorem page_requests_are_metered :
  forall cfg P net fuel startUrl cache last now,
    let s' := snd (startCrawl cfg P net fuel startUrl (idleEngine cache last now)) in
    length (fetchesOf LinkFetch (log s')) <= length (fetchesOf PageFetch (log s')) /\
    length (fetchesOf PageFetch (log s')) <= length (dispatches (log s')).
Proof.
  intros cfg P net fuel startUrl cache last now s'.
  destruct (startCrawl_metered cfg P net fuel startUrl (idleEngine cache last now))
    as (passes & pages & links & Hd & Hp & Hl & Hlp & Hpd).
  fold s' in Hd, Hp, Hl. rewrite Hd, Hp, Hl. cbn. lia.
Qed.

(** ** robots.txt groups *)

Lemma scanLine_unaddressed ua pathname lines :
  Forall (fun line => namesCrawler ua line = false) lines ->
  fold_left (Robots.scanLine ua pathname) lines
    {| Robots.userAgentMatch := false; Robots.allowed := true |}
  = {| Robots.userAgentMatch := false; Robots.allowed := true |}.
Proof.
  induction 1 as [|line rest Hline _ IH]; [reflexivity|].
  cbn [fold_left]. rewrite <- IH at 2. f_equal.
  unfold Robots.scanLine, namesCrawler in *. cbn [Robots.userAgentMatch Robots.allowed andb].
  destruct (JsString.startsWith (JsString.toLowerCase line) "user-agent:"); [|reflexivity].
  cbn [andb] in Hline. rewrite Hline. reflexivity.
Qed.

(** X15.  Rules count only inside a group addressed to the crawler: a
    robots.txt in which no [User-agent] line names the crawler or [*]
    allows every path, whatever rules it lists. *)
Theorem robots_without_matching_group_allows :
  forall ua robotsText pathname,
    Forall (fun line => namesCrawler ua line = false) (Robots.robotsLines robotsText) ->
    Robots.parseRobotsTxt ua robotsText pathname = true.
Proof.
  intros ua robotsText pathname H. unfold Robots.parseRobotsTxt.
  rewrite scanLine_unaddressed; [reflexivity|exact H].
Qed.

Lemma robots_without_matching_group_allows_witness :
  Forall (fun line => namesCrawler "WebWarden Crawler 2.0" line = false)
    (Robots.robotsLines (JsString.unlines ["User-agent: Googlebot"; "Disallow: /"])) /\
  Robots.parseRobotsTxt "WebWarden Crawler 2.0"
    (JsString.unlines ["User-agent: Googlebot"; "Disallow: /"]) "/private" = true.
Proof.
  assert (H : Forall (fun line => namesCrawler "WebWarden Crawler 2.0" line = false)
                (Robots.robotsLines (JsString.unlines ["User-agent: Googlebot"; "Disallow: /"]))).
  { repeat constructor. }
  split; [exact H|].
  exact (robots_without_matching_group_allows "WebWarden Crawler 2.0"
           (JsString.unlines ["User-agent: Googlebot"; "Disallow: /"]) "/private" H).
Defined.

(** * ExportManager *)

Section Escaping.
Import ExportManager.
Local Open Scope string_scope.

Lemma append_cons x (a b : string) : String x a ++ b = String x (a ++ b).
Proof. reflexivity. Qed.

Lemma append_assoc (a b c : string) : a ++ (b ++ c) = (a ++ b) ++ c.
Proof.
  induction a as [|x a IH]; [reflexivity|]. rewrite !append_cons, IH. reflexivity.
Qed.

Lemma replaceAll_app c repl a b :
  replaceAll c repl (a ++ b) = replaceAll c repl a ++ replaceAll c repl b.
Proof.
  induction a as [|x a IH]; [reflexivity|]. rewrite append_cons. cbn [replaceAll].
  rewrite IH. destruct (Ascii.eqb x c); [apply append_assoc|reflexivity].
Qed.

Lemma escapeXml_cons c r : escapeXml (String c r) = xmlEntity c ++ escapeXml r.
Proof.
  unfold escapeXml, xmlEntity. cbn [replaceAll].
  destruct (Ascii.eqb_spec c "&") as [->|_]; cbv iota.
  { rewrite !replaceAll_app. reflexivity. }
  cbn [replaceAll]. destruct (Ascii.eqb_spec c "<") as [->|_]; cbv iota.
  { rewrite !replaceAll_app. reflexivity. }
  cbn [replaceAll]. destruct (Ascii.eqb_spec c ">") as [->|_]; cbv iota.
  { rewrite !replaceAll_app. reflexivity. }
  cbn [replaceAll]. destruct (Ascii.eqb_spec c dquote) as [->|_]; cbv iota.
  { rewrite !replaceAll_app. reflexivity. }
  cbn [replaceAll]. destruct (Ascii.eqb_spec c "'") as [->|_]; reflexivity.
Qed.

Lemma escapeXml_app a b : escapeXml (a ++ b) = escapeXml a ++ escapeXml b.
Proof. unfold escapeXml. rewrite !replaceAll_app. reflexivity. Qed.

Lemma countChar_app c a b : countChar c (a ++ b) = countChar c a + countChar c b.
Proof. induction a as [|x a IH]; [reflexivity|]. rewrite append_cons. cbn [countChar]. rewrite IH. lia. Qed.

Lemma xmlEntity_clean c d :
  d = "<"%char \/ d = ">"%char \/ d = dquote \/ d = "'"%char ->
  countChar d (xmlEntity c) = 0.
Proof.
  intros Hd. unfold xmlEntity.
  destruct (Ascii.eqb_spec c "&"); [destruct Hd as [-> | [-> | [-> | ->]]]; reflexivity|].
  destruct (Ascii.eqb_spec c "<"); [destruct Hd as [-> | [-> | [-> | ->]]]; reflexivity|].
  destruct (Ascii.eqb_spec c ">"); [destruct Hd as [-> | [-> | [-> | ->]]]; reflexivity|].
  destruct (Ascii.eqb_spec c dquote); [destruct Hd as [-> | [-> | [-> | ->]]]; reflexivity|].
  destruct (Ascii.eqb_spec c "'"); [destruct Hd as [-> | [-> | [-> | ->]]]; reflexivity|].
  cbn [countChar]. destruct (Ascii.eqb_spec c d) as [->|_]; [|reflexivity].
  destruct Hd as [-> | [-> | [-> | ->]]]; congruence.
Qed.

Lemma xmlEntity_head c :
  exists t, xmlEntity c = String (if Ascii.eqb c "&" then "&"%char
                                  else if Ascii.eqb c "<" then "&"%char
                                  else if Ascii.eqb c ">" then "&"%char
                                  else if Ascii.eqb c dquote then "&"%char
                                  else if Ascii.eqb c "'" then "&"%char else c) t.
Proof.
  unfold xmlEntity.
  repeat match goal with |- context [Ascii.eqb c ?x] => destruct (Ascii.eqb c x) end;
    eexists; reflexivity.
Qed.

Lemma escapeXml_injective_aux a : forall b, escapeXml a = escapeXml b -> a = b.
Proof.
  induction a as [|x a IH]; intros [|y b] H.
  - reflexivity.
  - rewrite escapeXml_cons in H. destruct (xmlEntity_head y) as (t & Ht). rewrite Ht in H.
    discriminate.
  - rewrite escapeXml_cons in H. destruct (xmlEntity_head x) as (t & Ht). rewrite Ht in H.
    discriminate.
  - rewrite !escapeXml_cons in H. unfold xmlEntity in H.
    destruct (Ascii.eqb_spec x "&") as [->|Hx1]; destruct (Ascii.eqb_spec y "&") as [->|Hy1];
      try (f_equal; apply IH; cbv beta iota delta [String.append] in H; congruence).
    all: try destruct (Ascii.eqb_spec x "<") as [->|Hx2];
         try destruct (Ascii.eqb_spec y "<") as [->|Hy2];
         try destruct (Ascii.eqb_spec x ">") as [->|Hx3];
         try destruct (Ascii.eqb_spec y ">") as [->|Hy3];
         try destruct (Ascii.eqb_spec x dquote) as [->|Hx4];
         try destruct (Ascii.eqb_spec y dquote) as [->|Hy4];
         try destruct (Ascii.eqb_spec x "'") as [->|Hx5];
         try destruct (Ascii.eqb_spec y "'") as [->|Hy5];
         cbv beta iota delta [String.append] in H; try discriminate;
         try (f_equal; apply IH; congruence);
         try (injection H as H0 H; congruence).
    injection H as -> H. f_equal. apply IH, H.
Qed.

Lemma escapeXml_clean d s :
  d = "<"%char \/ d = ">"%char \/ d = dquote \/ d = "'"%char ->
  countChar d (escapeXml s) = 0.
Proof.
  intros Hd. induction s as [|c r IH]; [reflexivity|].
  rewrite escapeXml_cons, countChar_app, IH, xmlEntity_clean; [reflexivity|exact Hd].
Qed.

Lemma doubled_quotes_count s :
  countChar dquote (replaceAll dquote (String dquote (String dquote EmptyString)) s)
  = 2 * countChar dquote s.
Proof.
  induction s as [|c r IH]; [reflexivity|]. cbn [replaceAll countChar].
  destruct (Ascii.eqb_spec c dquote) as [->|Hc].
  - rewrite !append_cons. change (EmptyString ++ ?x) with x. cbn [countChar].
    rewrite IH, !Ascii.eqb_refl. lia.
  - cbn [countChar]. rewrite IH. destruct (Ascii.eqb_spec c dquote); [contradiction|lia].
Qed.

Lemma doubled_quotes_injective a :
  forall b,
    replaceAll dquote (String dquote (String dquote EmptyString)) a ++ String dquote EmptyString
    = replaceAll dquote (String dquote (String dquote EmptyString)) b ++ String dquote EmptyString ->
    a = b.
Proof.
  induction a as [|x a IH]; intros [|y b] H; cbn [replaceAll] in H.
  - reflexivity.
  - exfalso. destruct (Ascii.eqb_spec y dquote) as [->|Hy];
      cbv beta iota delta [String.append] in H; fold String.append in H.
    + discriminate.
    + injection H as H0 _. congruence.
  - exfalso. destruct (Ascii.eqb_spec x dquote) as [->|Hx];
      cbv beta iota delta [String.append] in H; fold String.append in H.
    + discriminate.
    + injection H as H0 _. congruence.
  - destruct (Ascii.eqb_spec x dquote) as [->|Hx]; destruct (Ascii.eqb_spec y dquote) as [->|Hy];
      rewrite ?append_cons in H; change (EmptyString ++ ?z) with z in H.
    + injection H as H. f_equal. apply IH, H.
    + injection H as H0 _. congruence.
    + injection H as H0 _. congruence.
    + injection H as -> H. f_equal. apply IH, H.
Qed.

End Escaping.

(** X16.  [escapeXml] works character by character, although it is written
    as five successive replacements: the ampersands of the entities it
    inserts are not escaped again.  Its output holds no [<], [>], double
    quote or apostrophe. *)
Theorem escapeXml_entities :
  (forall c, ExportManager.escapeXml (String c EmptyString) = ExportManager.xmlEntity c) /\
  (forall a b,
      ExportManager.escapeXml (a ++ b)%string
      = (ExportManager.escapeXml a ++ ExportManager.escapeXml b)%string) /\
  (forall s,
      ExportManager.countChar "<" (ExportManager.escapeXml s) = 0 /\
      ExportManager.countChar ">" (ExportManager.escapeXml s) = 0 /\
      ExportManager.countChar ExportManager.dquote (ExportManager.escapeXml s) = 0 /\
      ExportManager.countChar "'" (ExportManager.escapeXml s) = 0).
Proof.
  split; [|split].
  - intros c. rewrite escapeXml_cons.
    change (ExportManager.escapeXml EmptyString) with EmptyString.
    generalize (ExportManager.xmlEntity c). intros s.
    induction s as [|x s IH]; [reflexivity|]. rewrite append_cons, IH. reflexivity.
  - apply escapeXml_app.
  - intros s. repeat split; apply escapeXml_clean; auto.
Qed.

(** X17.  [escapeXml] loses nothing: different texts have different
    escaped forms. *)
Theorem escapeXml_injective :
  forall a b, ExportManager.escapeXml a = ExportManager.escapeXml b -> a = b.
Proof. intros a b H. apply escapeXml_injective_aux, H. Qed.

Lemma escapeXml_injective_witness :
  ExportManager.escapeXml "a<b & c" = ExportManager.escapeXml "a<b & c" /\
  "a<b & c"%string = "a<b & c"%string.
Proof.
  split; [reflexivity|].
  exact (escapeXml_injective "a<b & c" "a<b & c" eq_refl).
Defined.

(** X18.  A field written by [escapeCsvField] starts and ends with a quote
    and holds every quote of the text twice, so its quotes are even in
    number. *)
Theorem escapeCsvField_quotes :
  forall field,
    (exists body,
        ExportManager.escapeCsvField field
        = String ExportManager.dquote (body ++ String ExportManager.dquote EmptyString)%string) /\
    ExportManager.countChar ExportManager.dquote (ExportManager.escapeCsvField field)
    = 2 + 2 * ExportManager.countChar ExportManager.dquote field.
Proof.
  intros field. split; [eexists; reflexivity|].
  unfold ExportManager.escapeCsvField. cbn [ExportManager.countChar].
  rewrite countChar_app, doubled_quotes_count. cbn [ExportManager.countChar].
  rewrite !Ascii.eqb_refl. lia.
Qed.

(** X19.  [escapeCsvField] loses nothing: different texts give different
    fields. *)
Theorem escapeCsvField_injective :
  forall a b, ExportManager.escapeCsvField a = ExportManager.escapeCsvField b -> a = b.
Proof.
  intros a b H. unfold ExportManager.escapeCsvField in H. injection H as H.
  apply doubled_quotes_injective, H.
Qed.

Lemma escapeCsvField_injective_witness :
  ExportManager.escapeCsvField "a, b" = ExportManager.escapeCsvField "a, b" /\
  "a, b"%string = "a, b"%string.
Proof.
  split; [reflexivity|].
  exact (escapeCsvField_injective "a, b" "a, b" eq_refl).
Defined.

(** * UIController *)



Section Truncate.
Import UIController.
Local Open Scope string_scope.

Lemma length_append (a b : string) :
  String.length (a ++ b) = String.length a + String.length b.
Proof.
  induction a as [|x a IH]; [reflexivity|]. rewrite append_cons. cbn [String.length].
  rewrite IH. reflexivity.
Qed.

Lemma length_prefix n s : String.length (prefix n s) = Nat.min n (String.length s).
Proof.
  revert s. induction n as [|n IH]; intros [|c r]; try reflexivity.
  cbn [prefix String.length]. rewrite IH. reflexivity.
Qed.

Lemma prefix_all n s : String.length s <= n -> prefix n s = s.
Proof.
  revert s. induction n as [|n IH]; intros [|c r] H; try reflexivity.
  - cbn in H. lia.
  - cbn [prefix]. rewrite IH; [reflexivity|]. cbn in H. lia.
Qed.

Lemma startsWith_append a b : JsString.startsWith (a ++ b) a = true.
Proof.
  induction a as [|x a IH]; [destruct b; reflexivity|].
  rewrite append_cons. cbn [JsString.startsWith]. rewrite Ascii.eqb_refl, IH. reflexivity.
Qed.

Lemma startsWith_refl a : JsString.startsWith a a = true.
Proof.
  induction a as [|x a IH]; [reflexivity|].
  cbn [JsString.startsWith]. rewrite Ascii.eqb_refl, IH. reflexivity.
Qed.

End Truncate.

(** X21.  [truncateUrl] keeps the first [maxLength] characters of the URL
    and returns at most [maxLength + 3] characters; a URL it shortens
    comes back as exactly [maxLength + 3] characters, which is more than it
    had when it was only one or two characters too long. *)
Theorem truncateUrl_length :
  forall url maxLength,
    String.length (UIController.truncateUrl url maxLength) <= Z.to_nat maxLength + 3 /\
    JsString.startsWith (UIController.truncateUrl url maxLength)
      (UIController.prefix (Z.to_nat maxLength) url) = true /\
    ((maxLength < Z.of_nat (String.length url))%Z ->
     String.length (UIController.truncateUrl url maxLength) = Z.to_nat maxLength + 3).
Proof.
  intros url maxLength. unfold UIController.truncateUrl.
  destruct (Z.ltb_spec maxLength (Z.of_nat (String.length url))) as [Hlong|Hshort].
  - rewrite length_append, length_prefix. cbn [String.length].
    split; [lia|]. split; [apply startsWith_append|]. intros _. lia.
  - split; [lia|]. split; [|lia].
    rewrite prefix_all; [apply startsWith_refl|lia].
Qed.

(** * Logger *)

Section LoggerFacts.
Import Logger.

Lemma sliceFrom_last {A} (n : Z) (l : list A) :
  (1 <= n)%Z -> (n < Z.of_nat (length l))%Z ->
  length (JsArray.sliceFrom (- n) l) = Z.to_nat n /\
  exists dropped, l = dropped ++ JsArray.sliceFrom (- n) l.
Proof.
  intros Hn Hlen. unfold JsArray.sliceFrom, JsArray.relIndex.
  destruct (Z.ltb_spec (- n) 0); [|lia]. split.
  - rewrite length_drop. lia.
  - exists (take (Z.to_nat (Z.max (Z.of_nat (length l) + - n) 0)) l).
    symmetry. apply take_drop.
Qed.

Lemma log_bound now lv message data st :
  (1 <= maxLogs st)%Z ->
  (Z.of_nat (length (logs st)) <= maxLogs st)%Z ->
  (1 <= maxLogs (log now lv message data st))%Z /\
  (Z.of_nat (length (logs (log now lv message data st)))
   <= maxLogs (log now lv message data st))%Z.
Proof.
  intros Hmax Hlen. unfold log.
  destruct (lessThan (levels lv) (levels (level st))); [split; assumption|].
  cbn [maxLogs logs]. split; [assumption|].
  destruct (Z.ltb_spec (maxLogs st) (Z.of_nat (length (logs st ++
      [{| le_timestamp := now; le_level := lv; le_message := message; le_data := data |}]))))
    as [Hover|Hfits]; [|exact Hfits].
  destruct (sliceFrom_last (maxLogs st) _ Hmax Hover) as [Hl _]. rewrite Hl. lia.
Qed.

Lemma logAll_bound calls st :
  (1 <= maxLogs st)%Z ->
  (Z.of_nat (length (logs st)) <= maxLogs st)%Z ->
  maxLogs (logAll calls st) = maxLogs st /\
  (Z.of_nat (length (logs (logAll calls st))) <= maxLogs st)%Z.
Proof.
  revert st. induction calls as [|c calls IH]; intros st Hmax Hlen; [split; [reflexivity|assumption]|].
  cbn [logAll fold_left].
  destruct (log_bound (c_now c) (c_level c) (c_message c) (c_data c) st Hmax Hlen) as [H1 H2].
  assert (Hsame : maxLogs (log (c_now c) (c_level c) (c_message c) (c_data c) st) = maxLogs st).
  { unfold log. destruct (lessThan _ _); reflexivity. }
  destruct (IH _ H1 H2) as [H3 H4]. fold (logAll calls) in H3, H4.
  unfold logAll in *. rewrite H3, Hsame in *. split; [reflexivity|exact H4].
Qed.

Lemma log_recorded now lv message data st :
  (1 <= maxLogs st)%Z ->
  lessThan (levels lv) (levels (level st)) = false ->
  last (logs (log now lv message data st))
  = Some {| le_timestamp := now; le_level := lv; le_message := message; le_data := data |} /\
  exists dropped,
    logs st ++ [{| le_timestamp := now; le_level := lv; le_message := message;
                   le_data := data |}]
    = dropped ++ logs (log now lv message data st).
Proof.
  intros Hmax Hlt. unfold log. rewrite Hlt. cbn [logs].
  set (entry := {| le_timestamp := now; le_level := lv; le_message := message;
                   le_data := data |}).
  destruct (Z.ltb_spec (maxLogs st) (Z.of_nat (length (logs st ++ [entry])))) as [Hover|Hfits].
  - destruct (sliceFrom_last (maxLogs st) (logs st ++ [entry]) Hmax Hover)
      as [Hl (dropped & Hd)].
    split; [|exists dropped; exact Hd].
    destruct (JsArray.sliceFrom (- maxLogs st) (logs st ++ [entry])) as [|x kept] eqn:Hk.
    { cbn in Hl. lia. }
    pose proof (last_snoc entry (logs st)) as Hlast. rewrite Hd in Hlast.
    apply last_app_Some in Hlast as [Hlast|[Hnone _]]; [exact Hlast|].
    apply last_None in Hnone. discriminate.
  - split; [apply last_snoc|]. exists []. reflexivity.
Qed.

Lemma sliceFrom_sublist {A} (n : Z) (l : list A) : JsArray.sliceFrom n l `sublist_of` l.
Proof. unfold JsArray.sliceFrom. apply sublist_drop. Qed.

End LoggerFacts.

(** X22.  A logger never holds more than 1000 entries, whatever is logged
    to it. *)
Theorem logger_keeps_at_most_1000 :
  forall level calls,
    length (Logger.logs (Logger.logAll calls (Logger.create level))) <= 1000.
Proof.
  intros level calls.
  destruct (logAll_bound calls (Logger.create level)) as [_ H]; cbn; try lia.
  cbn in H. lia.
Qed.

(** X23.  [log] drops a message only when both its level and the level of
    the logger are among DEBUG, INFO, WARN and ERROR and the first is lower:
    a message under any other level name, or sent to a logger created with
    another level name, is recorded.  A recorded message is the last entry,
    and the entries kept are the most recent ones in their order. *)
Theorem log_records_unless_below_threshold :
  forall now lv message data st,
    (1 <= Logger.maxLogs st)%Z ->
    Logger.levels lv = None \/ Logger.levels (Logger.level st) = None \/
    (exists a b, Logger.levels lv = Some a /\ Logger.levels (Logger.level st) = Some b /\
                 b <= a) ->
    last (Logger.logs (Logger.log now lv message data st))
    = Some {| Logger.le_timestamp := now; Logger.le_level := lv;
              Logger.le_message := message; Logger.le_data := data |} /\
    exists dropped,
      Logger.logs st ++ [{| Logger.le_timestamp := now; Logger.le_level := lv;
                            Logger.le_message := message; Logger.le_data := data |}]
      = dropped ++ Logger.logs (Logger.log now lv message data st).
Proof.
  intros now lv message data st Hmax H. apply log_recorded; [exact Hmax|].
  unfold Logger.lessThan.
  destruct H as [-> | [-> | (a & b & -> & -> & Hab)]]; [reflexivity| |].
  - destruct (Logger.levels lv); reflexivity.
  - apply Nat.ltb_ge. exact Hab.
Qed.

Lemma log_records_unless_below_threshold_witness :
  (1 <= Logger.maxLogs (Logger.create "INFO"))%Z /\
  Logger.levels "TRACE" = None /\
  last (Logger.logs (Logger.log 0 "TRACE" "low" None (Logger.create "INFO")))
  = Some {| Logger.le_timestamp := 0; Logger.le_level := "TRACE";
            Logger.le_message := "low"; Logger.le_data := None |}.
Proof.
  split; [cbn; lia|]. split; [reflexivity|].
  exact (proj1 (log_records_unless_below_threshold 0 "TRACE" "low" None (Logger.create "INFO")
                  ltac:(cbn; lia) (or_introl eq_refl))).
Defined.

(** X24.  [getLogs] returns entries of the log in their order, all of the
    level asked for when one is given, and no more than [limit] of them
    when [limit] is positive; a [limit] of 0 does not limit anything. *)
Theorem getLogs_selects :
  forall lv limit st,
    Logger.getLogs lv limit st `sublist_of` Logger.logs st /\
    (forall l, lv = Some l -> l <> EmptyString ->
               Forall (fun entry => Logger.le_level entry = l) (Logger.getLogs lv limit st)) /\
    ((1 <= limit)%Z -> (Z.of_nat (length (Logger.getLogs lv limit st)) <= limit)%Z) /\
    Logger.getLogs None 0 st = Logger.logs st.
Proof.
  intros lv limit st. split; [|split; [|split]].
  - unfold Logger.getLogs. etransitivity; [apply sliceFrom_sublist|].
    destruct lv as [l|]; [|reflexivity].
    destruct (JsString.truthy l); [apply filter_sublist|reflexivity].
  - intros l -> Hl. unfold Logger.getLogs.
    destruct l as [|c r]; [contradiction|]. cbn [JsString.truthy].
    apply list.Forall_forall. intros entry Hin.
    pose proof (elem_of_sublist _ _ _ Hin (sliceFrom_sublist _ _)) as Hin'.
    apply list_elem_of_In, filter_In in Hin' as [_ Heq]. apply String.eqb_eq, Heq.
  - intros Hlimit. unfold Logger.getLogs, JsArray.sliceFrom, JsArray.relIndex.
    destruct (Z.ltb_spec (- limit) 0); [|lia]. rewrite length_drop. lia.
  - reflexivity.
Qed.

(** * ConfigManager *)

Section ConfigFacts.
Import ConfigManager.

Lemma clamp_within lo hi v :
  (lo <= hi)%Z -> within lo hi (Some (jsMax lo (jsMin hi v))).
Proof. intros H. destruct v as [|n]; cbn; [exact I|lia]. Qed.

Lemma floor_atLeast lo v : atLeast lo (Some (jsMax lo v)).
Proof. destruct v as [|n]; cbn; [exact I|lia]. Qed.

Lemma within_map {Value} lo hi (f : Value -> JsInt) (given : option Value) :
  (forall v, within lo hi (Some (f v))) -> within lo hi (option_map f given).
Proof. intros H. destruct given as [v|]; [apply H|exact I]. Qed.

Lemma nanKept_clamp {Value} (parseInt : Value -> JsInt) lo hi given :
  nanKept parseInt given (option_map (fun v => jsMax lo (jsMin hi (parseInt v))) given).
Proof. intros v -> Hv. cbn. rewrite Hv. reflexivity. Qed.

Lemma nanKept_floor {Value} (parseInt : Value -> JsInt) lo given :
  nanKept parseInt given (option_map (fun v => jsMax lo (parseInt v)) given).
Proof. intros v -> Hv. cbn. rewrite Hv. reflexivity. Qed.

End ConfigFacts.

(** X25.  Whatever object [validateConfig] is given, each number it sets is
    within the limits of its field (1 to 10 workers, at least 100 ms of
    delay, 1000 to 60000 ms of timeout, 0 to 5 retries, 1 to 1000 pages,
    depth 1 to 10) or is [NaN]; and it is [NaN] whenever [parseInt] does not
    read the given value as a number: such a value is not replaced by a
    default. *)
Theorem validateConfig_ranges :
  forall (Value : Type) (parseInt : Value -> JsInt) (toBoolean : Value -> bool)
         (asString : Value -> option string) (config : ConfigManager.Updates Value),
    let validated := ConfigManager.validateConfig Value parseInt toBoolean asString config in
    (ConfigManager.within 1 10 (ConfigManager.out_maxConcurrency validated) /\
     ConfigManager.atLeast 100 (ConfigManager.out_requestDelay validated) /\
     ConfigManager.within 1000 60000 (ConfigManager.out_timeout validated) /\
     ConfigManager.within 0 5 (ConfigManager.out_maxRetries validated) /\
     ConfigManager.within 1 1000 (ConfigManager.out_maxPages validated) /\
     ConfigManager.within 1 10 (ConfigManager.out_maxDepth validated)) /\
    (ConfigManager.nanKept parseInt (ConfigManager.in_maxConcurrency Value config)
       (ConfigManager.out_maxConcurrency validated) /\
     ConfigManager.nanKept parseInt (ConfigManager.in_requestDelay Value config)
       (ConfigManager.out_requestDelay validated) /\
     ConfigManager.nanKept parseInt (ConfigManager.in_timeout Value config)
       (ConfigManager.out_timeout validated) /\
     ConfigManager.nanKept parseInt (ConfigManager.in_maxRetries Value config)
       (ConfigManager.out_maxRetries validated) /\
     ConfigManager.nanKept parseInt (ConfigManager.in_maxPages Value config)
       (ConfigManager.out_maxPages validated) /\
     ConfigManager.nanKept parseInt (ConfigManager.in_maxDepth Value config)
       (ConfigManager.out_maxDepth validated)).
Proof.
  intros Value parseInt toBoolean asString config validated. subst validated.
  cbn [ConfigManager.validateConfig ConfigManager.out_maxConcurrency
       ConfigManager.out_requestDelay ConfigManager.out_timeout ConfigManager.out_maxRetries
       ConfigManager.out_maxPages ConfigManager.out_maxDepth].
  split.
  - repeat split; try (apply within_map; intros v; apply clamp_within; lia).
    destruct (ConfigManager.in_requestDelay Value config) as [v|]; [|exact I].
    apply floor_atLeast.
  - repeat split; first [apply nanKept_clamp|apply nanKept_floor].
Qed.

(** * SearchEngine *)

Section SearchFacts.
Import SearchEngine.

Lemma filter_filter {A} (f g : A -> bool) (l : list A) :
  List.filter g (List.filter f l) = List.filter (fun x => f x && g x) l.
Proof.
  induction l as [|x l IH]; [reflexivity|]. cbn [List.filter].
  destruct (f x); cbn [List.filter andb]; [|exact IH].
  destruct (g x); rewrite IH; reflexivity.
Qed.

Lemma filter_ext_bool {A} (f g : A -> bool) (l : list A) :
  (forall x, f x = g x) -> List.filter f l = List.filter g l.
Proof.
  intros H. induction l as [|x l IH]; [reflexivity|]. cbn [List.filter].
  rewrite H, IH. reflexivity.
Qed.

Lemma filter_true {A} (l : list A) : List.filter (fun _ => true) l = l.
Proof. induction l as [|x l IH]; [reflexivity|]. cbn [List.filter]. rewrite IH. reflexivity. Qed.

Lemma filterResults_meets results filters :
  filterResults results filters = List.filter (meets filters) results.
Proof.
  unfold filterResults, meets. cbv zeta.
  destruct (f_minWordCount filters) as [n|]; [destruct (n =? 0)%Z|];
    destruct (f_maxDepth filters) as [d|]; destruct (f_hasImages filters);
    destruct (f_dateRange filters) as [[start stop]|];
    rewrite <- (filter_true results) at 1;
    rewrite ?filter_filter; apply filter_ext_bool; intros page;
    cbn [negb orb andb]; rewrite ?andb_true_r, ?andb_assoc; reflexivity.
Qed.

End SearchFacts.

(** X26.  [filterResults] keeps, in their order, exactly the pages that
    pass every filter that is set; a [minWordCount] of 0 is not a filter. *)
Theorem filterResults_single_pass :
  forall results filters,
    SearchEngine.filterResults results filters
    = List.filter (SearchEngine.meets filters) results /\
    SearchEngine.filterResults results filters `sublist_of` results.
Proof.
  intros results filters. rewrite filterResults_meets. split; [reflexivity|].
  apply filter_sublist.
Qed.

(** X27.  Filtering the pages of a crawl by the depth limit of the engine
    that made them drops nothing. *)
Theorem crawl_results_pass_depth_filter :
  forall cfg P net fuel startUrl s,
    SearchEngine.filterResults (index (snd (startCrawl cfg P net fuel startUrl s)))
      (SearchEngine.upToDepth (maxDepth cfg))
    = index (snd (startCrawl cfg P net fuel startUrl s)).
Proof.
  intros cfg P net fuel startUrl s. rewrite filterResults_meets.
  destruct (startCrawl_withinDepth cfg P net fuel startUrl s) as [_ Hdepth].
  induction Hdepth as [|pd l Hpd _ IH]; [reflexivity|].
  cbn [List.filter]. rewrite IH.
  unfold SearchEngine.meets at 1, SearchEngine.upToDepth.
  cbn [SearchEngine.f_minWordCount SearchEngine.f_maxDepth SearchEngine.f_hasImages
       SearchEngine.f_dateRange negb orb andb].
  destruct (Z.leb_spec (Z.of_nat (pr_depth pd)) (Z.of_nat (maxDepth cfg))); [reflexivity|lia].
Qed.

Section SuggestFacts.
Import SearchEngine.

Lemma wordsOf_allWordChars text : Forall (fun w => allWordChars w = true) (wordsOf text).
Proof.
  induction text as [|c r IH]; [constructor|]. cbn [wordsOf].
  destruct (isWordChar c) eqn:Hc; [|exact IH].
  destruct (startsWord r).
  - destruct (wordsOf r) as [|w ws].
    + constructor; [cbn; rewrite Hc; reflexivity|constructor].
    + apply Forall_cons in IH as [Hw Hws]. constructor; [|exact Hws].
      cbn [allWordChars]. rewrite Hc, Hw. reflexivity.
  - constructor; [cbn; rewrite Hc; reflexivity|exact IH].
Qed.

Lemma startsWith_allWordChars w q :
  allWordChars w = true -> JsString.startsWith w q = true -> allWordChars q = true.
Proof.
  revert w. induction q as [|a q IH]; intros w Hw Hq; [reflexivity|].
  destruct w as [|b w]; [discriminate|]. cbn [JsString.startsWith] in Hq.
  apply andb_prop in Hq as [Hab Hq]. apply Ascii.eqb_eq in Hab. subst b.
  cbn [allWordChars] in *. apply andb_prop in Hw as [Ha Hw].
  rewrite Ha. apply (IH w); assumption.
Qed.

Lemma setAdd_NoDup x l : NoDup l -> NoDup (setAdd x l).
Proof.
  intros H. unfold setAdd. destruct (existsb (String.eqb x) l) eqn:Hex; [exact H|].
  apply NoDup_app. split; [exact H|]. split; [|apply NoDup_singleton].
  intros y Hy Hyx. apply list_elem_of_singleton in Hyx. subst y.
  assert (Htrue : existsb (String.eqb x) l = true); [|congruence].
  apply existsb_exists. exists x. split; [apply list_elem_of_In, Hy|apply String.eqb_refl].
Qed.

Lemma setAdd_elem x l y : y ∈ setAdd x l -> y ∈ l \/ y = x.
Proof.
  unfold setAdd. destruct (existsb (String.eqb x) l); [left; assumption|].
  intros H. apply elem_of_app in H as [H|H]; [left; exact H|].
  right. apply list_elem_of_singleton, H.
Qed.

(** What holds of every suggestion collected so far. *)
Lemma suggestions_good (ok : string -> Prop) q :
  forall words acc,
    (forall w, w ∈ words -> JsString.startsWith w q = true -> w <> q -> ok w) ->
    NoDup acc /\ Forall ok acc ->
    NoDup (fold_left
             (fun suggestions word =>
                if JsString.startsWith word q && negb (String.eqb word q)
                then setAdd word suggestions else suggestions) words acc) /\
    Forall ok (fold_left
                 (fun suggestions word =>
                    if JsString.startsWith word q && negb (String.eqb word q)
                    then setAdd word suggestions else suggestions) words acc).
Proof.
  induction words as [|word words IH]; intros acc Hok [Hnd Hall]; [split; assumption|].
  cbn [fold_left]. apply IH.
  - intros w Hw. apply Hok. apply elem_of_cons. right. exact Hw.
  - destruct (JsString.startsWith word q) eqn:Hs; cbn [andb]; [|split; assumption].
    destruct (String.eqb_spec word q) as [Heq|Hne]; cbn [negb]; [split; assumption|].
    split; [apply setAdd_NoDup, Hnd|].
    apply list.Forall_forall. intros y Hy. apply setAdd_elem in Hy as [Hy| ->].
    + apply (proj1 (list.Forall_forall _ _) Hall), Hy.
    + apply Hok; [apply elem_of_cons; left; reflexivity|exact Hs|exact Hne].
Qed.

Lemma collected_good (ok : string -> Prop) q :
  forall pages acc,
    (forall page w, page ∈ pages -> w ∈ wordsOf (titleAndKeywords page) ->
                    JsString.startsWith w q = true -> w <> q -> ok w) ->
    NoDup acc /\ Forall ok acc ->
    NoDup (fold_left (suggestFrom q) pages acc) /\
    Forall ok (fold_left (suggestFrom q) pages acc).
Proof.
  induction pages as [|page pages IH]; intros acc Hok Hacc; [exact Hacc|].
  cbn [fold_left]. apply IH.
  - intros p w Hp. apply Hok. apply elem_of_cons. right. exact Hp.
  - unfold suggestFrom. apply suggestions_good; [|exact Hacc].
    intros w Hw. apply (Hok page); [apply elem_of_cons; left; reflexivity|exact Hw].
Qed.

Lemma slice_sublist {A} (start stop : Z) (l : list A) : JsArray.slice start stop l `sublist_of` l.
Proof.
  unfold JsArray.slice. etransitivity; [apply sublist_take|apply sublist_drop].
Qed.

Lemma slice_length {A} (limit : Z) (l : list A) :
  (0 <= limit)%Z -> (Z.of_nat (length (JsArray.slice 0 limit l)) <= limit)%Z.
Proof.
  intros H. unfold JsArray.slice, JsArray.relIndex.
  destruct (Z.ltb_spec limit 0); [lia|]. cbn [Z.ltb Z.compare]. rewrite length_take. lia.
Qed.

Lemma getSuggestions_good (ok : string -> Prop) index query limit :
  (forall page w, page ∈ index -> w ∈ wordsOf (titleAndKeywords page) ->
                  JsString.startsWith w (JsString.toLowerCase query) = true ->
                  w <> JsString.toLowerCase query -> ok w) ->
  NoDup (getSuggestions index query limit) /\ Forall ok (getSuggestions index query limit).
Proof.
  intros Hok. unfold getSuggestions.
  destruct (negb (JsString.truthy (JsString.trim query)) || (String.length query <? 2)%nat);
    [split; constructor|].
  destruct (collected_good ok (JsString.toLowerCase query) index [] Hok)
    as [Hnd Hall]; [split; constructor|].
  split.
  - eapply sublist_NoDup; [exact Hnd|apply slice_sublist].
  - apply list.Forall_forall. intros w Hw.
    apply (proj1 (list.Forall_forall _ _) Hall).
    eapply elem_of_sublist; [exact Hw|apply slice_sublist].
Qed.

End SuggestFacts.

(** X28.  The suggestions for a query are pairwise different words of the
    titles and keywords of the indexed pages, in lower case, that start
    with the query in lower case and are not the query itself; they are no
    more than [limit] when [limit] is not negative. *)
Theorem getSuggestions_sound :
  forall index query limit,
    NoDup (SearchEngine.getSuggestions index query limit) /\
    Forall (fun w =>
              JsString.startsWith w (JsString.toLowerCase query) = true /\
              w <> JsString.toLowerCase query /\
              exists page, page ∈ index /\
                           w ∈ SearchEngine.wordsOf (SearchEngine.titleAndKeywords page))
      (SearchEngine.getSuggestions index query limit) /\
    ((0 <= limit)%Z ->
     (Z.of_nat (length (SearchEngine.getSuggestions index query limit)) <= limit)%Z).
Proof.
  intros index query limit.
  destruct (getSuggestions_good
              (fun w => JsString.startsWith w (JsString.toLowerCase query) = true /\
                        w <> JsString.toLowerCase query /\
                        exists page, page ∈ index /\
                                     w ∈ SearchEngine.wordsOf
                                           (SearchEngine.titleAndKeywords page))
              index query limit) as [Hnd Hall].
  { intros page w Hp Hw Hs Hne. split; [exact Hs|]. split; [exact Hne|].
    exists page. split; assumption. }
  split; [exact Hnd|]. split; [exact Hall|].
  intros Hlimit. unfold SearchEngine.getSuggestions.
  destruct (negb (JsString.truthy (JsString.trim query)) || (String.length query <? 2)%nat);
    [cbn; lia|apply slice_length, Hlimit].
Qed.

(** X29.  A query that holds anything but letters, digits and underscores,
    such as a query of two words, gets no suggestion, whatever is indexed:
    suggestions are single words. *)
Theorem no_suggestion_for_several_words :
  forall index query limit,
    SearchEngine.allWordChars (JsString.toLowerCase query) = false ->
    SearchEngine.getSuggestions index query limit = [].
Proof.
  intros index query limit Hq.
  destruct (getSuggestions_good (fun _ => False) index query limit) as [_ Hall].
  { intros page w _ Hw Hs _.
    pose proof (proj1 (list.Forall_forall _ _)
                  (wordsOf_allWordChars (SearchEngine.titleAndKeywords page)) w Hw) as Hword.
    pose proof (startsWith_allWordChars w _ Hword Hs) as Hall. congruence. }
  destruct (SearchEngine.getSuggestions index query limit) as [|w ws]; [reflexivity|].
  apply Forall_cons in Hall as [[] _].
Qed.

Lemma no_suggestion_for_several_words_witness :
  SearchEngine.allWordChars (JsString.toLowerCase "web cr") = false /\
  SearchEngine.getSuggestions [Demo.homeRecord] "web cr" 5 = [].
Proof.
  split; [reflexivity|].
  exact (no_suggestion_for_several_words [Demo.homeRecord] "web cr" 5 eq_refl).
Defined.

Section IndexFacts.
Import SearchEngine.

(** The pages listed under a word. *)
Lemma addWord_lists k idx word w i :
  i ∈ default ∅ (addWord k idx word !! w) <->
  i ∈ default ∅ (idx !! w) \/ (i = k /\ w = word /\ 2 < String.length w).
Proof.
  unfold addWord. destruct (Nat.ltb_spec 2 (String.length word)) as [Hlong|Hshort].
  - destruct (decide (word = w)) as [->|Hne].
    + rewrite lookup_insert_eq.
      change (default ∅ (Some ({[k]} ∪ default ∅ (idx !! w)))) with ({[k]} ∪ default ∅ (idx !! w)).
      rewrite elem_of_union, elem_of_singleton.
      split.
      * intros [->|H]; [right; repeat split; assumption|left; exact H].
      * intros [H|(-> & _ & _)]; [right; exact H|left; reflexivity].
    + rewrite lookup_insert_ne by exact Hne.
      split; [intros H; left; exact H|]. intros [H|(_ & -> & _)]; [exact H|contradiction].
  - split; [intros H; left; exact H|]. intros [H|(_ & -> & Hl)]; [exact H|lia].
Qed.

Lemma addWords_lists k words :
  forall idx w i,
    i ∈ default ∅ (fold_left (addWord k) words idx !! w) <->
    i ∈ default ∅ (idx !! w) \/ (i = k /\ w ∈ words /\ 2 < String.length w).
Proof.
  induction words as [|word words IH]; intros idx w i; cbn [fold_left].
  - split; [intros H; left; exact H|]. intros [H|(_ & H & _)]; [exact H|].
    apply elem_of_nil in H. destruct H.
  - rewrite IH, addWord_lists. rewrite elem_of_cons. split.
    + intros [[H|(-> & -> & Hl)]|(-> & H & Hl)].
      * left; exact H.
      * right. repeat split; [left; reflexivity|exact Hl].
      * right. repeat split; [right; exact H|exact Hl].
    + intros [H|(-> & [->|H] & Hl)].
      * left; left; exact H.
      * left; right. repeat split. exact Hl.
      * right. repeat split; assumption.
Qed.

Lemma addPages_lists entries :
  forall idx w i,
    i ∈ default ∅ (fold_left addPage entries idx !! w) <->
    i ∈ default ∅ (idx !! w) \/
    exists page, (i, page) ∈ entries /\ w ∈ wordsOf (indexedText page) /\
                 2 < String.length w.
Proof.
  induction entries as [|[k page] entries IH]; intros idx w i; cbn [fold_left].
  - split; [intros H; left; exact H|]. intros [H|(page & H & _)]; [exact H|].
    apply elem_of_nil in H. destruct H.
  - rewrite IH. unfold addPage. cbn [fst snd]. rewrite addWords_lists. split.
    + intros [[H|(-> & H & Hl)]|(p & Hp & H & Hl)].
      * left; exact H.
      * right. exists page. split; [apply elem_of_cons; left; reflexivity|]. split; assumption.
      * right. exists p. split; [apply elem_of_cons; right; exact Hp|]. split; assumption.
    + intros [H|(p & Hp & H & Hl)]; [left; left; exact H|].
      apply elem_of_cons in Hp as [Heq|Hp].
      * injection Heq as -> ->. left; right. repeat split; assumption.
      * right. exists p. repeat split; assumption.
Qed.

Lemma numbered_lookup {A} (l : list A) :
  forall k i x, (i, x) ∈ zip (seq k (length l)) l <-> k <= i /\ l !! (i - k) = Some x.
Proof.
  induction l as [|y l IH]; intros k i x; cbn [length seq zip zip_with].
  - split; [intros H; apply elem_of_nil in H; destruct H|]. intros [_ H]. discriminate.
  - rewrite elem_of_cons. fold (zip (seq (S k) (length l)) l). rewrite IH. split.
    + intros [Heq|[Hle Hl]].
      * injection Heq as -> ->. split; [lia|]. rewrite Nat.sub_diag. reflexivity.
      * split; [lia|]. replace (i - k) with (S (i - S k)) by lia. exact Hl.
    + intros [Hle Hl]. destruct (decide (i = k)) as [->|Hne].
      * left. rewrite Nat.sub_diag in Hl. cbn in Hl. congruence.
      * right. split; [lia|]. replace (i - k) with (S (i - S k)) in Hl by lia. exact Hl.
Qed.

End IndexFacts.

(** X30.  The inverted index lists page number [i] under a word exactly
    when the word has more than two characters and is one of the words of
    the title, description and keywords, in lower case, of page [i]. *)
Theorem buildSearchIndex_lists :
  forall pages word i,
    i ∈ default ∅ (SearchEngine.buildSearchIndex pages !! word) <->
    exists page,
      pages !! i = Some page /\
      word ∈ SearchEngine.wordsOf (SearchEngine.indexedText page) /\
      2 < String.length word.
Proof.
  intros pages word i. unfold SearchEngine.buildSearchIndex.
  rewrite addPages_lists, lookup_empty.
  change (default ∅ (@None (gset nat))) with (∅ : gset nat). split.
  - intros [H|(page & Hp & Hw & Hl)]; [apply elem_of_empty in H; destruct H|].
    apply numbered_lookup in Hp as [_ Hp]. rewrite Nat.sub_0_r in Hp.
    exists page. repeat split; assumption.
  - intros (page & Hp & Hw & Hl). right. exists page. split; [|split; assumption].
    apply numbered_lookup. split; [lia|]. rewrite Nat.sub_0_r. exact Hp.
Qed.
